(** * Year progress: the progress calculator and the refresh scheduling

    A shallow embedding of [script.js] and of the two other versions of the
    script kept in the repository: the first version, whose interval runs
    [updateUI] directly, and the frame-driven variant, which paints from an
    animation loop and keeps no progress record.  All three share
    [getYearProgressPrecise] and the clipboard format.

    Conventions of the embedding.

    - A JavaScript time value (milliseconds since the epoch) is an integer
      [Z]; the time value of [new Date()] is valid, that is of magnitude at
      most 8.64e15.  The host's [Date] is modelled by the abstract
      operations of ECMAScript: [DayFromYear], [TimeFromYear],
      [YearFromTime], the two-digit-year rule of the [Date] constructor,
      [TimeClip], and the host's time zone as the function [LocalTZA(t,
      isUTC)], which gives the offset in force at a UTC instant and the
      offset by which a local time is read.  A date that is not valid is
      [None].
    - A JavaScript number is a [JS.number]: NaN, an infinity, or a finite
      binary64 number given by its exact rational value.  The arithmetic
      operators round the exact result to binary64, to nearest, ties to
      even ([Binary64.roundToPrecision]).  The two zeros are one value: the
      script divides by positive constants only, and nothing it does with
      a zero depends on its sign.
    - [totalDaysInYear], which is one of the literals 365 and 366, and the
      other integers of the scheduling code stay in [Z].
    - A JavaScript string is the list of its UTF-16 code units ([list N]).
    - The [let] variables of a script and the host's timer tables are the
      fields of one record that every handler takes and returns; the host
      delivers events one at a time, each at a given clock value. *)

From Stdlib Require Import ZArith QArith Qround Qminmax Qabs List Bool Lia.
Import ListNotations.

Open Scope Z_scope.

(** ** The host's calendar (ECMAScript Date abstract operations) *)

Module Calendar.

Definition msPerDay : Z := 86400000.

(** [DayFromYear(y)]: day number of 1 January of year [y]. *)
Definition DayFromYear (y : Z) : Z :=
  365 * (y - 1970) + (y - 1969) / 4 - (y - 1901) / 100 + (y - 1601) / 400.

Definition TimeFromYear (y : Z) : Z := msPerDay * DayFromYear y.

(** [DaysInYear(y)], by the four cases of ECMAScript. *)
Definition DaysInYear (y : Z) : Z :=
  if negb (y mod 4 =? 0) then 365
  else if negb (y mod 100 =? 0) then 366
  else if negb (y mod 400 =? 0) then 365
  else 366.

(** [YearFromTime(t)]: ECMAScript defines it as the largest [y] with
    [TimeFromYear y <= t].  It is computed here from the mean length of a
    Gregorian year (146097 days in 400 years) and one step of correction;
    [YearFromTime_spec] and [YearFromTime_largest] show that this is the
    year ECMAScript means. *)
Definition YearFromTime (t : Z) : Z :=
  let d := t / msPerDay in
  let y0 := 1970 + (400 * d) / 146097 in
  if d <? DayFromYear y0 then y0 - 1
  else if DayFromYear (y0 + 1) <=? d then y0 + 1
  else y0.

(** The host's time zone, [LocalTZA(t, isUTC)]: for [isUTC = true] the
    offset in force at the UTC instant [t], for [isUTC = false] the offset
    by which the host reads the local time [t]. *)
Definition TimeZone : Type := Z -> bool -> Z.

(** A host whose offset never changes. *)
Definition fixedOffset (offset : Z) : TimeZone := fun _ _ => offset.

(** [LocalTime(t) = t + LocalTZA(t, true)] and
    [UTC(t) = t - LocalTZA(t, false)]. *)
Definition LocalTime (tz : TimeZone) (t : Z) : Z := t + tz t true.
Definition UTC (tz : TimeZone) (t : Z) : Z := t - tz t false.

(** The range of time values and [TimeClip]. *)
Definition maxTime : Z := 8640000000000000.

Definition validTime (t : Z) : bool := Z.abs t <=? maxTime.

Definition TimeClip (t : Z) : option Z :=
  if validTime t then Some t else None.

(** [Date.prototype.getFullYear] of the valid date whose time value is
    [t]. *)
Definition getFullYear (tz : TimeZone) (t : Z) : Z :=
  YearFromTime (LocalTime tz t).

(** The year the [Date] constructor uses for a year argument: an argument
    from 0 to 99 stands for 1900 + the argument. *)
Definition fullYearOfArgument (year : Z) : Z :=
  if (0 <=? year) && (year <=? 99) then 1900 + year else year.

(** [new Date(year, 0, 1)]: local midnight of 1 January read in the host's
    zone and clipped; [None] is the invalid date. *)
Definition newDateJan1 (tz : TimeZone) (year : Z) : option Z :=
  TimeClip (UTC tz (TimeFromYear (fullYearOfArgument year))).

(** A year argument the constructor takes as it is. *)
Definition plainYear (year : Z) : bool := negb ((0 <=? year) && (year <=? 99)).

(** A host on Pyongyang time: UTC+08:30 from 15 August 2015, 00:00 of the
    old local time, to 4 May 2018, 23:30 local time, and UTC+09:00 before
    and after.  A local time that occurs twice or not at all is read by
    the offset in force before the change. *)
Definition msPerHour : Z := 3600000.
Definition pyongyangBack : Z :=
  TimeFromYear 2015 + 225 * msPerDay + 15 * msPerHour.
Definition pyongyangForth : Z :=
  TimeFromYear 2018 + 123 * msPerDay + 15 * msPerHour.

Definition pyongyang : TimeZone :=
  fun t isUTC =>
    let from := if isUTC then pyongyangBack else pyongyangBack + 9 * msPerHour in
    let to := if isUTC then pyongyangForth else pyongyangForth + 9 * msPerHour in
    if (from <=? t) && (t <? to) then 8 * msPerHour + msPerHour / 2
    else 9 * msPerHour.

End Calendar.

Import Calendar.

(** ** Binary64 rounding *)

Module Binary64.

(** The nearest integer, a tie going to the even one. *)
Definition roundToEven (x : Q) : Z :=
  let f := Qfloor x in
  match (x - inject_Z f ?= 1 # 2)%Q with
  | Lt => f
  | Gt => f + 1
  | Eq => if Z.even f then f else f + 1
  end.

(** The least positive binary64 number is 2^-1074; magnitudes are counted
    in that unit. *)
Definition scale : Z := 2 ^ 1074.

(** The distance, in units of 2^-1074, between neighbouring binary64
    numbers at a magnitude whose integer part in those units is [q0]: one
    unit below 2^53 units (the subnormal numbers and the first binade) and
    2^(L - 52) units in the binade [2^L, 2^(L+1)). *)
Definition spacing (q0 : Z) : Z :=
  if q0 <? 2 ^ 53 then 1 else 2 ^ (Z.log2 q0 - 52).

(** A non-negative magnitude [X], given in units of 2^-1074, rounded to
    the nearest multiple of the spacing at [X]. *)
Definition units (X : Q) : Z :=
  roundToEven (X / inject_Z (spacing (Qfloor X))) * spacing (Qfloor X).

Definition magnitude (x : Q) : Z := units (Qabs x * inject_Z scale).

(** The real number [x] rounded to 53 significant bits with an exponent of
    at least -1074, to nearest, ties to even: the binary64 number nearest
    to [x] as long as the result is below 2^1024. *)
Definition roundToPrecision (x : Q) : Q :=
  let v := Qred (inject_Z (magnitude x) / inject_Z scale) in
  if Qle_bool 0 x then v else (- v)%Q.

(** [v] is a finite binary64 number. *)
Definition representable (v : Q) : Prop :=
  (roundToPrecision v == v)%Q /\ (Qabs v < inject_Z (2 ^ 1024))%Q.

End Binary64.

(** ** JavaScript numbers and strings used by the code *)

Module JS.

Inductive number : Type :=
  | NaN
  | Infinity (negative : bool)
  | Finite (value : Q).

(** An integer that binary64 holds exactly (magnitude at most 2^53): a
    numeric literal, or the time value of a valid date. *)
Definition ofZ (n : Z) : number := Finite (inject_Z n).

(** [ToNumber] of a date. *)
Definition ofDate (d : option Z) : number :=
  match d with
  | Some t => ofZ t
  | None => NaN
  end.

Definition Qltb (x y : Q) : bool := negb (Qle_bool y x).

(** The binary64 number for a real result: overflow gives an infinity. *)
Definition round (x : Q) : number :=
  let v := Binary64.roundToPrecision x in
  if Qle_bool (inject_Z (2 ^ 1024)) (Qabs v) then Infinity (Qltb v 0)
  else Finite v.

(** [a - b], [a * b] and [a / b]. *)
Definition sub (a b : number) : number :=
  match a, b with
  | NaN, _ | _, NaN => NaN
  | Infinity s, Infinity t => if Bool.eqb s t then NaN else Infinity s
  | Infinity s, Finite _ => Infinity s
  | Finite _, Infinity t => Infinity (negb t)
  | Finite x, Finite y => round (x - y)
  end.

Definition mul (a b : number) : number :=
  match a, b with
  | NaN, _ | _, NaN => NaN
  | Infinity s, Infinity t => Infinity (xorb s t)
  | Infinity s, Finite y | Finite y, Infinity s =>
      if Qeq_bool y 0 then NaN else Infinity (xorb s (Qltb y 0))
  | Finite x, Finite y => round (x * y)
  end.

Definition div (a b : number) : number :=
  match a, b with
  | NaN, _ | _, NaN => NaN
  | Infinity _, Infinity _ => NaN
  | Infinity s, Finite y => Infinity (xorb s (Qltb y 0))
  | Finite _, Infinity _ => Finite 0
  | Finite x, Finite y =>
      if Qeq_bool y 0 then
        if Qeq_bool x 0 then NaN else Infinity (Qltb x 0)
      else round (x / y)
  end.

(** [a < b]; false when one of the two is NaN. *)
Definition ltb (a b : number) : bool :=
  match a, b with
  | NaN, _ | _, NaN => false
  | Infinity s, Infinity t => s && negb t
  | Infinity s, Finite _ => s
  | Finite _, Infinity t => negb t
  | Finite x, Finite y => Qltb x y
  end.

(** [Math.min(a, b)]: NaN if one of the two is. *)
Definition Math_min (a b : number) : number :=
  match a, b with
  | NaN, _ | _, NaN => NaN
  | _, _ => if ltb b a then b else a
  end.

(** [Math.floor] of a number. *)
Definition Math_floor (a : number) : number :=
  match a with
  | Finite x => ofZ (Qfloor x)
  | _ => a
  end.

(** The nearest integer, a tie going towards +infinity. *)
Definition roundHalfUp (x : Q) : Z := Qfloor (x + (1 # 2)).

(** [Math.round] of a number. *)
Definition Math_round (a : number) : number :=
  match a with
  | Finite x => ofZ (roundHalfUp x)
  | _ => a
  end.

(** [a % b] on integers keeps the sign of the dividend. *)
Definition rem (a b : Z) : Z := Z.rem a b.

(** A string: its UTF-16 code units. *)
Definition str : Type := list N.

Fixpoint unitsOfUint (d : Decimal.uint) : str :=
  match d with
  | Decimal.Nil => []
  | Decimal.D0 r => 48%N :: unitsOfUint r
  | Decimal.D1 r => 49%N :: unitsOfUint r
  | Decimal.D2 r => 50%N :: unitsOfUint r
  | Decimal.D3 r => 51%N :: unitsOfUint r
  | Decimal.D4 r => 52%N :: unitsOfUint r
  | Decimal.D5 r => 53%N :: unitsOfUint r
  | Decimal.D6 r => 54%N :: unitsOfUint r
  | Decimal.D7 r => 55%N :: unitsOfUint r
  | Decimal.D8 r => 56%N :: unitsOfUint r
  | Decimal.D9 r => 57%N :: unitsOfUint r
  end.

(** Decimal digits of a non-negative integer, "0" for zero. *)
Definition decimal (n : Z) : str := unitsOfUint (N.to_uint (Z.to_N n)).

(** [toFixed(f)] of a finite number of magnitude below 10^21: the sign,
    then the integer nearest to [|x| * 10^f] (the larger one on a tie)
    written with at least [f + 1] digits and a point before the last [f]. *)
Definition toFixedFinite (f : nat) (x : Q) : str :=
  let neg := Qltb x 0 in
  let ax := if neg then Qopp x else x in
  let n := Qfloor (ax * inject_Z (10 ^ Z.of_nat f) + (1 # 2)) in
  let m := decimal n in
  let m :=
    match f with
    | O => m
    | _ =>
        let z := repeat 48%N (S f - length m) ++ m in
        let k := length z in
        firstn (k - f) z ++ 46%N :: skipn (k - f) z
    end in
  (if neg then [45%N] else []) ++ m.

(** [Number.prototype.toFixed(f)]: "NaN", "Infinity" and "-Infinity" for
    what is not finite. *)
Definition toFixed (f : nat) (a : number) : str :=
  match a with
  | NaN => [78; 97; 78]%N
  | Infinity s =>
      (if s then [45%N] else []) ++ [73; 110; 102; 105; 110; 105; 116; 121]%N
  | Finite x => toFixedFinite f x
  end.

(** [String.prototype.repeat(count)]: the count is truncated to an
    integer, NaN counting as 0; a RangeError ([None]) for a negative or
    infinite count. *)
Definition String_repeat (s : str) (count : number) : option str :=
  match count with
  | NaN => Some []
  | Infinity _ => None
  | Finite c =>
      let n := Z.quot (Qnum c) (Zpos (Qden c)) in
      if n <? 0 then None else Some (concat (repeat s (Z.to_nat n)))
  end.

End JS.

(** ** The progress calculator: [getYearProgressPrecise] *)

Definition PERCENTAGE_PRECISION : nat := 6.

Record ProgressRecord : Type := mkProgress {
  percentage : JS.number;
  displayPercentage : JS.str;
  daysPassed : JS.number;
  daysRemaining : JS.number;
  totalDaysInYear : Z
}.

(** [(year % 4 === 0 && year % 100 !== 0) || year % 400 === 0] *)
Definition isLeap (year : Z) : bool :=
  ((JS.rem year 4 =? 0) && negb (JS.rem year 100 =? 0))
  || (JS.rem year 400 =? 0).

Definition totalDaysOf (year : Z) : Z := if isLeap year then 366 else 365.

(** The intermediate values of the function, named as in the source. *)
Definition startOfYear (tz : TimeZone) (now : Z) : option Z :=
  newDateJan1 tz (getFullYear tz now).
Definition endOfYear (tz : TimeZone) (now : Z) : option Z :=
  newDateJan1 tz (getFullYear tz now + 1).
Definition msPassed (tz : TimeZone) (now : Z) : JS.number :=
  JS.sub (JS.ofZ now) (JS.ofDate (startOfYear tz now)).
Definition msRemaining (tz : TimeZone) (now : Z) : JS.number :=
  JS.sub (JS.ofDate (endOfYear tz now)) (JS.ofZ now).
Definition totalMsInYear (tz : TimeZone) (now : Z) : Z :=
  totalDaysOf (getFullYear tz now) * 24 * 60 * 60 * 1000.

(** [now] is the time value of [new Date()], [tz] the host's time zone. *)
Definition getYearProgressPrecise (tz : TimeZone) (now : Z) : ProgressRecord :=
  let year := getFullYear tz now in
  let startOfYear := newDateJan1 tz year in
  let isLeap := isLeap year in
  let totalDaysInYear := if isLeap then 366 else 365 in
  let totalMsInYear := totalDaysInYear * 24 * 60 * 60 * 1000 in
  let msPassed := JS.sub (JS.ofZ now) (JS.ofDate startOfYear) in
  let percentage :=
    JS.Math_min (JS.ofZ 100)
      (JS.mul (JS.div msPassed (JS.ofZ totalMsInYear)) (JS.ofZ 100)) in
  let msPerDay := 24 * 60 * 60 * 1000 in
  let daysPassed := JS.Math_floor (JS.div msPassed (JS.ofZ msPerDay)) in
  let endOfYear := newDateJan1 tz (year + 1) in
  let msRemaining := JS.sub (JS.ofDate endOfYear) (JS.ofZ now) in
  let daysRemaining := JS.Math_floor (JS.div msRemaining (JS.ofZ msPerDay)) in
  {| percentage := percentage;
     displayPercentage := JS.toFixed PERCENTAGE_PRECISION percentage;
     daysPassed := daysPassed;
     daysRemaining := daysRemaining;
     totalDaysInYear := totalDaysInYear |}.

(** [fractionElapsed] of the data model is [percentage / 100]; it is a
    real number only where the percentage is finite. *)
Definition fractionElapsed (r : ProgressRecord) : option Q :=
  match percentage r with
  | JS.Finite p => Some (p / 100)%Q
  | _ => None
  end.

(** The fraction is a number in [0, 1]. *)
Definition fractionInUnitInterval (r : ProgressRecord) : Prop :=
  exists f : Q, fractionElapsed r = Some f /\ (0 <= f)%Q /\ (f <= 1)%Q.

(** A host whose local time is UTC; local midnight of 1 January 2024 and
    of 1 January 50 on that host. *)
Definition utc : TimeZone := fixedOffset 0.
Definition jan1_2024 : Z := TimeFromYear 2024.
Definition jan1_year50 : Z := TimeFromYear 50.

(** The instant lies within the year the function computes: both
    boundaries are valid dates and the instant is at or after the first
    and before the second. *)
Definition withinYear (tz : TimeZone) (now : Z) : bool :=
  match startOfYear tz now, endOfYear tz now with
  | Some s, Some e => (s <=? now) && (now <? e)
  | _, _ => false
  end.

(** The computed year has its nominal length: the boundaries are valid
    dates [totalDaysInYear] days apart, as they are on a host whose offset
    is the same at both New Years. *)
Definition nominalYear (tz : TimeZone) (now : Z) : bool :=
  match startOfYear tz now, endOfYear tz now with
  | Some s, Some e => e - s =? totalMsInYear tz now
  | _, _ => false
  end.

(** ** The clipboard text *)

Definition CLIPBOARD_BLOCKS_TOTAL : Z := 15.
Definition CLIPBOARD_BLOCK_FILLED : JS.str := [9619%N].   (* U+2593 *)
Definition CLIPBOARD_BLOCK_EMPTY : JS.str := [9617%N].    (* U+2591 *)

(** The text [copyToClipboard] builds from a percentage; [None] when one of
    the two [repeat] calls raises its RangeError. *)
Definition clipboardTextOf (percentageValue : JS.number) : option JS.str :=
  let numFilled :=
    JS.Math_round
      (JS.div percentageValue
         (JS.div (JS.ofZ 100) (JS.ofZ CLIPBOARD_BLOCKS_TOTAL))) in
  let numEmpty := JS.sub (JS.ofZ CLIPBOARD_BLOCKS_TOTAL) numFilled in
  match JS.String_repeat CLIPBOARD_BLOCK_FILLED numFilled,
        JS.String_repeat CLIPBOARD_BLOCK_EMPTY numEmpty with
  | Some filled, Some empty =>
      Some (filled ++ empty ++ 32%N :: JS.toFixed 0 percentageValue ++ [37%N])
  | _, _ => None
  end.

(** What a call of [copyToClipboard] did. *)
Inductive CopyResult : Type :=
  | CopyGuardReturn                 (* the guard returned, nothing copied *)
  | CopyWrote (text : JS.str)       (* [navigator.clipboard.writeText(text)] *)
  | CopyThrew.                      (* a RangeError left the function *)

Inductive Lang : Type := zhCN | en.

(** How an export attempt ends: the two [throw]s before the capture, or the
    promise of [html2canvas] being fulfilled or rejected. *)
Inductive ExportStart : Type :=
  | LibraryNotLoaded
  | ExportAreaNotFound
  | CaptureStarted.

(** ** [script.js]: state, timers and handlers *)

Module Script.

Definition UPDATE_INTERVAL : Z := 500.
Definition DEBOUNCE_DELAY : Z := 200.

(** The page: the host's part first (clock, visibility, the timer tables of
    [setInterval]/[setTimeout], which share one pool of handles, the
    clipboard and what was painted), then the script's [let] variables.
    Every interval of this script runs [debouncedUpdateUI] and every
    timeout kept here runs the closure [() => updateUI()]; [null] is
    [None], a handle is a positive integer. *)
Record World : Type := mkWorld {
  LocalTZA : TimeZone;
  clock : Z;
  hidden : bool;
  nextTimer : Z;
  intervals : list Z;
  timeouts : list (Z * Z);
  clipboard : list JS.str;
  rendered : list ProgressRecord;
  clickListeners : bool;
  visibilityListener : bool;
  exportDisabled : bool;
  exportAwaiting : bool;
  currentLang : Lang;
  updateTimer : option Z;
  currentProgressData : option ProgressRecord;
  debounceTimeout : option Z
}.

Definition set_clock (t : Z) (w : World) : World :=
  mkWorld (LocalTZA w) t (hidden w) (nextTimer w) (intervals w) (timeouts w)
    (clipboard w) (rendered w) (clickListeners w) (visibilityListener w)
    (exportDisabled w) (exportAwaiting w) (currentLang w) (updateTimer w)
    (currentProgressData w) (debounceTimeout w).

Definition set_hidden (b : bool) (w : World) : World :=
  mkWorld (LocalTZA w) (clock w) b (nextTimer w) (intervals w) (timeouts w)
    (clipboard w) (rendered w) (clickListeners w) (visibilityListener w)
    (exportDisabled w) (exportAwaiting w) (currentLang w) (updateTimer w)
    (currentProgressData w) (debounceTimeout w).

Definition set_timers (n : Z) (i : list Z) (t : list (Z * Z))
  (w : World) : World :=
  mkWorld (LocalTZA w) (clock w) (hidden w) n i t (clipboard w) (rendered w)
    (clickListeners w) (visibilityListener w) (exportDisabled w)
    (exportAwaiting w) (currentLang w) (updateTimer w) (currentProgressData w)
    (debounceTimeout w).

Definition set_clipboard (c : list JS.str) (w : World) : World :=
  mkWorld (LocalTZA w) (clock w) (hidden w) (nextTimer w) (intervals w)
    (timeouts w) c (rendered w) (clickListeners w) (visibilityListener w)
    (exportDisabled w) (exportAwaiting w) (currentLang w) (updateTimer w)
    (currentProgressData w) (debounceTimeout w).

Definition set_listeners (click visibility : bool) (w : World) : World :=
  mkWorld (LocalTZA w) (clock w) (hidden w) (nextTimer w) (intervals w)
    (timeouts w) (clipboard w) (rendered w) click visibility
    (exportDisabled w) (exportAwaiting w) (currentLang w) (updateTimer w)
    (currentProgressData w) (debounceTimeout w).

Definition set_export (disabled awaiting : bool) (w : World) : World :=
  mkWorld (LocalTZA w) (clock w) (hidden w) (nextTimer w) (intervals w)
    (timeouts w) (clipboard w) (rendered w) (clickListeners w)
    (visibilityListener w) disabled awaiting (currentLang w) (updateTimer w)
    (currentProgressData w) (debounceTimeout w).

Definition set_currentLang (l : Lang) (w : World) : World :=
  mkWorld (LocalTZA w) (clock w) (hidden w) (nextTimer w) (intervals w)
    (timeouts w) (clipboard w) (rendered w) (clickListeners w)
    (visibilityListener w) (exportDisabled w) (exportAwaiting w) l
    (updateTimer w) (currentProgressData w) (debounceTimeout w).

Definition set_updateTimer (h : option Z) (w : World) : World :=
  mkWorld (LocalTZA w) (clock w) (hidden w) (nextTimer w) (intervals w)
    (timeouts w) (clipboard w) (rendered w) (clickListeners w)
    (visibilityListener w) (exportDisabled w) (exportAwaiting w)
    (currentLang w) h (currentProgressData w) (debounceTimeout w).

Definition set_debounceTimeout (h : option Z) (w : World) : World :=
  mkWorld (LocalTZA w) (clock w) (hidden w) (nextTimer w) (intervals w)
    (timeouts w) (clipboard w) (rendered w) (clickListeners w)
    (visibilityListener w) (exportDisabled w) (exportAwaiting w)
    (currentLang w) (updateTimer w) (currentProgressData w) h.

(** [currentProgressData = r] together with the painting of [r]. *)
Definition store_and_render (r : ProgressRecord) (w : World) : World :=
  mkWorld (LocalTZA w) (clock w) (hidden w) (nextTimer w) (intervals w)
    (timeouts w) (clipboard w) (rendered w ++ [r]) (clickListeners w)
    (visibilityListener w) (exportDisabled w) (exportAwaiting w)
    (currentLang w) (updateTimer w) (Some r) (debounceTimeout w).

(** *** The host's timers *)

Definition setInterval (w : World) : Z * World :=
  let h := nextTimer w in
  (h, set_timers (h + 1) (intervals w ++ [h]) (timeouts w) w).

Definition setTimeout (delay : Z) (w : World) : Z * World :=
  let h := nextTimer w in
  (h, set_timers (h + 1) (intervals w)
        (timeouts w ++ [(h, clock w + delay)]) w).

(** [clearInterval(h)] and [clearTimeout(h)] are one operation on the shared
    pool; a handle that is not armed is ignored. *)
Definition clearTimer (h : Z) (w : World) : World :=
  set_timers (nextTimer w)
    (filter (fun i => negb (i =? h)) (intervals w))
    (filter (fun p => negb (fst p =? h)) (timeouts w)) w.

Definition clearInterval := clearTimer.
Definition clearTimeout := clearTimer.

(** *** The script's functions *)

(** The page's elements exist, so nothing in the [try] block throws and the
    validation of the fresh record passes. *)
Definition updateUI (w : World) : World :=
  store_and_render (getYearProgressPrecise (LocalTZA w) (clock w)) w.

Definition debouncedUpdateUI (w : World) : World :=
  let w :=
    match debounceTimeout w with
    | Some h => clearTimeout h w
    | None => w
    end in
  let (h, w) := setTimeout DEBOUNCE_DELAY w in
  set_debounceTimeout (Some h) w.

Definition setLanguage (lang : Lang) (w : World) : World :=
  updateUI (set_currentLang lang w).

Definition copyToClipboard (w : World) : CopyResult * World :=
  match currentProgressData w with
  | None => (CopyGuardReturn, w)
  | Some progress =>
      match clipboardTextOf (percentage progress) with
      | Some clipboardText =>
          (CopyWrote clipboardText,
           set_clipboard (clipboard w ++ [clipboardText]) w)
      | None => (CopyThrew, w)
      end
  end.

Definition handleVisibilityChange (w : World) : World :=
  if hidden w then
    let w :=
      match updateTimer w with
      | Some h => set_updateTimer None (clearInterval h w)
      | None => w
      end in
    match debounceTimeout w with
    | Some h => set_debounceTimeout None (clearTimeout h w)
    | None => w
    end
  else
    match updateTimer w with
    | None =>
        let w := updateUI w in
        let (h, w) := setInterval w in
        set_updateTimer (Some h) w
    | Some _ => w
    end.

Definition cleanup (w : World) : World :=
  let w :=
    match updateTimer w with
    | Some h => set_updateTimer None (clearInterval h w)
    | None => w
    end in
  let w :=
    match debounceTimeout w with
    | Some h => set_debounceTimeout None (clearTimeout h w)
    | None => w
    end in
  set_listeners false false w.

(** The export click handler up to its [await]: the interval is cleared,
    [updateTimer] keeps its value, the button is disabled. *)
Definition exportBegin (w : World) : World :=
  let w :=
    match updateTimer w with
    | Some h => clearInterval h w
    | None => w
    end in
  set_export true false w.

(** The [finally] block of the export click handler. *)
Definition exportFinally (w : World) : World :=
  let w := set_export false false w in
  if negb (hidden w) &&
     match updateTimer w with None => true | Some _ => false end
  then
    let (h, w) := setInterval w in
    set_updateTimer (Some h) w
  else w.

Definition exportClick (s : ExportStart) (w : World) : World :=
  let w := exportBegin w in
  match s with
  | CaptureStarted => set_export true true w
  | LibraryNotLoaded | ExportAreaNotFound => exportFinally w
  end.

(** The listener of [DOMContentLoaded]; [initialLang] is what the saved and
    the browser's language select. *)
Definition domContentLoaded (initialLang : Lang) (w : World) : World :=
  let w := setLanguage initialLang w in
  let w :=
    if negb (hidden w) then
      let w := updateUI w in
      let (h, w) := setInterval w in
      set_updateTimer (Some h) w
    else w in
  set_listeners true (visibilityListener w) w.

(** *** The event loop *)

Inductive Event : Type :=
  | DOMContentLoaded (initialLang : Lang)
  | VisibilityChange (nowHidden : bool)
  | IntervalTick (h : Z)
  | LanguageClick
  | CopyClick
  | ExportClick (s : ExportStart)
  | ExportSettles (fulfilled : bool)
  | BeforeUnload.

(** The host reaches time [t]: every pending timeout that is due runs, each
    at its own due time, in the order they were armed. *)
Definition advance (t : Z) (w : World) : World :=
  let due := filter (fun p => snd p <=? t) (timeouts w) in
  let rest := filter (fun p => negb (snd p <=? t)) (timeouts w) in
  let w := set_timers (nextTimer w) (intervals w) rest w in
  let w := fold_left (fun w p => updateUI (set_clock (snd p) w)) due w in
  set_clock t w.

Definition dispatch (e : Event) (w : World) : World :=
  match e with
  | DOMContentLoaded l => domContentLoaded l w
  | VisibilityChange b =>
      let w := set_hidden b w in
      if visibilityListener w then handleVisibilityChange w else w
  | IntervalTick h =>
      if existsb (Z.eqb h) (intervals w) then debouncedUpdateUI w else w
  | LanguageClick =>
      if clickListeners w then
        setLanguage (match currentLang w with zhCN => en | en => zhCN end) w
      else w
  | CopyClick =>
      if clickListeners w then snd (copyToClipboard w) else w
  | ExportClick s =>
      if clickListeners w && negb (exportDisabled w) then exportClick s w
      else w
  | ExportSettles _ =>
      if exportAwaiting w then exportFinally w else w
  | BeforeUnload => if clickListeners w then cleanup w else w
  end.

(** An event arriving at time [t]. *)
Definition step (w : World) (te : Z * Event) : World :=
  dispatch (snd te) (advance (fst te) w).

Definition run (w : World) (tes : list (Z * Event)) : World :=
  fold_left step tes w.

(** The page when the script has been evaluated: the [visibilitychange]
    listener is registered, nothing else has run;
    [currentProgressData] is the empty object. *)
Definition loaded (tza : TimeZone) (t : Z) (isHidden : bool) : World :=
  mkWorld tza t isHidden 1 [] [] [] [] false true false false zhCN None None
    None.

(** A call of [debouncedUpdateUI] arriving at time [t], and a burst of
    such calls at the times [ts]. *)
Definition trigger (w : World) (t : Z) : World :=
  debouncedUpdateUI (advance t w).

Definition burst (w : World) (ts : list Z) : World := fold_left trigger ts w.

(** The calls after one at time [t] arrive in order, each before the
    deferred update armed by the call before it is due. *)
Fixpoint retriggeredInTime (t : Z) (ts : list Z) : bool :=
  match ts with
  | [] => true
  | t' :: ts' =>
      (t <=? t') && (t' <? t + DEBOUNCE_DELAY) && retriggeredInTime t' ts'
  end.

(** The calls at [t :: ts] arrive in order within one debounce window. *)
Fixpoint nondecreasing (t : Z) (ts : list Z) : bool :=
  match ts with
  | [] => true
  | t' :: ts' => (t <=? t') && nondecreasing t' ts'
  end.

Definition withinOneWindow (t : Z) (ts : list Z) : bool :=
  nondecreasing t ts && (last ts t - t <? DEBOUNCE_DELAY).

(** The deferred update armed by a call at time [t] is the only pending
    one, under the handle [h]. *)
Definition armedAt (w : World) (t h : Z) : Prop :=
  timeouts w = [(h, t + DEBOUNCE_DELAY)] /\ debounceTimeout w = Some h.

(** At most one deferred update is pending, and [debounceTimeout] is its
    handle. *)
Definition onePending (w : World) : Prop :=
  match timeouts w with
  | [] => True
  | [p] => debounceTimeout w = Some (fst p)
  | _ => False
  end.

(** Wherever the click listeners are attached a record is stored. *)
Definition recordBeforeListeners (w : World) : Prop :=
  clickListeners w = true -> currentProgressData w <> None.

(** The stored record is the one the page shows: the last one painted. *)
Definition displayed (w : World) : option ProgressRecord :=
  last (map Some (rendered w)) None.

Definition storedIsDisplayed (w : World) : Prop :=
  currentProgressData w = displayed w.

(** No interval is armed although [updateTimer] holds a handle. *)
Definition stalled (w : World) : bool :=
  match intervals w, updateTimer w with
  | [], Some _ => true
  | _, _ => false
  end.

(** The events that reset or set [updateTimer] whatever it holds. *)
Definition resetsUpdateTimer (e : Event) : bool :=
  match e with
  | DOMContentLoaded _ | VisibilityChange true | BeforeUnload => true
  | _ => false
  end.

End Script.

(** ** The first version of the script: one interval running [updateUI] *)

Module Legacy.

Import Script.

Definition UPDATE_INTERVAL : Z := 100.

(** The worlds of [Script] are reused: the timeout table and
    [debounceTimeout] stay empty, every interval runs [updateUI], and the
    click listeners are attached when the script is evaluated. *)
Definition handleVisibilityChange (w : World) : World :=
  if hidden w then
    match updateTimer w with
    | Some h => set_updateTimer None (clearInterval h w)
    | None => w
    end
  else
    match updateTimer w with
    | None =>
        let w := updateUI w in
        let (h, w) := setInterval w in
        set_updateTimer (Some h) w
    | Some _ => w
    end.

(** The export click handler up to the call of [html2canvas]. *)
Definition exportBegin (w : World) : World :=
  match updateTimer w with
  | Some h => clearInterval h w
  | None => w
  end.

(** The [finally] callback of the promise of [html2canvas]. *)
Definition exportFinally (w : World) : World :=
  if negb (hidden w) &&
     match updateTimer w with None => true | Some _ => false end
  then
    let (h, w) := setInterval w in
    set_updateTimer (Some h) w
  else w.

Definition domContentLoaded (initialLang : Lang) (w : World) : World :=
  let w := setLanguage initialLang w in
  if negb (hidden w) then
    let w := updateUI w in
    let (h, w) := setInterval w in
    set_updateTimer (Some h) w
  else w.

End Legacy.

(** ** The frame-driven variant: an animation loop and a one-second interval *)

Module FrameLoop.

Definition STATIC_UPDATE_INTERVAL : Z := 1000.

(** The host's part first: the clock, visibility, the pending
    [requestAnimationFrame] callbacks (each runs [animationLoop] once), the
    armed intervals (each runs [updateStaticElements]), the clipboard, what
    the two kinds of update painted; then the script's [let] variables.
    This variant keeps no progress record. *)
Record World : Type := mkWorld {
  LocalTZA : TimeZone;
  clock : Z;
  hidden : bool;
  nextFrame : Z;
  frames : list Z;
  nextTimer : Z;
  intervals : list Z;
  clipboard : list JS.str;
  liveRendered : list ProgressRecord;
  staticRendered : list ProgressRecord;
  listeners : bool;
  exportDisabled : bool;
  exportAwaiting : bool;
  currentLang : Lang;
  animationFrameId : option Z;
  staticTimerId : option Z
}.

Definition set_clock (t : Z) (w : World) : World :=
  mkWorld (LocalTZA w) t (hidden w) (nextFrame w) (frames w) (nextTimer w)
    (intervals w) (clipboard w) (liveRendered w) (staticRendered w)
    (listeners w) (exportDisabled w) (exportAwaiting w) (currentLang w)
    (animationFrameId w) (staticTimerId w).

Definition set_hidden (b : bool) (w : World) : World :=
  mkWorld (LocalTZA w) (clock w) b (nextFrame w) (frames w) (nextTimer w)
    (intervals w) (clipboard w) (liveRendered w) (staticRendered w)
    (listeners w) (exportDisabled w) (exportAwaiting w) (currentLang w)
    (animationFrameId w) (staticTimerId w).

Definition set_frames (n : Z) (f : list Z) (w : World) : World :=
  mkWorld (LocalTZA w) (clock w) (hidden w) n f (nextTimer w) (intervals w)
    (clipboard w) (liveRendered w) (staticRendered w) (listeners w)
    (exportDisabled w) (exportAwaiting w) (currentLang w) (animationFrameId w)
    (staticTimerId w).

Definition set_intervals (n : Z) (i : list Z) (w : World) : World :=
  mkWorld (LocalTZA w) (clock w) (hidden w) (nextFrame w) (frames w) n i
    (clipboard w) (liveRendered w) (staticRendered w) (listeners w)
    (exportDisabled w) (exportAwaiting w) (currentLang w) (animationFrameId w)
    (staticTimerId w).

Definition set_clipboard (c : list JS.str) (w : World) : World :=
  mkWorld (LocalTZA w) (clock w) (hidden w) (nextFrame w) (frames w)
    (nextTimer w) (intervals w) c (liveRendered w) (staticRendered w)
    (listeners w) (exportDisabled w) (exportAwaiting w) (currentLang w)
    (animationFrameId w) (staticTimerId w).

Definition set_rendered (l s : list ProgressRecord) (w : World) : World :=
  mkWorld (LocalTZA w) (clock w) (hidden w) (nextFrame w) (frames w)
    (nextTimer w) (intervals w) (clipboard w) l s (listeners w)
    (exportDisabled w) (exportAwaiting w) (currentLang w) (animationFrameId w)
    (staticTimerId w).

Definition set_listeners (b : bool) (w : World) : World :=
  mkWorld (LocalTZA w) (clock w) (hidden w) (nextFrame w) (frames w)
    (nextTimer w) (intervals w) (clipboard w) (liveRendered w)
    (staticRendered w) b (exportDisabled w) (exportAwaiting w) (currentLang w)
    (animationFrameId w) (staticTimerId w).

Definition set_export (disabled awaiting : bool) (w : World) : World :=
  mkWorld (LocalTZA w) (clock w) (hidden w) (nextFrame w) (frames w)
    (nextTimer w) (intervals w) (clipboard w) (liveRendered w)
    (staticRendered w) (listeners w) disabled awaiting (currentLang w)
    (animationFrameId w) (staticTimerId w).

Definition set_currentLang (l : Lang) (w : World) : World :=
  mkWorld (LocalTZA w) (clock w) (hidden w) (nextFrame w) (frames w)
    (nextTimer w) (intervals w) (clipboard w) (liveRendered w)
    (staticRendered w) (listeners w) (exportDisabled w) (exportAwaiting w) l
    (animationFrameId w) (staticTimerId w).

Definition set_animationFrameId (h : option Z) (w : World) : World :=
  mkWorld (LocalTZA w) (clock w) (hidden w) (nextFrame w) (frames w)
    (nextTimer w) (intervals w) (clipboard w) (liveRendered w)
    (staticRendered w) (listeners w) (exportDisabled w) (exportAwaiting w)
    (currentLang w) h (staticTimerId w).

Definition set_staticTimerId (h : option Z) (w : World) : World :=
  mkWorld (LocalTZA w) (clock w) (hidden w) (nextFrame w) (frames w)
    (nextTimer w) (intervals w) (clipboard w) (liveRendered w)
    (staticRendered w) (listeners w) (exportDisabled w) (exportAwaiting w)
    (currentLang w) (animationFrameId w) h.

(** *** The host's frame requests and timers *)

Definition requestAnimationFrame (w : World) : Z * World :=
  let h := nextFrame w in (h, set_frames (h + 1) (frames w ++ [h]) w).

(** [cancelAnimationFrame(id)]; [null] or a handle that is not pending is
    ignored. *)
Definition cancelAnimationFrame (id : option Z) (w : World) : World :=
  match id with
  | Some h =>
      set_frames (nextFrame w) (filter (fun i => negb (i =? h)) (frames w)) w
  | None => w
  end.

Definition setInterval (w : World) : Z * World :=
  let h := nextTimer w in (h, set_intervals (h + 1) (intervals w ++ [h]) w).

Definition clearInterval (id : option Z) (w : World) : World :=
  match id with
  | Some h =>
      set_intervals (nextTimer w)
        (filter (fun i => negb (i =? h)) (intervals w)) w
  | None => w
  end.

(** *** The script's functions *)

Definition updateLiveElements (progress : ProgressRecord) (w : World) : World :=
  set_rendered (liveRendered w ++ [progress]) (staticRendered w) w.

Definition updateStaticElements (w : World) : World :=
  let progress := getYearProgressPrecise (LocalTZA w) (clock w) in
  set_rendered (liveRendered w) (staticRendered w ++ [progress]) w.

Definition animationLoop (w : World) : World :=
  let progress := getYearProgressPrecise (LocalTZA w) (clock w) in
  let w := updateLiveElements progress w in
  let (h, w) := requestAnimationFrame w in
  set_animationFrameId (Some h) w.

Definition setLanguage (lang : Lang) (w : World) : World :=
  updateStaticElements (set_currentLang lang w).

Definition copyToClipboard (w : World) : CopyResult * World :=
  let progress := getYearProgressPrecise (LocalTZA w) (clock w) in
  match clipboardTextOf (percentage progress) with
  | Some clipboardText =>
      (CopyWrote clipboardText,
       set_clipboard (clipboard w ++ [clipboardText]) w)
  | None => (CopyThrew, w)
  end.

Definition handleVisibilityChange (w : World) : World :=
  if hidden w then
    let w := cancelAnimationFrame (animationFrameId w) w in
    clearInterval (staticTimerId w) w
  else
    let (f, w) := requestAnimationFrame w in
    let w := set_animationFrameId (Some f) w in
    let w := updateStaticElements w in
    let (h, w) := setInterval w in
    set_staticTimerId (Some h) w.

Definition exportBegin (w : World) : World :=
  let w := cancelAnimationFrame (animationFrameId w) w in
  let w := clearInterval (staticTimerId w) w in
  set_export true false w.

Definition exportFinally (w : World) : World :=
  let w := set_export false false w in
  if negb (hidden w) then
    let (f, w) := requestAnimationFrame w in
    let w := set_animationFrameId (Some f) w in
    let (h, w) := setInterval w in
    set_staticTimerId (Some h) w
  else w.

Definition exportClick (s : ExportStart) (w : World) : World :=
  let w := exportBegin w in
  match s with
  | CaptureStarted => set_export true true w
  | LibraryNotLoaded | ExportAreaNotFound => exportFinally w
  end.

Definition domContentLoaded (initialLang : Lang) (w : World) : World :=
  let w := setLanguage initialLang w in
  let w := set_listeners true w in
  if negb (hidden w) then
    let (f, w) := requestAnimationFrame w in
    let w := set_animationFrameId (Some f) w in
    let w := updateStaticElements w in
    let (h, w) := setInterval w in
    set_staticTimerId (Some h) w
  else w.

(** *** The event loop *)

Inductive Event : Type :=
  | DOMContentLoaded (initialLang : Lang)
  | VisibilityChange (nowHidden : bool)
  | AnimationFrame (h : Z)
  | IntervalTick (h : Z)
  | LanguageClick
  | CopyClick
  | ExportClick (s : ExportStart)
  | ExportSettles (fulfilled : bool).

Definition dispatch (e : Event) (w : World) : World :=
  match e with
  | DOMContentLoaded l => domContentLoaded l w
  | VisibilityChange b =>
      let w := set_hidden b w in
      if listeners w then handleVisibilityChange w else w
  | AnimationFrame h =>
      if existsb (Z.eqb h) (frames w) then
        animationLoop
          (set_frames (nextFrame w)
             (filter (fun i => negb (i =? h)) (frames w)) w)
      else w
  | IntervalTick h =>
      if existsb (Z.eqb h) (intervals w) then updateStaticElements w else w
  | LanguageClick =>
      if listeners w then
        setLanguage (match currentLang w with zhCN => en | en => zhCN end) w
      else w
  | CopyClick => if listeners w then snd (copyToClipboard w) else w
  | ExportClick s =>
      if listeners w && negb (exportDisabled w) then exportClick s w else w
  | ExportSettles _ => if exportAwaiting w then exportFinally w else w
  end.

Definition step (w : World) (te : Z * Event) : World :=
  dispatch (snd te) (set_clock (fst te) w).

Definition run (w : World) (tes : list (Z * Event)) : World :=
  fold_left step tes w.

Definition loaded (tza : TimeZone) (t : Z) (isHidden : bool) : World :=
  mkWorld tza t isHidden 1 [] 1 [] [] [] [] false false false zhCN None None.

(** The record the page shows: the last one the animation loop painted. *)
Definition displayed (w : World) : option ProgressRecord :=
  last (map Some (liveRendered w)) None.

End FrameLoop.

From Stdlib Require String.

(** ** Reading texts back *)

(** The digits of a string of decimal digits, [None] for any other
    string. *)
Fixpoint uintOfUnits (s : JS.str) : option Decimal.uint :=
  match s with
  | [] => Some Decimal.Nil
  | c :: s' =>
      match uintOfUnits s' with
      | None => None
      | Some d =>
          if (c =? 48)%N then Some (Decimal.D0 d)
          else if (c =? 49)%N then Some (Decimal.D1 d)
          else if (c =? 50)%N then Some (Decimal.D2 d)
          else if (c =? 51)%N then Some (Decimal.D3 d)
          else if (c =? 52)%N then Some (Decimal.D4 d)
          else if (c =? 53)%N then Some (Decimal.D5 d)
          else if (c =? 54)%N then Some (Decimal.D6 d)
          else if (c =? 55)%N then Some (Decimal.D7 d)
          else if (c =? 56)%N then Some (Decimal.D8 d)
          else if (c =? 57)%N then Some (Decimal.D9 d)
          else None
      end
  end.

(** The number a string of decimal digits denotes. *)
Definition parseDigits (s : JS.str) : option Z :=
  match uintOfUnits s with
  | Some d => Some (Z.of_N (N.of_uint d))
  | None => None
  end.

(** The number of filled block glyphs a text starts with. *)
Fixpoint filledBlocks (text : JS.str) : nat :=
  match text with
  | c :: text' => if (c =? 9619)%N then S (filledBlocks text') else O
  | [] => O
  end.

(** [100 / CLIPBOARD_BLOCKS_TOTAL] and
    [Math.round(percentageValue / (100 / CLIPBOARD_BLOCKS_TOTAL))] *)
Definition blockWidth : JS.number :=
  JS.div (JS.ofZ 100) (JS.ofZ CLIPBOARD_BLOCKS_TOTAL).

Definition numFilledOf (percentageValue : JS.number) : JS.number :=
  JS.Math_round (JS.div percentageValue blockWidth).

(** A string of decimal digits is the numeral of [n]: it reads as [n] and
    has no leading zero, "0" apart. *)
Definition numeralOf (n : Z) (digits : JS.str) : Prop :=
  parseDigits digits = Some n /\
  (digits = [48%N] \/ exists c rest, digits = c :: rest /\ c <> 48%N).

(** ** Orderly runs of [script.js] *)

(** At most one interval is armed, and [updateTimer] is its handle. *)
Definition singleInterval (w : Script.World) : Prop :=
  match Script.intervals w with
  | [] => True
  | [h] => Script.updateTimer w = Some h
  | _ => False
  end.

Definition isDOMContentLoaded (e : Script.Event) : bool :=
  match e with
  | Script.DOMContentLoaded _ => true
  | _ => false
  end.

(** No [DOMContentLoaded] among the events. *)
Definition afterStartup (tes : list (Z * Script.Event)) : bool :=
  forallb (fun te => negb (isDOMContentLoaded (snd te))) tes.

(** The calls after one at time [t] arrive in order, each at least one
    debounce delay after the call before it. *)
Fixpoint spacedApart (t : Z) (ts : list Z) : bool :=
  match ts with
  | [] => true
  | t' :: ts' => (t + Script.DEBOUNCE_DELAY <=? t') && spacedApart t' ts'
  end.

(** The times of [n] ticks of the interval armed at time [t]. *)
Fixpoint intervalTicks (t : Z) (n : nat) : list Z :=
  match n with
  | O => []
  | S n' => (t + Script.UPDATE_INTERVAL) :: intervalTicks (t + Script.UPDATE_INTERVAL) n'
  end.

(** The events that run no handler once [cleanup] has removed the
    listeners. *)
Definition needsListener (e : Script.Event) : bool :=
  match e with
  | Script.VisibilityChange _ | Script.LanguageClick | Script.CopyClick
  | Script.ExportClick _ | Script.BeforeUnload => true
  | _ => false
  end.

(** ** Orderly runs of the frame-driven variant *)

(** Exactly one frame request and one interval are armed, and the two
    handles name them. *)
Definition loopsArmed (w : FrameLoop.World) : Prop :=
  match FrameLoop.frames w, FrameLoop.intervals w with
  | [f], [i] =>
      FrameLoop.animationFrameId w = Some f /\
      FrameLoop.staticTimerId w = Some i
  | _, _ => False
  end.

Definition loopsIdle (w : FrameLoop.World) : Prop :=
  FrameLoop.frames w = [] /\ FrameLoop.intervals w = [].

(** The loops are armed exactly while the page is visible and no export
    awaits its capture. *)
Definition armedIffVisible (w : FrameLoop.World) : Prop :=
  FrameLoop.listeners w = true /\
  FrameLoop.exportDisabled w = FrameLoop.exportAwaiting w /\
  if FrameLoop.hidden w || FrameLoop.exportAwaiting w
  then loopsIdle w else loopsArmed w.

(** An event the host delivers in order: a visibility notification
    reports a change of visibility and none arrives while an export awaits
    its capture; [DOMContentLoaded] does not occur again. *)
Definition orderly (w : FrameLoop.World) (e : FrameLoop.Event) : bool :=
  match e with
  | FrameLoop.DOMContentLoaded _ => false
  | FrameLoop.VisibilityChange b =>
      negb (Bool.eqb b (FrameLoop.hidden w)) &&
      negb (FrameLoop.exportAwaiting w)
  | _ => true
  end.

Fixpoint orderlyRun (w : FrameLoop.World) (tes : list (Z * FrameLoop.Event))
  : bool :=
  match tes with
  | [] => true
  | te :: tes' =>
      orderly w (snd te) && orderlyRun (FrameLoop.step w te) tes'
  end.

(** The host runs the pending frame request at each of the times [ts]. *)
Definition runFrame (w : FrameLoop.World) (t : Z) : FrameLoop.World :=
  match FrameLoop.frames w with
  | h :: _ => FrameLoop.step w (t, FrameLoop.AnimationFrame h)
  | [] => FrameLoop.set_clock t w
  end.

Definition runFrames (w : FrameLoop.World) (ts : list Z) : FrameLoop.World :=
  fold_left runFrame ts w.

(** ** Theme and colour: the page's look and what is saved of it *)

(** ** The expressions of the calculator, for reasoning about them *)

(** [Math.min(100, (msPassed / totalMsInYear) * 100)] *)
Definition percentageOf (msPassed : JS.number) (totalMsInYear : Z) : JS.number :=
  JS.Math_min (JS.ofZ 100)
    (JS.mul (JS.div msPassed (JS.ofZ totalMsInYear)) (JS.ofZ 100)).

(** The value of [(msPassed / totalMsInYear) * 100] for a finite
    [msPassed]: the quotient rounded, then the product rounded. *)
Definition rawPercentage (msPassed : Q) (totalMsInYear : Z) : Q :=
  Binary64.roundToPrecision
    (Binary64.roundToPrecision (msPassed / inject_Z totalMsInYear) * 100).

(** [Math.floor(ms / msPerDay)] *)
Definition daysOf (ms : JS.number) : JS.number :=
  JS.Math_floor (JS.div ms (JS.ofZ msPerDay)).

(** A host whose offsets are at most a day in magnitude, as those of every
    time zone in use are. *)
Definition boundedOffsets (tz : TimeZone) : Prop :=
  forall (t : Z) (isUTC : bool), Z.abs (tz t isUTC) <= msPerDay.

Module Look.

Import String.

(** A [DOMTokenList]: the class names of an element, in order. *)
Module ClassList.

Definition t : Type := list String.string.

Definition contains (c : String.string) (l : t) : bool :=
  existsb (String.eqb c) l.

Definition add (c : String.string) (l : t) : t :=
  if contains c l then l else l ++ [c].

Definition remove (c : String.string) (l : t) : t :=
  filter (fun x => negb (String.eqb c x)) l.

End ClassList.

(** [classList.toggle('hidden', force)] on an element of which only the
    class [hidden] matters: [force] given puts or removes the class, an
    [undefined] force ([None]) flips it. *)
Definition toggleHidden (force : option bool) (isHidden : bool) : bool :=
  match force with
  | Some b => b
  | None => negb isHidden
  end.

(** A string in a condition: the empty string is false. *)
Definition truthy (s : String.string) : bool :=
  negb (String.eqb s String.EmptyString).

(** [saved || fallback] for a value read from [localStorage]. *)
Definition orElse (saved : option String.string) (fallback : String.string)
  : String.string :=
  match saved with
  | Some s => if truthy s then s else fallback
  | None => fallback
  end.

(** The names every object inherits from [Object.prototype]. *)
Definition objectPrototypeNames : list String.string :=
  ["constructor"%string; "hasOwnProperty"%string; "isPrototypeOf"%string;
   "propertyIsEnumerable"%string; "toLocaleString"%string;
   "toString"%string; "valueOf"%string; "__proto__"%string;
   "__defineGetter__"%string; "__defineSetter__"%string;
   "__lookupGetter__"%string; "__lookupSetter__"%string].

Module Theme.

Record ThemeConfig : Type := mkTheme {
  class : String.string;
  icon : String.string
}.

Definition themes : list (String.string * ThemeConfig) :=
  [("light"%string, mkTheme ""%string "light"%string);
   ("dark"%string, mkTheme "dark"%string "dark"%string)].

(** What [themes[theme]] evaluates to: a configuration of the table, a
    function or object inherited from [Object.prototype] (truthy, with
    neither [class] nor [icon]), or [undefined]. *)
Inductive Property : Type :=
  | Own (themeConfig : ThemeConfig)
  | Inherited
  | Undefined.

Fixpoint ownProperty (theme : String.string)
    (table : list (String.string * ThemeConfig)) : option ThemeConfig :=
  match table with
  | [] => None
  | (k, v) :: table' =>
      if String.eqb theme k then Some v else ownProperty theme table'
  end.

Definition lookup (theme : String.string)
    (table : list (String.string * ThemeConfig)) : Property :=
  match ownProperty theme table with
  | Some v => Own v
  | None =>
      if existsb (String.eqb theme) objectPrototypeNames then Inherited
      else Undefined
  end.

(** What of the page the theme functions touch: the classes of the [html]
    element, whether each icon carries the class [hidden], the item
    ["theme"] of [localStorage], and the host's [prefers-color-scheme]. *)
Record Page : Type := mkPage {
  htmlClasses : ClassList.t;
  lightIconHidden : bool;
  darkIconHidden : bool;
  savedTheme : option String.string;
  prefersDark : bool
}.

Definition removeThemeClasses (l : ClassList.t) : ClassList.t :=
  fold_left
    (fun l themeConfig =>
       if truthy (class themeConfig) then ClassList.remove (class themeConfig) l
       else l)
    (map snd themes) l.

(** [script.js] *)
Definition applyTheme (theme : String.string) (p : Page) : Page :=
  let l := removeThemeClasses (htmlClasses p) in
  let themeConfig := lookup theme themes in
  let l :=
    match themeConfig with
    | Own c => if truthy (class c) then ClassList.add (class c) l else l
    | Inherited | Undefined => l
    end in
  (* [themeConfig && themeConfig.icon === 'light'], [None] for [undefined] *)
  let showLightIcon : option bool :=
    match themeConfig with
    | Own c => Some (String.eqb (icon c) "light"%string)
    | Inherited => Some false
    | Undefined => None
    end in
  let notShowLightIcon :=
    match showLightIcon with Some b => negb b | None => true end in
  mkPage l
    (toggleHidden (Some notShowLightIcon) (lightIconHidden p))
    (toggleHidden showLightIcon (darkIconHidden p))
    (savedTheme p) (prefersDark p).

Definition toggleTheme (p : Page) : String.string * Page :=
  let isDarkMode := ClassList.contains "dark"%string (htmlClasses p) in
  let newTheme := if isDarkMode then "light"%string else "dark"%string in
  (newTheme, applyTheme newTheme p).

(** The click handler of the theme button. *)
Definition themeClick (p : Page) : Page :=
  let (newTheme, p) := toggleTheme p in
  mkPage (htmlClasses p) (lightIconHidden p) (darkIconHidden p)
    (Some newTheme) (prefersDark p).

(** Step 2 of the [DOMContentLoaded] listener. *)
Definition loadTheme (p : Page) : Page :=
  let initialTheme :=
    orElse (savedTheme p)
      (if prefersDark p then "dark"%string else "light"%string) in
  applyTheme initialTheme p.

(** The first version of the script. *)
Definition applyTheme_v1 (theme : String.string) (p : Page) : Page :=
  if String.eqb theme "dark"%string then
    mkPage (ClassList.add "dark"%string (htmlClasses p)) true false
      (savedTheme p) (prefersDark p)
  else
    mkPage (ClassList.remove "dark"%string (htmlClasses p)) false true
      (savedTheme p) (prefersDark p).

(** The frame-driven variant; [None] when reading [config.icon] of
    [undefined] throws. *)
Definition applyTheme_frame (theme : String.string) (p : Page) : option Page :=
  let l := removeThemeClasses (htmlClasses p) in
  let config := lookup theme themes in
  let l :=
    match config with
    | Own c => if truthy (class c) then ClassList.add (class c) l else l
    | Inherited | Undefined => l
    end in
  match config with
  | Undefined => None
  | Own c =>
      Some
        (mkPage l
           (toggleHidden (Some (negb (String.eqb (icon c) "light"%string)))
              (lightIconHidden p))
           (toggleHidden (Some (negb (String.eqb (icon c) "dark"%string)))
              (darkIconHidden p))
           (savedTheme p) (prefersDark p))
  | Inherited =>
      Some
        (mkPage l (toggleHidden (Some true) (lightIconHidden p))
           (toggleHidden (Some true) (darkIconHidden p))
           (savedTheme p) (prefersDark p))
  end.

(** What the user sees of the theme. *)
Definition isDark (p : Page) : bool :=
  ClassList.contains "dark"%string (htmlClasses p).

(** A page that has just been fetched: the markup's classes and icons, the
    storage and the preference of the page [p] that was left. *)
Definition reloaded (markup : Page) (p : Page) : Page :=
  mkPage (htmlClasses markup) (lightIconHidden markup) (darkIconHidden markup)
    (savedTheme p) (prefersDark p).

End Theme.

Module Colour.

Definition DEFAULT_COLOR : String.string := "#3b82f6"%string.

(** A valid simple colour in the form the value sanitization of an
    [input] of type [color] leaves: the number sign (code 35) and six lower-case hexadecimal
    digits. *)
Definition isHexDigit (a : Ascii.ascii) : bool :=
  let n := Ascii.N_of_ascii a in
  ((48 <=? n) && (n <=? 57) || (97 <=? n) && (n <=? 102))%N.

Definition isSimpleColor (s : String.string) : bool :=
  match s with
  | String.String a rest =>
      (Ascii.N_of_ascii a =? 35)%N &&
      Nat.eqb (String.length rest) 6 &&
      forallb isHexDigit (String.list_ascii_of_string rest)
  | String.EmptyString => false
  end.

(** The value last assigned to [style.backgroundColor] of the fill of the
    bar (the assignment of a valid colour always takes effect), the value
    of the colour picker, whether the picker has the focus, and the item
    ["progressBarColor"] of [localStorage]. *)
Record Page : Type := mkPage {
  barColor : String.string;
  pickerValue : String.string;
  pickerFocused : bool;
  savedColor : option String.string
}.

(** The [input] listener of the picker; the host has put the new value in
    the picker. *)
Definition inputHandler (newColor : String.string) (p : Page) : Page :=
  mkPage newColor (pickerValue p) (pickerFocused p) (Some newColor).

Definition resetClick (p : Page) : Page :=
  mkPage DEFAULT_COLOR DEFAULT_COLOR (pickerFocused p) (Some DEFAULT_COLOR).

(** The colour statements of [updateUI] in [script.js]. *)
Definition updateUI (p : Page) : Page :=
  let savedColor := orElse (savedColor p) DEFAULT_COLOR in
  mkPage savedColor
    (if pickerFocused p then pickerValue p else savedColor)
    (pickerFocused p) (Colour.savedColor p).

Inductive Event : Type :=
  | Pick (newColor : String.string)
  | Reset
  | Update
  | Focus (focused : bool).

Definition dispatch (p : Page) (e : Event) : Page :=
  match e with
  | Pick c =>
      inputHandler c (mkPage (barColor p) c (pickerFocused p) (savedColor p))
  | Reset => resetClick p
  | Update => updateUI p
  | Focus b => mkPage (barColor p) (pickerValue p) b (savedColor p)
  end.

Definition run (p : Page) (es : list Event) : Page := fold_left dispatch es p.

(** Every value the picker delivers is a simple colour. *)
Definition picksAreColours (es : list Event) : bool :=
  forallb (fun e => match e with Pick c => isSimpleColor c | _ => true end) es.

(** The stored item is absent or a simple colour, as it is when only this
    script ever wrote it. *)
Definition storedIsColour (p : Page) : bool :=
  match savedColor p with
  | Some c => isSimpleColor c
  | None => true
  end.

(** The colour the user chose last, if any. *)
Fixpoint lastChoice (es : list Event) (chosen : option String.string)
  : option String.string :=
  match es with
  | [] => chosen
  | Pick c :: es' => lastChoice es' (Some c)
  | Reset :: es' => lastChoice es' (Some DEFAULT_COLOR)
  | _ :: es' => lastChoice es' chosen
  end.

End Colour.

Module Language.

(** The languages of the table [translations]. *)
Definition translationKeys : list String.string :=
  ["zh-CN"%string; "en"%string].

(** Whether [translations[lang]] is truthy: for a language of the table,
    and for a name the table inherits from [Object.prototype]. *)
Definition hasTranslations (lang : String.string) : bool :=
  existsb (String.eqb lang) translationKeys ||
  existsb (String.eqb lang) objectPrototypeNames.

(** The script's [currentLang], the item ["language"] of [localStorage]
    and the value of [navigator.language || navigator.userLanguage]. *)
Record Page : Type := mkPage {
  currentLang : String.string;
  savedLang : option String.string;
  browserLang : String.string
}.

(** What [setLanguage] does to [currentLang] and to the storage. *)
Definition setLanguage (lang : String.string) (p : Page) : Page :=
  let lang := if hasTranslations lang then lang else "zh-CN"%string in
  mkPage lang (Some lang) (browserLang p).

(** Step 1 of the [DOMContentLoaded] listener: the two branches that look
    at the browser's language, then the whole choice. *)
Definition browserChoice (p : Page) : String.string :=
  if String.prefix "en"%string (browserLang p) && hasTranslations "en"%string
  then "en"%string
  else if String.prefix "zh"%string (browserLang p) &&
          hasTranslations "zh-CN"%string
  then "zh-CN"%string
  else "zh-CN"%string.

Definition initialLang (p : Page) : String.string :=
  match savedLang p with
  | Some s => if truthy s && hasTranslations s then s else browserChoice p
  | None => browserChoice p
  end.

Definition loadLanguage (p : Page) : Page := setLanguage (initialLang p) p.

(** The click handler of the language button. *)
Definition languageClick (p : Page) : Page :=
  let newLang :=
    if String.eqb (currentLang p) "zh-CN"%string then "en"%string
    else "zh-CN"%string in
  setLanguage newLang p.

(** A page that has just been fetched: the script's initial [currentLang],
    the storage of the page that was left, any browser language. *)
Definition reloaded (browser : String.string) (p : Page) : Page :=
  mkPage "zh-CN"%string (savedLang p) browser.

End Language.

End Look.
(** * Binary64 rounding: monotone, and exact on what binary64 holds *)

From Stdlib Require Import Lqa DecimalN.
From Stdlib Require DecimalFacts.

Section RoundingFacts.

Import Binary64.

Lemma roundToEven_cases (x : Q) :
  (roundToEven x = Qfloor x /\ (x - inject_Z (Qfloor x) <= 1 # 2)%Q) \/
  (roundToEven x = Qfloor x + 1 /\ (1 # 2 <= x - inject_Z (Qfloor x))%Q).
Proof.
  unfold roundToEven.
  destruct (Qcompare_spec (x - inject_Z (Qfloor x)) (1 # 2)) as [E | E | E].
  - destruct (Z.even (Qfloor x)); [left | right]; split; try reflexivity;
      rewrite E; apply Qle_refl.
  - left. split; [reflexivity | apply Qlt_le_weak, E].
  - right. split; [reflexivity | apply Qlt_le_weak, E].
Qed.

Lemma floor_bounds (x : Q) :
  (inject_Z (Qfloor x) <= x /\ x < inject_Z (Qfloor x) + 1)%Q.
Proof.
  split; [apply Qfloor_le |].
  pose proof (Qlt_floor x) as H. rewrite inject_Z_plus in H. exact H.
Qed.

Lemma roundToEven_bounds (x : Q) :
  (x - (1 # 2) <= inject_Z (roundToEven x) /\
   inject_Z (roundToEven x) <= x + (1 # 2))%Q.
Proof.
  pose proof (floor_bounds x) as [L U].
  destruct (roundToEven_cases x) as [[-> H] | [-> H]];
    rewrite ?inject_Z_plus; change (inject_Z 1) with 1%Q; split; lra.
Qed.

Lemma roundToEven_comp (x y : Q) : (x == y)%Q -> roundToEven x = roundToEven y.
Proof.
  intros E. unfold roundToEven. rewrite (Qfloor_comp _ _ E).
  assert (C : ((x - inject_Z (Qfloor y)) ?= (1 # 2))%Q =
              ((y - inject_Z (Qfloor y)) ?= (1 # 2))%Q)
    by (rewrite E; reflexivity).
  rewrite C. reflexivity.
Qed.

Lemma roundToEven_Z (n : Z) : roundToEven (inject_Z n) = n.
Proof.
  unfold roundToEven. rewrite Qfloor_Z.
  assert (C : ((inject_Z n - inject_Z n) ?= (1 # 2))%Q = Lt).
  { assert (Z0 : (inject_Z n - inject_Z n == 0)%Q) by ring.
    rewrite Z0. reflexivity. }
  rewrite C. reflexivity.
Qed.

Lemma roundToEven_mono (x y : Q) :
  (x <= y)%Q -> roundToEven x <= roundToEven y.
Proof.
  intros H. pose proof (Qfloor_resp_le _ _ H) as F.
  destruct (Z.eq_dec (Qfloor x) (Qfloor y)) as [E | N].
  - unfold roundToEven. rewrite E.
    destruct (Qcompare_spec (x - inject_Z (Qfloor y)) (1 # 2)) as [A | A | A];
      destruct (Qcompare_spec (y - inject_Z (Qfloor y)) (1 # 2)) as [B | B | B];
      destruct (Z.even (Qfloor y)); try lia; exfalso; lra.
  - destruct (roundToEven_cases x) as [[-> _] | [-> _]];
      destruct (roundToEven_cases y) as [[-> _] | [-> _]]; lia.
Qed.

Lemma inject_Z_nonzero (c : Z) : c <> 0 -> ~ (inject_Z c == 0)%Q.
Proof.
  intros N Z0. change 0%Q with (inject_Z 0) in Z0.
  apply (proj1 (inject_Z_injective _ _)) in Z0. exact (N Z0).
Qed.

Lemma spacing_spec (q0 : Z) :
  (q0 < 2 ^ 53 /\ spacing q0 = 1) \/
  (2 ^ 53 <= q0 /\ 2 <= spacing q0 /\
   2 ^ 52 * spacing q0 <= q0 < 2 ^ 53 * spacing q0).
Proof.
  unfold spacing. destruct (q0 <? 2 ^ 53) eqn:E;
    [apply Z.ltb_lt in E; left; split; [exact E | reflexivity] |].
  apply Z.ltb_ge in E. right. split; [exact E |].
  assert (P : 0 < q0) by (change (2 ^ 53) with 9007199254740992 in E; lia).
  pose proof (Z.log2_spec q0 P) as [L U].
  assert (G : 53 <= Z.log2 q0).
  { change 53 with (Z.log2 (2 ^ 53)). apply Z.log2_le_mono. exact E. }
  assert (D : 2 ^ Z.log2 q0 = 2 ^ 52 * 2 ^ (Z.log2 q0 - 52)).
  { rewrite <- Z.pow_add_r by lia. f_equal. lia. }
  assert (D1 : 2 ^ Z.succ (Z.log2 q0) = 2 ^ 53 * 2 ^ (Z.log2 q0 - 52)).
  { rewrite <- Z.pow_add_r by lia. f_equal. lia. }
  rewrite D in L. rewrite D1 in U.
  split; [| split; assumption].
  change 2 with (2 ^ 1) at 1. apply Z.pow_le_mono_r; lia.
Qed.

Lemma spacing_pos (q0 : Z) : 0 < spacing q0.
Proof. destruct (spacing_spec q0) as [[_ ->] | (_ & H & _)]; lia. Qed.

Lemma spacing_mono (q q' : Z) :
  q <= q' -> spacing q = spacing q' \/ 2 * spacing q <= spacing q'.
Proof.
  intros H. unfold spacing.
  destruct (q <? 2 ^ 53) eqn:E; destruct (q' <? 2 ^ 53) eqn:E';
    rewrite ?Z.ltb_lt, ?Z.ltb_ge in *.
  - left; reflexivity.
  - right. assert (G : 53 <= Z.log2 q').
    { change 53 with (Z.log2 (2 ^ 53)). apply Z.log2_le_mono. exact E'. }
    change (2 * 1) with (2 ^ 1). apply Z.pow_le_mono_r; lia.
  - lia.
  - assert (G : 53 <= Z.log2 q).
    { change 53 with (Z.log2 (2 ^ 53)). apply Z.log2_le_mono. exact E. }
    pose proof (Z.log2_le_mono _ _ H) as M.
    destruct (Z.eq_dec (Z.log2 q) (Z.log2 q')) as [-> | N];
      [left; reflexivity | right].
    replace (2 * 2 ^ (Z.log2 q - 52)) with (2 ^ (Z.log2 q - 52 + 1))
      by (rewrite Z.pow_add_r by lia; lia).
    apply Z.pow_le_mono_r; lia.
Qed.

Lemma Qdiv_le_of (a : Q) (b c : Z) :
  0 < c -> (a <= inject_Z (b * c))%Q -> (a / inject_Z c <= inject_Z b)%Q.
Proof.
  intros P H. apply Qle_shift_div_r.
  - change 0%Q with (inject_Z 0). rewrite <- Zlt_Qlt. exact P.
  - rewrite <- inject_Z_mult. exact H.
Qed.

Lemma Qdiv_ge_of (a : Q) (b c : Z) :
  0 < c -> (inject_Z (b * c) <= a)%Q -> (inject_Z b <= a / inject_Z c)%Q.
Proof.
  intros P H. apply Qle_shift_div_l.
  - change 0%Q with (inject_Z 0). rewrite <- Zlt_Qlt. exact P.
  - rewrite <- inject_Z_mult. exact H.
Qed.

Lemma floor_Z_bounds (X : Q) :
  (inject_Z (Qfloor X) <= X)%Q /\ (forall n : Z, Qfloor X < n -> (X <= inject_Z n)%Q).
Proof.
  split; [apply Qfloor_le |]. intros n H.
  apply Qle_trans with (inject_Z (Qfloor X + 1)).
  - apply Qlt_le_weak, Qlt_floor.
  - rewrite <- Zle_Qle. lia.
Qed.

Lemma roundToEven_le (x : Q) (n : Z) :
  (x <= inject_Z n)%Q -> roundToEven x <= n.
Proof.
  intros H. rewrite <- (roundToEven_Z n). apply roundToEven_mono, H.
Qed.

Lemma roundToEven_ge (x : Q) (n : Z) :
  (inject_Z n <= x)%Q -> n <= roundToEven x.
Proof.
  intros H. rewrite <- (roundToEven_Z n) at 1. apply roundToEven_mono, H.
Qed.

Lemma units_mono (X Y : Q) : (0 <= X)%Q -> (X <= Y)%Q -> units X <= units Y.
Proof.
  intros P H. unfold units.
  pose proof (Qfloor_resp_le _ _ H) as F.
  pose proof (spacing_pos (Qfloor X)) as SX.
  pose proof (spacing_pos (Qfloor Y)) as SY.
  destruct (spacing_mono _ _ F) as [E | E].
  - rewrite <- E. apply Z.mul_le_mono_nonneg_r; [lia |].
    apply roundToEven_mono. apply Qmult_le_compat_r; [exact H |].
    apply Qinv_le_0_compat. change 0%Q with (inject_Z 0).
    rewrite <- Zle_Qle. lia.
  - destruct (floor_Z_bounds X) as [_ UX].
    destruct (floor_Z_bounds Y) as [LY _].
    assert (M : roundToEven (X / inject_Z (spacing (Qfloor X))) <= 2 ^ 53).
    { apply roundToEven_le, Qdiv_le_of; [exact SX |]. apply UX.
      destruct (spacing_spec (Qfloor X)) as [[A ->] | (_ & _ & _ & A)]; lia. }
    assert (M' : 2 ^ 52 <= roundToEven (Y / inject_Z (spacing (Qfloor Y)))).
    { apply roundToEven_ge, Qdiv_ge_of; [exact SY |].
      apply Qle_trans with (inject_Z (Qfloor Y)); [| exact LY].
      rewrite <- Zle_Qle.
      destruct (spacing_spec (Qfloor Y)) as [[_ A] | (_ & _ & A & _)]; lia. }
    change (2 ^ 53) with 9007199254740992 in *.
    change (2 ^ 52) with 4503599627370496 in *. nia.
Qed.

Lemma units_nonneg (X : Q) : (0 <= X)%Q -> 0 <= units X.
Proof.
  intros P. unfold units. pose proof (spacing_pos (Qfloor X)) as S.
  apply Z.mul_nonneg_nonneg; [| lia].
  apply roundToEven_ge. apply Qle_shift_div_l.
  - change 0%Q with (inject_Z 0). rewrite <- Zlt_Qlt. exact S.
  - rewrite Qmult_0_l. exact P.
Qed.

Lemma units_comp (X Y : Q) : (X == Y)%Q -> units X = units Y.
Proof.
  intros E. unfold units. rewrite (Qfloor_comp _ _ E).
  f_equal. apply roundToEven_comp. rewrite E. reflexivity.
Qed.

(** Exactness on numbers with at most 53 significant bits *)
Lemma units_exact (M j : Z) :
  0 <= M <= 2 ^ 53 -> 0 <= j -> units (inject_Z (M * 2 ^ j)) = M * 2 ^ j.
Proof.
  intros HM Hj. unfold units. rewrite Qfloor_Z.
  set (N := M * 2 ^ j).
  assert (K : exists k : Z, N = k * spacing N).
  { destruct (spacing_spec N) as [[_ ->] | (A & _ & _)]; [exists N; lia |].
    assert (PM : 0 < M).
    { destruct (Z.eq_dec M 0) as [-> | ?]; [| lia].
      subst N. rewrite Z.mul_0_l in A.
      change (2 ^ 53) with 9007199254740992 in A. lia. }
    assert (L : Z.log2 N = j + Z.log2 M)
      by (subst N; apply Z.log2_mul_pow2; lia).
    unfold spacing. destruct (N <? 2 ^ 53) eqn:E; [apply Z.ltb_lt in E; lia |].
    rewrite L.
    assert (LM : Z.log2 M <= 53).
    { change 53 with (Z.log2 (2 ^ 53)). apply Z.log2_le_mono. lia. }
    assert (LM0 : 0 <= Z.log2 M) by apply Z.log2_nonneg.
    assert (G : 53 <= j + Z.log2 M).
    { rewrite <- L. change 53 with (Z.log2 (2 ^ 53)).
      apply Z.log2_le_mono. exact A. }
    destruct (Z.eq_dec (Z.log2 M) 53) as [E53 | N53].
    - assert (M = 2 ^ 53).
      { pose proof (Z.log2_spec M PM) as [B _]. rewrite E53 in B. lia. }
      exists (2 ^ 52). subst N. subst M. rewrite E53.
      rewrite <- !Z.pow_add_r by lia. f_equal. lia.
    - exists (M * 2 ^ (52 - Z.log2 M)). subst N.
      rewrite <- Z.mul_assoc, <- Z.pow_add_r by lia. do 2 f_equal. lia. }
  destruct K as [k K]. pose proof (spacing_pos N) as S.
  assert (R : roundToEven (inject_Z N / inject_Z (spacing N)) = k).
  { rewrite <- (roundToEven_Z k). apply roundToEven_comp.
    rewrite K at 1. rewrite inject_Z_mult. field.
    apply inject_Z_nonzero. lia. }
  rewrite R. lia.
Qed.

Lemma inject_Z_pos (c : Z) : 0 < c -> (0 < inject_Z c)%Q.
Proof. intros P. change 0%Q with (inject_Z 0). rewrite <- Zlt_Qlt. exact P. Qed.

Lemma scale_pos : 0 < scale.
Proof. reflexivity. Qed.

Lemma value_eq (x : Q) :
  (roundToPrecision x ==
   if Qle_bool 0 x then inject_Z (magnitude x) / inject_Z scale
   else - (inject_Z (magnitude x) / inject_Z scale))%Q.
Proof.
  unfold roundToPrecision. destruct (Qle_bool 0 x); rewrite Qred_correct;
    reflexivity.
Qed.

Lemma magnitude_nonneg (x : Q) : 0 <= magnitude x.
Proof.
  apply units_nonneg. apply Qmult_le_0_compat; [apply Qabs_nonneg |].
  apply Qlt_le_weak, inject_Z_pos, scale_pos.
Qed.

Lemma magnitude_mono (x y : Q) :
  (Qabs x <= Qabs y)%Q -> magnitude x <= magnitude y.
Proof.
  intros H. apply units_mono.
  - apply Qmult_le_0_compat; [apply Qabs_nonneg |].
    apply Qlt_le_weak, inject_Z_pos, scale_pos.
  - apply Qmult_le_compat_r; [exact H |].
    apply Qlt_le_weak, inject_Z_pos, scale_pos.
Qed.

Lemma over_scale_le (a b : Z) :
  a <= b -> (inject_Z a / inject_Z scale <= inject_Z b / inject_Z scale)%Q.
Proof.
  intros H. apply Qmult_le_compat_r; [rewrite <- Zle_Qle; exact H |].
  apply Qinv_le_0_compat, Qlt_le_weak, inject_Z_pos, scale_pos.
Qed.

Lemma over_scale_nonneg (a : Z) :
  0 <= a -> (0 <= inject_Z a / inject_Z scale)%Q.
Proof.
  intros H. apply Qle_shift_div_l; [apply inject_Z_pos, scale_pos |].
  rewrite Qmult_0_l. change 0%Q with (inject_Z 0). rewrite <- Zle_Qle. exact H.
Qed.

Theorem roundToPrecision_mono (x y : Q) :
  (x <= y)%Q -> (roundToPrecision x <= roundToPrecision y)%Q.
Proof.
  intros H. rewrite !value_eq.
  pose proof (over_scale_nonneg _ (magnitude_nonneg x)) as PX.
  pose proof (over_scale_nonneg _ (magnitude_nonneg y)) as PY.
  destruct (Qle_bool 0 x) eqn:EX; destruct (Qle_bool 0 y) eqn:EY.
  - apply Qle_bool_iff in EX. apply over_scale_le, magnitude_mono.
    rewrite !Qabs_pos; [exact H | lra | exact EX].
  - apply Qle_bool_iff in EX.
    assert (N : ~ (0 <= y)%Q) by (rewrite <- Qle_bool_iff, EY; discriminate).
    exfalso. apply N. lra.
  - lra.
  - assert (NX : ~ (0 <= x)%Q) by (rewrite <- Qle_bool_iff, EX; discriminate).
    assert (NY : ~ (0 <= y)%Q) by (rewrite <- Qle_bool_iff, EY; discriminate).
    apply Qopp_le_compat, over_scale_le, magnitude_mono.
    rewrite !Qabs_neg by lra. lra.
Qed.

Theorem roundToPrecision_comp (x y : Q) :
  (x == y)%Q -> roundToPrecision x = roundToPrecision y.
Proof.
  intros E. unfold roundToPrecision, magnitude.
  assert (A : (Qabs x * inject_Z scale == Qabs y * inject_Z scale)%Q)
    by (rewrite E; reflexivity).
  fold (units (Qabs x * inject_Z scale)) (units (Qabs y * inject_Z scale)).
  rewrite (units_comp _ _ A).
  assert (B : Qle_bool 0 x = Qle_bool 0 y).
  { apply eq_true_iff_eq. rewrite !Qle_bool_iff, E. reflexivity. }
  rewrite B. reflexivity.
Qed.

(** The rounding leaves a number of at most 53 significant bits as it is:
    first in units of 2^-1074, then for an integer over a power of two,
    and for an integer times a power of two. *)
Lemma roundToPrecision_units (M j : Z) :
  Z.abs M <= 2 ^ 53 -> 0 <= j ->
  (roundToPrecision (inject_Z (M * 2 ^ j) / inject_Z scale) ==
   inject_Z (M * 2 ^ j) / inject_Z scale)%Q.
Proof.
  intros HM Hj.
  assert (P2 : 0 < 2 ^ j) by (apply Z.pow_pos_nonneg; lia).
  assert (NS : ~ (inject_Z scale == 0)%Q)
    by (apply inject_Z_nonzero; pose proof scale_pos; lia).
  assert (MG : magnitude (inject_Z (M * 2 ^ j) / inject_Z scale) =
               Z.abs M * 2 ^ j).
  { unfold magnitude. rewrite <- (units_exact (Z.abs M) j) by lia.
    apply units_comp.
    unfold Qdiv. rewrite Qabs_Qmult, Qabs_Qinv.
    rewrite (Qabs_pos (inject_Z scale))
      by (apply Qlt_le_weak, inject_Z_pos, scale_pos).
    assert (AM : (Qabs (inject_Z (M * 2 ^ j)) == inject_Z (Z.abs M * 2 ^ j))%Q).
    { unfold Qabs, inject_Z. rewrite Z.abs_mul, (Z.abs_eq (2 ^ j)) by lia.
      reflexivity. }
    rewrite AM. field. exact NS. }
  rewrite value_eq, MG.
  destruct (Qle_bool 0 (inject_Z (M * 2 ^ j) / inject_Z scale)) eqn:E.
  - apply Qle_bool_iff in E.
    assert (0 <= M * 2 ^ j).
    { rewrite Zle_Qle.
      apply Qmult_le_0_compat with (b := inject_Z scale) in E;
        [| apply Qlt_le_weak, inject_Z_pos, scale_pos].
      setoid_replace (inject_Z (M * 2 ^ j) / inject_Z scale * inject_Z scale)%Q
        with (inject_Z (M * 2 ^ j)) in E by (field; exact NS). exact E. }
    assert (0 <= M) by nia.
    rewrite Z.abs_eq by lia. reflexivity.
  - assert (N : ~ (0 <= inject_Z (M * 2 ^ j) / inject_Z scale)%Q)
      by (rewrite <- Qle_bool_iff, E; discriminate).
    assert (M < 0).
    { destruct (Z_lt_le_dec M 0) as [L | L]; [exact L | exfalso; apply N].
      apply over_scale_nonneg. nia. }
    rewrite Z.abs_neq by lia. rewrite !inject_Z_mult, inject_Z_opp. field.
    exact NS.
Qed.

Theorem roundToPrecision_exact (M k : Z) :
  Z.abs M <= 2 ^ 53 -> 0 <= k <= 1074 ->
  (roundToPrecision (inject_Z M / inject_Z (2 ^ k)) ==
   inject_Z M / inject_Z (2 ^ k))%Q.
Proof.
  intros HM Hk.
  assert (P2 : 0 < 2 ^ k) by (apply Z.pow_pos_nonneg; lia).
  assert (P3 : 0 < 2 ^ (1074 - k)) by (apply Z.pow_pos_nonneg; lia).
  assert (SC : scale = 2 ^ (1074 - k) * 2 ^ k)
    by (unfold scale; rewrite <- Z.pow_add_r by lia; f_equal; lia).
  assert (E : (inject_Z M / inject_Z (2 ^ k) ==
               inject_Z (M * 2 ^ (1074 - k)) / inject_Z scale)%Q).
  { rewrite SC, !inject_Z_mult. field.
    split; apply inject_Z_nonzero; lia. }
  rewrite (roundToPrecision_comp _ _ E). rewrite E.
  apply roundToPrecision_units; lia.
Qed.

Theorem roundToPrecision_shift (M j : Z) :
  Z.abs M <= 2 ^ 53 -> 0 <= j ->
  (roundToPrecision (inject_Z (M * 2 ^ j)) == inject_Z (M * 2 ^ j))%Q.
Proof.
  intros HM Hj.
  assert (E : (inject_Z (M * 2 ^ j) ==
               inject_Z (M * 2 ^ (j + 1074)) / inject_Z scale)%Q).
  { rewrite Z.pow_add_r by lia. fold scale. rewrite Z.mul_assoc.
    rewrite (inject_Z_mult (M * 2 ^ j)). field.
    apply inject_Z_nonzero. pose proof scale_pos. lia. }
  rewrite (roundToPrecision_comp _ _ E). rewrite E.
  apply roundToPrecision_units; lia.
Qed.

Corollary roundToPrecision_Z (n : Z) :
  Z.abs n <= 2 ^ 53 -> (roundToPrecision (inject_Z n) == inject_Z n)%Q.
Proof.
  intros H. pose proof (roundToPrecision_shift n 0 H ltac:(lia)) as E.
  rewrite Z.pow_0_r, Z.mul_1_r in E. exact E.
Qed.

(** The result is in lowest terms. *)
Lemma roundToPrecision_canonical (x : Q) :
  Qred (roundToPrecision x) = roundToPrecision x.
Proof.
  unfold roundToPrecision. destruct (Qle_bool 0 x).
  - apply Qred_complete, Qred_correct.
  - rewrite Qred_opp. f_equal. apply Qred_complete, Qred_correct.
Qed.

Lemma roundToPrecision_eq (x y : Q) :
  (roundToPrecision x == y)%Q -> roundToPrecision x = Qred y.
Proof.
  intros E. rewrite <- roundToPrecision_canonical. apply Qred_complete, E.
Qed.

(** The error of the rounding is at most half the spacing, which for a
    magnitude of at least 2^-1022 is at most the magnitude over 2^53. *)
Lemma units_error (X : Q) :
  (inject_Z (2 ^ 52) <= X)%Q ->
  (Qabs (inject_Z (units X) - X) <= X / inject_Z (2 ^ 53))%Q.
Proof.
  intros H. unfold units.
  pose proof (spacing_pos (Qfloor X)) as SP.
  pose proof (inject_Z_pos _ SP) as SQ.
  set (s := spacing (Qfloor X)) in *.
  pose proof (roundToEven_bounds (X / inject_Z s)) as [L U].
  set (m := roundToEven (X / inject_Z s)) in *. clearbody m.
  assert (B : (inject_Z (2 ^ 52) * inject_Z s <= X)%Q).
  { subst s. destruct (spacing_spec (Qfloor X)) as [[_ ->] | (_ & _ & A & _)].
    - rewrite Qmult_1_r. exact H.
    - apply Qle_trans with (inject_Z (Qfloor X)); [| apply Qfloor_le].
      rewrite <- inject_Z_mult, <- Zle_Qle. exact A. }
  clearbody s. rewrite inject_Z_mult.
  set (S := inject_Z s) in *. clearbody S.
  set (q := (X / S)%Q) in *.
  assert (EQ : (X == q * S)%Q) by (subst q; field; lra).
  clearbody q.
  change (inject_Z (2 ^ 52)) with 4503599627370496%Q in B.
  change (inject_Z (2 ^ 53)) with 9007199254740992%Q.
  apply Qabs_Qle_condition.
  assert (D : (X / 9007199254740992 == X * (1 # 9007199254740992))%Q)
    by (field).
  rewrite D. set (m' := inject_Z m) in *. clearbody m'.
  split; nra.
Qed.

Theorem roundToPrecision_error (x : Q) :
  (inject_Z (2 ^ 52) <= Qabs x * inject_Z scale)%Q ->
  (Qabs (roundToPrecision x - x) <= Qabs x / inject_Z (2 ^ 53))%Q.
Proof.
  intros H. pose proof (units_error _ H) as E.
  fold (magnitude x) in E.
  assert (NS : ~ (inject_Z scale == 0)%Q)
    by (apply inject_Z_nonzero; pose proof scale_pos; lia).
  pose proof (inject_Z_pos _ scale_pos) as SP.
  assert (A : (Qabs (inject_Z (magnitude x) / inject_Z scale - Qabs x) <=
               Qabs x / inject_Z (2 ^ 53))%Q).
  { setoid_replace (inject_Z (magnitude x) / inject_Z scale - Qabs x)%Q
      with ((inject_Z (magnitude x) - Qabs x * inject_Z scale) / inject_Z scale)%Q
      by (field; exact NS).
    unfold Qdiv at 1. rewrite Qabs_Qmult, Qabs_Qinv, (Qabs_pos (inject_Z scale))
      by (apply Qlt_le_weak, SP).
    apply Qle_shift_div_r; [exact SP |].
    setoid_replace (Qabs x / inject_Z (2 ^ 53) * inject_Z scale)%Q
      with (Qabs x * inject_Z scale / inject_Z (2 ^ 53))%Q by (field; discriminate).
    exact E. }
  rewrite value_eq. destruct (Qle_bool 0 x) eqn:EX.
  - apply Qle_bool_iff in EX. rewrite (Qabs_pos x EX) in A at 1. exact A.
  - assert (N : ~ (0 <= x)%Q) by (rewrite <- Qle_bool_iff, EX; discriminate).
    assert (AX : (Qabs x == - x)%Q) by (apply Qabs_neg; lra).
    rewrite AX in A at 1.
    setoid_replace (- (inject_Z (magnitude x) / inject_Z scale) - x)%Q
      with (- (inject_Z (magnitude x) / inject_Z scale - - x))%Q by ring.
    rewrite Qabs_opp. exact A.
Qed.

(** At any magnitude the error is at most the magnitude over 2^53 plus
    half a unit of 2^-1074. *)
Lemma units_error_any (X : Q) :
  (0 <= X)%Q ->
  (Qabs (inject_Z (units X) - X) <= X / inject_Z (2 ^ 53) + (1 # 2))%Q.
Proof.
  intros P. unfold units.
  pose proof (spacing_pos (Qfloor X)) as SP.
  pose proof (inject_Z_pos _ SP) as SQ.
  pose proof (spacing_spec (Qfloor X)) as SS.
  set (s := spacing (Qfloor X)) in *.
  pose proof (roundToEven_bounds (X / inject_Z s)) as [L U].
  set (m := roundToEven (X / inject_Z s)) in *. clearbody m.
  assert (B : s = 1 \/ (inject_Z (2 ^ 52) * inject_Z s <= X)%Q).
  { destruct SS as [[_ A] | (_ & _ & A & _)]; [left; exact A | right].
    apply Qle_trans with (inject_Z (Qfloor X)); [| apply Qfloor_le].
    rewrite <- inject_Z_mult, <- Zle_Qle. exact A. }
  clear SS. clearbody s. rewrite inject_Z_mult.
  change (inject_Z (2 ^ 53)) with 9007199254740992%Q.
  change (inject_Z (2 ^ 52)) with 4503599627370496%Q in B.
  assert (D : (X / 9007199254740992 == X * (1 # 9007199254740992))%Q)
    by (field).
  rewrite D. apply Qabs_Qle_condition.
  destruct B as [-> | B].
  - change (inject_Z 1) with 1%Q in *.
    assert (EQ : (X / 1 == X)%Q) by field. rewrite EQ in L, U.
    set (m' := inject_Z m) in *. clearbody m'. split; lra.
  - set (S := inject_Z s) in *. clearbody S.
    set (q := (X / S)%Q) in *.
    assert (EQ : (X == q * S)%Q) by (subst q; field; lra).
    clearbody q. set (m' := inject_Z m) in *. clearbody m'.
    split; nra.
Qed.

Theorem roundToPrecision_error_any (x : Q) :
  (Qabs (roundToPrecision x - x) <=
   Qabs x / inject_Z (2 ^ 53) + (1 # 2) / inject_Z scale)%Q.
Proof.
  assert (P : (0 <= Qabs x * inject_Z scale)%Q).
  { apply Qmult_le_0_compat; [apply Qabs_nonneg |].
    apply Qlt_le_weak, inject_Z_pos, scale_pos. }
  pose proof (units_error_any _ P) as E.
  fold (magnitude x) in E.
  assert (NS : ~ (inject_Z scale == 0)%Q)
    by (apply inject_Z_nonzero; pose proof scale_pos; lia).
  pose proof (inject_Z_pos _ scale_pos) as SP.
  assert (A : (Qabs (inject_Z (magnitude x) / inject_Z scale - Qabs x) <=
               Qabs x / inject_Z (2 ^ 53) + (1 # 2) / inject_Z scale)%Q).
  { setoid_replace (inject_Z (magnitude x) / inject_Z scale - Qabs x)%Q
      with ((inject_Z (magnitude x) - Qabs x * inject_Z scale) / inject_Z scale)%Q
      by (field; exact NS).
    unfold Qdiv at 1. rewrite Qabs_Qmult, Qabs_Qinv, (Qabs_pos (inject_Z scale))
      by (apply Qlt_le_weak, SP).
    apply Qle_shift_div_r; [exact SP |].
    setoid_replace ((Qabs x / inject_Z (2 ^ 53) + (1 # 2) / inject_Z scale) *
                    inject_Z scale)%Q
      with (Qabs x * inject_Z scale / inject_Z (2 ^ 53) + (1 # 2))%Q
      by (field; split; [discriminate | exact NS]).
    exact E. }
  rewrite value_eq. destruct (Qle_bool 0 x) eqn:EX.
  - apply Qle_bool_iff in EX. rewrite (Qabs_pos x EX) in A at 1. exact A.
  - assert (N : ~ (0 <= x)%Q) by (rewrite <- Qle_bool_iff, EX; discriminate).
    assert (AX : (Qabs x == - x)%Q) by (apply Qabs_neg; lra).
    rewrite AX in A at 1.
    setoid_replace (- (inject_Z (magnitude x) / inject_Z scale) - x)%Q
      with (- (inject_Z (magnitude x) / inject_Z scale - - x))%Q by ring.
    rewrite Qabs_opp. exact A.
Qed.

End RoundingFacts.
(** * JavaScript numbers: when an operation is exact, and how it is ordered *)

Section NumberFacts.

Import Binary64.

Lemma Qred_inject_Z (n : Z) : Qred (inject_Z n) = inject_Z n.
Proof.
  unfold Qred, inject_Z.
  pose proof (Z.ggcd_gcd n 1) as G.
  pose proof (Z.ggcd_correct_divisors n 1) as D.
  destruct (Z.ggcd n 1) as [g [aa bb]]. cbn [fst snd] in *.
  rewrite Z.gcd_1_r in G. subst g. destruct D as [D1 D2].
  rewrite !Z.mul_1_l in *. subst aa bb. reflexivity.
Qed.

Lemma representable_dyadic (M k : Z) :
  Z.abs M <= 2 ^ 53 -> 0 <= k <= 1074 ->
  representable (inject_Z M / inject_Z (2 ^ k)).
Proof.
  intros HM Hk. split; [apply roundToPrecision_exact; assumption |].
  assert (P2 : 0 < 2 ^ k) by (apply Z.pow_pos_nonneg; lia).
  assert (P1 : 1 <= 2 ^ k) by lia.
  unfold Qdiv. rewrite Qabs_Qmult, Qabs_Qinv.
  rewrite (Qabs_pos (inject_Z (2 ^ k))) by (apply Qlt_le_weak, inject_Z_pos, P2).
  apply Qlt_shift_div_r; [apply inject_Z_pos, P2 |].
  assert (AM : (Qabs (inject_Z M) == inject_Z (Z.abs M))%Q) by reflexivity.
  rewrite AM, <- inject_Z_mult, <- Zlt_Qlt.
  apply Z.le_lt_trans with (2 ^ 53 * 2 ^ k); [| ].
  - apply Z.le_trans with (2 ^ 53 * 1); [lia |].
    apply Z.mul_le_mono_nonneg_l; lia.
  - apply Z.mul_lt_mono_pos_r; [exact P2 | reflexivity].
Qed.

Lemma representable_Z (n : Z) : Z.abs n <= 2 ^ 53 -> representable (inject_Z n).
Proof.
  intros H. split; [apply roundToPrecision_Z, H |].
  assert (AM : (Qabs (inject_Z n) == inject_Z (Z.abs n))%Q) by reflexivity.
  rewrite AM, <- Zlt_Qlt.
  apply Z.le_lt_trans with (2 ^ 53); [exact H | reflexivity].
Qed.

Lemma representable_shift (M j : Z) :
  Z.abs M <= 2 ^ 53 -> 0 <= j <= 900 -> representable (inject_Z (M * 2 ^ j)).
Proof.
  intros HM Hj. split; [apply roundToPrecision_shift; lia |].
  assert (AM : (Qabs (inject_Z (M * 2 ^ j)) == inject_Z (Z.abs (M * 2 ^ j)))%Q)
    by reflexivity.
  assert (P2 : 0 < 2 ^ j) by (apply Z.pow_pos_nonneg; lia).
  rewrite AM, <- Zlt_Qlt, Z.abs_mul, (Z.abs_eq (2 ^ j)) by lia.
  apply Z.le_lt_trans with (2 ^ 53 * 2 ^ j).
  - apply Z.mul_le_mono_nonneg_r; lia.
  - rewrite <- Z.pow_add_r by lia. apply Z.pow_lt_mono_r; lia.
Qed.

Lemma round_comp (x y : Q) : (x == y)%Q -> JS.round x = JS.round y.
Proof.
  intros E. unfold JS.round. rewrite (roundToPrecision_comp _ _ E). reflexivity.
Qed.

(** A real number between two binary64 numbers rounds to a finite number
    between them. *)
Lemma round_between (x lo hi : Q) :
  representable lo -> representable hi -> (lo <= x)%Q -> (x <= hi)%Q ->
  JS.round x = JS.Finite (roundToPrecision x) /\
  (lo <= roundToPrecision x)%Q /\ (roundToPrecision x <= hi)%Q.
Proof.
  intros [EL BL] [EH BH] L H.
  pose proof (roundToPrecision_mono _ _ L) as ML. rewrite EL in ML.
  pose proof (roundToPrecision_mono _ _ H) as MH. rewrite EH in MH.
  split; [| split; assumption].
  unfold JS.round.
  assert (B : (Qabs (roundToPrecision x) < inject_Z (2 ^ 1024))%Q).
  { apply Qabs_Qlt_condition. apply Qabs_Qlt_condition in BL, BH.
    destruct BL, BH. split; lra. }
  destruct (Qle_bool (inject_Z (2 ^ 1024)) (Qabs (roundToPrecision x))) eqn:E;
    [| reflexivity].
  apply Qle_bool_iff in E. exfalso. lra.
Qed.

Lemma round_representable (v : Q) :
  representable v -> JS.round v = JS.Finite (Qred v).
Proof.
  intros R. destruct (round_between v v v R R (Qle_refl v) (Qle_refl v)) as [E _].
  rewrite E. f_equal. apply roundToPrecision_eq, R.
Qed.

Lemma round_Z (n : Z) : Z.abs n <= 2 ^ 53 -> JS.round (inject_Z n) = JS.ofZ n.
Proof.
  intros H. rewrite (round_representable _ (representable_Z n H)).
  unfold JS.ofZ. rewrite Qred_inject_Z. reflexivity.
Qed.

Lemma Qfloor_iff (x : Q) (n : Z) :
  Qfloor x = n <-> (inject_Z n <= x /\ x < inject_Z (n + 1))%Q.
Proof.
  split.
  - intros <-. split; [apply Qfloor_le | apply Qlt_floor].
  - intros [L U].
    pose proof (Qfloor_resp_le _ _ L) as A. rewrite Qfloor_Z in A.
    assert (B : Qfloor x < n + 1).
    { rewrite Zlt_Qlt. apply Qle_lt_trans with x; [apply Qfloor_le | exact U]. }
    lia.
Qed.

Lemma Qdiv_le_cross (a b c d : Z) :
  0 < b -> 0 < d -> a * d <= c * b ->
  (inject_Z a / inject_Z b <= inject_Z c / inject_Z d)%Q.
Proof.
  intros Hb Hd H.
  apply Qle_shift_div_l; [apply inject_Z_pos, Hd |].
  setoid_replace (inject_Z a / inject_Z b * inject_Z d)%Q
    with (inject_Z (a * d) / inject_Z b)%Q
    by (rewrite inject_Z_mult; field; apply inject_Z_nonzero; lia).
  apply Qle_shift_div_r; [apply inject_Z_pos, Hb |].
  rewrite <- inject_Z_mult, <- Zle_Qle. exact H.
Qed.

Lemma Qeq_bool_inject_Z (n : Z) : n <> 0 -> Qeq_bool (inject_Z n) 0 = false.
Proof.
  intros H. destruct (Qeq_bool (inject_Z n) 0) eqn:E; [| reflexivity].
  apply Qeq_bool_iff in E. exfalso. exact (inject_Z_nonzero n H E).
Qed.

Lemma div_by_integer (m : Q) (T : Z) :
  T <> 0 -> JS.div (JS.Finite m) (JS.ofZ T) = JS.round (m / inject_Z T).
Proof.
  intros H. unfold JS.div, JS.ofZ. rewrite (Qeq_bool_inject_Z T H). reflexivity.
Qed.

(** The difference of two integers is exact as long as it fits. *)
Lemma sub_exact (a b : Z) :
  Z.abs (a - b) <= 2 ^ 53 -> JS.sub (JS.ofZ a) (JS.ofZ b) = JS.ofZ (a - b).
Proof.
  intros H. unfold JS.sub, JS.ofZ.
  assert (E : (inject_Z a - inject_Z b == inject_Z (a - b))%Q).
  { unfold Z.sub. rewrite inject_Z_plus, inject_Z_opp. reflexivity. }
  rewrite (round_comp _ _ E). apply round_Z, H.
Qed.

(** The binary64 quotient of an integer of magnitude up to 2^52 by the
    milliseconds of a day has the floor of the exact quotient. *)
Lemma daysOf_exact (a : Z) :
  Z.abs a <= 2 ^ 52 -> daysOf (JS.ofZ a) = JS.ofZ (a / msPerDay).
Proof.
  intros H. unfold daysOf. unfold JS.ofZ at 1.
  rewrite div_by_integer by discriminate.
  set (q := a / msPerDay).
  assert (B : msPerDay * q <= a <= msPerDay * q + msPerDay - 1 /\
              Z.abs q <= 52124996).
  { subst q. unfold msPerDay in *. change (2 ^ 52) with 4503599627370496 in H.
    split; Z.div_mod_to_equations; lia. }
  destruct B as [B Bq]. clearbody q. unfold msPerDay in B.
  assert (RL : representable (inject_Z q)).
  { apply representable_Z. change (2 ^ 53) with 9007199254740992. lia. }
  assert (RH : representable
                 (inject_Z ((q + 1) * 2 ^ 27 - 1) / inject_Z (2 ^ 27))).
  { apply representable_dyadic; [| lia].
    change (2 ^ 53) with 9007199254740992. change (2 ^ 27) with 134217728. lia. }
  assert (L : (inject_Z q <= inject_Z a / inject_Z msPerDay)%Q).
  { apply Qle_shift_div_l; [reflexivity |].
    rewrite <- inject_Z_mult, <- Zle_Qle. unfold msPerDay. lia. }
  assert (U : (inject_Z a / inject_Z msPerDay <=
               inject_Z ((q + 1) * 2 ^ 27 - 1) / inject_Z (2 ^ 27))%Q).
  { apply Qdiv_le_cross; [reflexivity | reflexivity |].
    unfold msPerDay. change (2 ^ 27) with 134217728. lia. }
  destruct (round_between _ _ _ RL RH L U) as (-> & L' & U').
  cbn [JS.Math_floor]. f_equal. apply Qfloor_iff. split; [exact L' |].
  apply Qle_lt_trans with (1 := U').
  apply Qlt_shift_div_r; [reflexivity |].
  rewrite <- inject_Z_mult, <- Zlt_Qlt. change (2 ^ 27) with 134217728. lia.
Qed.

End NumberFacts.
(** * The percentage expression in binary64 *)

Section PercentageFacts.

Import Binary64.

Lemma inject_Z_ge1 (T : Z) : 1 <= T -> (1 <= inject_Z T)%Q.
Proof. intros H. change 1%Q with (inject_Z 1). rewrite <- Zle_Qle. exact H. Qed.

Lemma quotient_bounded (m : Q) (T : Z) (c : Q) :
  1 <= T -> (0 <= c)%Q -> (- c <= m)%Q -> (m <= c)%Q ->
  (- c <= m / inject_Z T /\ m / inject_Z T <= c)%Q.
Proof.
  intros HT Hc L U. pose proof (inject_Z_ge1 T HT) as T1.
  set (t := inject_Z T) in *. clearbody t.
  assert (P : (0 < t)%Q) by lra.
  split.
  - apply Qle_shift_div_l; [exact P | nra].
  - apply Qle_shift_div_r; [exact P | nra].
Qed.

Lemma rawPercentage_comp (m m' : Q) (T : Z) :
  (m == m')%Q -> rawPercentage m T = rawPercentage m' T.
Proof.
  intros E. unfold rawPercentage.
  assert (A : (m / inject_Z T == m' / inject_Z T)%Q) by (rewrite E; reflexivity).
  rewrite (roundToPrecision_comp _ _ A). reflexivity.
Qed.

Lemma rawPercentage_mono (m1 m2 : Q) (T : Z) :
  1 <= T -> (m1 <= m2)%Q -> (rawPercentage m1 T <= rawPercentage m2 T)%Q.
Proof.
  intros HT H. unfold rawPercentage. pose proof (inject_Z_ge1 T HT) as T1.
  apply roundToPrecision_mono. apply Qmult_le_compat_r; [| discriminate].
  apply roundToPrecision_mono. apply Qmult_le_compat_r; [exact H |].
  apply Qinv_le_0_compat. lra.
Qed.

Lemma rawPercentage_zero (T : Z) : rawPercentage 0 T = 0%Q.
Proof.
  unfold rawPercentage.
  assert (A : (0 / inject_Z T == 0)%Q) by (unfold Qdiv; apply Qmult_0_l).
  rewrite (roundToPrecision_comp _ _ A). vm_compute. reflexivity.
Qed.

Lemma tiny_representable : representable (inject_Z 1 / inject_Z (2 ^ 35)).
Proof. apply representable_dyadic; [discriminate | lia]. Qed.

Lemma tiny_neg_representable : representable (inject_Z (-1) / inject_Z (2 ^ 35)).
Proof. apply representable_dyadic; [discriminate | lia]. Qed.

Lemma rawPercentage_pos (m : Q) (T : Z) :
  1 <= T <= 2 ^ 35 -> (1 <= m)%Q ->
  (inject_Z 1 / inject_Z (2 ^ 35) <= rawPercentage m T)%Q.
Proof.
  intros [HT UT] H. unfold rawPercentage.
  pose proof (inject_Z_ge1 T HT) as T1.
  assert (T2 : (inject_Z T <= inject_Z (2 ^ 35))%Q)
    by (rewrite <- Zle_Qle; exact UT).
  destruct tiny_representable as [E _].
  assert (A : (inject_Z 1 / inject_Z (2 ^ 35) <=
               roundToPrecision (m / inject_Z T))%Q).
  { rewrite <- E. apply roundToPrecision_mono.
    apply Qle_shift_div_l; [lra |].
    change (inject_Z 1 / inject_Z (2 ^ 35))%Q with (1 # 34359738368)%Q.
    change (inject_Z (2 ^ 35)) with 34359738368%Q in T2.
    set (t := inject_Z T) in *. clearbody t. lra. }
  rewrite <- E. apply roundToPrecision_mono.
  set (q := roundToPrecision (m / inject_Z T)) in *. clearbody q.
  change (inject_Z 1 / inject_Z (2 ^ 35))%Q with (1 # 34359738368)%Q in *. lra.
Qed.

Lemma rawPercentage_neg (m : Q) (T : Z) :
  1 <= T <= 2 ^ 35 -> (m <= - (1))%Q ->
  (rawPercentage m T <= inject_Z (-1) / inject_Z (2 ^ 35))%Q.
Proof.
  intros [HT UT] H. unfold rawPercentage.
  pose proof (inject_Z_ge1 T HT) as T1.
  assert (T2 : (inject_Z T <= inject_Z (2 ^ 35))%Q)
    by (rewrite <- Zle_Qle; exact UT).
  destruct tiny_neg_representable as [E _].
  assert (A : (roundToPrecision (m / inject_Z T) <=
               inject_Z (-1) / inject_Z (2 ^ 35))%Q).
  { rewrite <- E. apply roundToPrecision_mono.
    apply Qle_shift_div_r; [lra |].
    change (inject_Z (-1) / inject_Z (2 ^ 35))%Q with (-1 # 34359738368)%Q.
    change (inject_Z (2 ^ 35)) with 34359738368%Q in T2.
    set (t := inject_Z T) in *. clearbody t. lra. }
  rewrite <- E. apply roundToPrecision_mono.
  set (q := roundToPrecision (m / inject_Z T)) in *. clearbody q.
  change (inject_Z (-1) / inject_Z (2 ^ 35))%Q with (-1 # 34359738368)%Q in *.
  lra.
Qed.

(** Before the nominal end of the year the product stays below 100. *)
Lemma rawPercentage_below (a T : Z) :
  1 <= T <= 2 ^ 35 -> a <= T - 1 ->
  (rawPercentage (inject_Z a) T <=
   inject_Z (100 * 2 ^ 29 - 1) / inject_Z (2 ^ 29))%Q.
Proof.
  intros [HT UT] H. unfold rawPercentage.
  assert (R1 : representable (inject_Z (2 ^ 35 - 1) / inject_Z (2 ^ 35)))
    by (apply representable_dyadic; [discriminate | lia]).
  assert (R2 : representable (inject_Z (100 * 2 ^ 29 - 1) / inject_Z (2 ^ 29)))
    by (apply representable_dyadic; [discriminate | lia]).
  destruct R1 as [E1 _]. destruct R2 as [E2 _].
  assert (A : (roundToPrecision (inject_Z a / inject_Z T) <=
               inject_Z (2 ^ 35 - 1) / inject_Z (2 ^ 35))%Q).
  { rewrite <- E1. apply roundToPrecision_mono.
    apply Qdiv_le_cross; [lia | reflexivity |].
    change (2 ^ 35) with 34359738368 in *. lia. }
  rewrite <- E2. apply roundToPrecision_mono.
  set (q := roundToPrecision (inject_Z a / inject_Z T)) in *. clearbody q.
  change (inject_Z (2 ^ 35 - 1) / inject_Z (2 ^ 35))%Q
    with (34359738367 # 34359738368)%Q in A.
  change (inject_Z (100 * 2 ^ 29 - 1) / inject_Z (2 ^ 29))%Q
    with (53687091199 # 536870912)%Q. lra.
Qed.

(** The expression on a finite [msPassed] of magnitude up to 2^54 (every
    difference of two valid time values): the cap applied to the rounded
    product. *)
Lemma percentageOf_finite (m : Q) (T : Z) :
  (- inject_Z (2 ^ 54) <= m)%Q -> (m <= inject_Z (2 ^ 54))%Q -> 1 <= T ->
  percentageOf (JS.Finite m) T =
  JS.Finite (if JS.Qltb (rawPercentage m T) 100 then rawPercentage m T
             else 100%Q).
Proof.
  intros L U HT. unfold percentageOf.
  rewrite div_by_integer by lia.
  assert (RL : representable (inject_Z (-1 * 2 ^ 54)))
    by (apply representable_shift; [discriminate | lia]).
  assert (RH : representable (inject_Z (1 * 2 ^ 54)))
    by (apply representable_shift; [discriminate | lia]).
  destruct (quotient_bounded m T (inject_Z (2 ^ 54)) HT ltac:(discriminate) L U)
    as [QL QU].
  destruct (round_between (m / inject_Z T) _ _ RL RH QL QU) as (-> & L1 & U1).
  unfold JS.mul, JS.ofZ.
  assert (SL : representable (inject_Z (-1 * 2 ^ 61)))
    by (apply representable_shift; [discriminate | lia]).
  assert (SH : representable (inject_Z (1 * 2 ^ 61)))
    by (apply representable_shift; [discriminate | lia]).
  set (q := roundToPrecision (m / inject_Z T)) in *.
  assert (PL : (inject_Z (-1 * 2 ^ 61) <= q * inject_Z 100)%Q).
  { clearbody q.
    change (inject_Z (-1 * 2 ^ 54)) with (-18014398509481984)%Q in L1.
    change (inject_Z (-1 * 2 ^ 61)) with (-2305843009213693952)%Q.
    change (inject_Z 100) with 100%Q. lra. }
  assert (PU : (q * inject_Z 100 <= inject_Z (1 * 2 ^ 61))%Q).
  { clearbody q.
    change (inject_Z (1 * 2 ^ 54)) with (18014398509481984)%Q in U1.
    change (inject_Z (1 * 2 ^ 61)) with (2305843009213693952)%Q.
    change (inject_Z 100) with 100%Q. lra. }
  destruct (round_between (q * inject_Z 100) _ _ SL SH PL PU) as (-> & _ & _).
  change (roundToPrecision (q * inject_Z 100)) with (rawPercentage m T).
  unfold JS.Math_min, JS.ltb.
  change (inject_Z 100) with 100%Q.
  destruct (JS.Qltb (rawPercentage m T) 100); reflexivity.
Qed.

Lemma normal_of_tiny (x : Q) :
  (inject_Z 1 / inject_Z (2 ^ 35) <= x)%Q ->
  (inject_Z (2 ^ 52) <= Qabs x * inject_Z scale)%Q.
Proof.
  intros H.
  assert (P : (0 <= x)%Q).
  { apply Qle_trans with (2 := H). discriminate. }
  rewrite (Qabs_pos x P).
  apply Qle_trans with (inject_Z 1 / inject_Z (2 ^ 35) * inject_Z scale)%Q.
  - vm_compute. discriminate.
  - apply Qmult_le_compat_r; [exact H |].
    apply Qlt_le_weak, inject_Z_pos, scale_pos.
Qed.

(** Within the nominal year the rounded product is within 2^-45 of the
    exact percentage. *)
Lemma rawPercentage_error (a T : Z) :
  1 <= T <= 2 ^ 35 -> 1 <= a <= T ->
  (Qabs (rawPercentage (inject_Z a) T - inject_Z a / inject_Z T * 100) <=
   inject_Z 1 / inject_Z (2 ^ 45))%Q.
Proof.
  intros [HT UT] [La Ua].
  set (x := (inject_Z a / inject_Z T)%Q).
  assert (X0 : (inject_Z 1 / inject_Z (2 ^ 35) <= x)%Q).
  { subst x. apply Qdiv_le_cross; [reflexivity | lia |].
    change (2 ^ 35) with 34359738368 in *. nia. }
  assert (X1 : (x <= 1)%Q).
  { subst x. apply Qle_shift_div_r; [apply inject_Z_pos; lia |].
    rewrite Qmult_1_l, <- Zle_Qle. exact Ua. }
  pose proof (roundToPrecision_error x (normal_of_tiny x X0)) as E1.
  destruct tiny_representable as [ET _].
  assert (Q0 : (inject_Z 1 / inject_Z (2 ^ 35) <= roundToPrecision x)%Q).
  { rewrite <- ET. apply roundToPrecision_mono, X0. }
  assert (Q1 : (roundToPrecision x <= 1)%Q).
  { assert (R1 : (roundToPrecision 1 == 1)%Q) by (vm_compute; reflexivity).
    rewrite <- R1. apply roundToPrecision_mono, X1. }
  unfold rawPercentage. fold x.
  set (q := roundToPrecision x) in *.
  assert (Y0 : (inject_Z 1 / inject_Z (2 ^ 35) <= q * 100)%Q).
  { clearbody q.
    change (inject_Z 1 / inject_Z (2 ^ 35))%Q with (1 # 34359738368)%Q in *.
    lra. }
  pose proof (roundToPrecision_error (q * 100) (normal_of_tiny _ Y0)) as E2.
  set (p := roundToPrecision (q * 100)) in *. clearbody p q x.
  assert (AX : (Qabs x == x)%Q).
  { apply Qabs_pos. apply Qle_trans with (2 := X0). discriminate. }
  assert (AY : (Qabs (q * 100) == q * 100)%Q).
  { apply Qabs_pos. apply Qle_trans with (2 := Y0). discriminate. }
  rewrite AX in E1. rewrite AY in E2.
  apply Qabs_Qle_condition in E1. apply Qabs_Qle_condition in E2.
  apply Qabs_Qle_condition.
  change (inject_Z 1 / inject_Z (2 ^ 45))%Q with (1 # 35184372088832)%Q.
  change (inject_Z (2 ^ 53)) with 9007199254740992%Q in *.
  assert (D1 : (x / 9007199254740992 == x * (1 # 9007199254740992))%Q) by field.
  assert (D2 : (q * 100 / 9007199254740992 ==
                q * (100 # 9007199254740992))%Q) by field.
  rewrite D1 in E1. rewrite D2 in E2.
  destruct E1 as [E1a E1b]. destruct E2 as [E2a E2b]. split; lra.
Qed.

End PercentageFacts.

(** * Properties of the calendar and of the progress calculator *)

Lemma DayFromYear_succ (y : Z) :
  DayFromYear (y + 1) = DayFromYear y + DaysInYear y.
Proof.
  unfold DayFromYear, DaysInYear.
  destruct (y mod 4 =? 0) eqn:E4; destruct (y mod 100 =? 0) eqn:E100;
    destruct (y mod 400 =? 0) eqn:E400; cbn [negb];
    rewrite ?Z.eqb_eq, ?Z.eqb_neq in *; Z.div_mod_to_equations; lia.
Qed.

Lemma YearFromTime_spec (t : Z) :
  TimeFromYear (YearFromTime t) <= t < TimeFromYear (YearFromTime t + 1).
Proof.
  unfold TimeFromYear, YearFromTime, msPerDay.
  set (d := t / 86400000).
  assert (Hd : 86400000 * d <= t < 86400000 * (d + 1))
    by (subst d; Z.div_mod_to_equations; lia).
  clearbody d.
  set (y0 := 1970 + 400 * d / 146097).
  assert (Hy : 146097 * (y0 - 1970) <= 400 * d < 146097 * (y0 - 1970) + 146097)
    by (subst y0; Z.div_mod_to_equations; lia).
  clearbody y0.
  destruct (d <? DayFromYear y0) eqn:E1;
    [ apply Z.ltb_lt in E1 | apply Z.ltb_ge in E1 ].
  - replace (y0 - 1 + 1) with y0 by lia.
    assert (DayFromYear (y0 - 1) <= d)
      by (unfold DayFromYear in *; Z.div_mod_to_equations; lia).
    lia.
  - destruct (DayFromYear (y0 + 1) <=? d) eqn:E2;
      [ apply Z.leb_le in E2 | apply Z.leb_gt in E2 ].
    + assert (d < DayFromYear (y0 + 1 + 1))
        by (unfold DayFromYear in *; Z.div_mod_to_equations; lia).
      lia.
    + lia.
Qed.

Lemma DayFromYear_mono (y1 y2 : Z) :
  y1 <= y2 -> DayFromYear y1 <= DayFromYear y2.
Proof.
  unfold DayFromYear; intros H; Z.div_mod_to_equations; lia.
Qed.

Lemma DayFromYear_lt (y1 y2 : Z) :
  DayFromYear y1 < DayFromYear y2 -> y1 < y2.
Proof.
  intros H. destruct (Z_lt_le_dec y1 y2) as [L | L]; [exact L |].
  apply DayFromYear_mono in L. lia.
Qed.

(** [YearFromTime t] is the largest year that starts at or before [t]. *)
Lemma YearFromTime_largest (t y : Z) :
  TimeFromYear y <= t -> y <= YearFromTime t.
Proof.
  intros H. pose proof (YearFromTime_spec t) as [_ S].
  unfold TimeFromYear, msPerDay in *.
  assert (L : DayFromYear y < DayFromYear (YearFromTime t + 1)) by lia.
  apply DayFromYear_lt in L. lia.
Qed.

Lemma YearFromTime_unique (t y : Z) :
  TimeFromYear y <= t < TimeFromYear (y + 1) -> YearFromTime t = y.
Proof.
  intros [L U]. pose proof (YearFromTime_largest t y L) as G.
  pose proof (YearFromTime_spec t) as [S _].
  unfold TimeFromYear, msPerDay in *.
  assert (K : DayFromYear (YearFromTime t) < DayFromYear (y + 1)) by lia.
  apply DayFromYear_lt in K. lia.
Qed.

Example progress_mid_2024 :
  let r := getYearProgressPrecise utc (jan1_2024 + 183 * msPerDay) in
  percentage r = JS.ofZ 50 /\ daysPassed r = JS.ofZ 183 /\
  daysRemaining r = JS.ofZ 183 /\ totalDaysInYear r = 366 /\
  displayPercentage r = [53;48;46;48;48;48;48;48;48]%N.
Proof. vm_compute. repeat split; reflexivity. Qed.

Example progress_one_ms_later :
  let r := getYearProgressPrecise utc (jan1_2024 + 1) in
  daysPassed r = JS.ofZ 0 /\ daysRemaining r = JS.ofZ 365 /\
  totalDaysInYear r = 366.
Proof. vm_compute. repeat split; reflexivity. Qed.

(** One third of 2023 on a host on UTC: the stored percentage is the
    binary64 number 33.33333333333333, that is 2345624805922133 / 2^46 (the
    exact quotient rounded, then the product rounded), not the rational
    100/3. *)
Example progress_third_of_2023 :
  percentage (getYearProgressPrecise utc (TimeFromYear 2023 + 10512000000)) =
    JS.Finite (2345624805922133 # 70368744177664) /\
  ~ (2345624805922133 # 70368744177664 == 100 # 3)%Q.
Proof. split; [vm_compute; reflexivity | discriminate]. Qed.

(** *** The leap-year rule *)

Lemma rem_zero_divide (a b : Z) : b <> 0 -> (JS.rem a b =? 0) = true <-> (b | a).
Proof.
  intros Hb. unfold JS.rem. rewrite Z.eqb_eq. apply Z.rem_divide; exact Hb.
Qed.

Lemma isLeap_divide (y : Z) :
  isLeap y = true <-> ((4 | y) /\ ~ (100 | y)) \/ (400 | y).
Proof.
  unfold isLeap.
  rewrite orb_true_iff, andb_true_iff, negb_true_iff.
  rewrite <- (rem_zero_divide y 4), <- (rem_zero_divide y 100),
    <- (rem_zero_divide y 400) by discriminate.
  rewrite not_true_iff_false. reflexivity.
Qed.

(** The rule of the code is the rule of the host's calendar. *)
Lemma totalDaysOf_DaysInYear (y : Z) : totalDaysOf y = DaysInYear y.
Proof.
  unfold totalDaysOf, isLeap, DaysInYear, JS.rem.
  assert (H4 : (y mod 4 =? 0) = (Z.rem y 4 =? 0)).
  { apply eq_true_iff_eq. rewrite !Z.eqb_eq.
    rewrite Z.rem_divide, Z.mod_divide by discriminate. reflexivity. }
  assert (H100 : (y mod 100 =? 0) = (Z.rem y 100 =? 0)).
  { apply eq_true_iff_eq. rewrite !Z.eqb_eq.
    rewrite Z.rem_divide, Z.mod_divide by discriminate. reflexivity. }
  assert (H400 : (y mod 400 =? 0) = (Z.rem y 400 =? 0)).
  { apply eq_true_iff_eq. rewrite !Z.eqb_eq.
    rewrite Z.rem_divide, Z.mod_divide by discriminate. reflexivity. }
  rewrite H4, H100, H400.
  destruct (Z.rem y 4 =? 0) eqn:E4; destruct (Z.rem y 100 =? 0) eqn:E100;
    destruct (Z.rem y 400 =? 0) eqn:E400; try reflexivity.
  (* divisible by 400 but not by 4: impossible *)
  all: exfalso; apply Z.eqb_eq in E400; apply Z.eqb_neq in E4.
  all: apply Z.rem_divide in E400; [| discriminate]; destruct E400 as [k ->].
  all: apply E4; apply Z.rem_divide; [discriminate |]; exists (100 * k); lia.
Qed.

(** C5.  [totalDaysInYear] of the record is 366 exactly when the instant's
    local year is divisible by 4 and not by 100, or divisible by 400, and
    365 otherwise; it is 366 for 2024 and 2000 and 365 for 2023 and 1900. *)
Theorem totalDaysInYear_leap_rule :
  (forall (tza : TimeZone) (now : Z),
     let y := getFullYear tza now in
     let r := getYearProgressPrecise tza now in
     totalDaysInYear r = totalDaysOf y /\
     (totalDaysInYear r = 366 <-> ((4 | y) /\ ~ (100 | y)) \/ (400 | y)) /\
     (totalDaysInYear r = 365 <->
        ~ (((4 | y) /\ ~ (100 | y)) \/ (400 | y)))) /\
  totalDaysOf 2024 = 366 /\ totalDaysOf 2000 = 366 /\
  totalDaysOf 2023 = 365 /\ totalDaysOf 1900 = 365.
Proof.
  split; [| repeat split; reflexivity].
  intros tza now y r. subst r. cbn [getYearProgressPrecise totalDaysInYear].
  fold y. pose proof (isLeap_divide y) as L.
  unfold totalDaysOf. destruct (isLeap y).
  - split; [reflexivity |]. split.
    + split; intros _; [apply L |]; reflexivity.
    + split; [discriminate |]. intros N. exfalso. apply N, L. reflexivity.
  - split; [reflexivity |]. split.
    + split; [discriminate |]. intros D. apply L in D. discriminate.
    + split; intros _; [| reflexivity]. intros D. apply L in D. discriminate.
Qed.


(** *** Year boundaries *)

Lemma TimeClip_Some (t s : Z) :
  TimeClip t = Some s <-> s = t /\ Z.abs t <= maxTime.
Proof.
  unfold TimeClip, validTime. destruct (Z.abs t <=? maxTime) eqn:E.
  - apply Z.leb_le in E. split.
    + intros H. injection H as <-. split; [reflexivity | exact E].
    + intros [-> _]. reflexivity.
  - apply Z.leb_gt in E. split; [discriminate | intros [_ H]; lia].
Qed.

Lemma newDateJan1_Some (tz : TimeZone) (y s : Z) :
  newDateJan1 tz y = Some s ->
  s = UTC tz (TimeFromYear (fullYearOfArgument y)) /\ Z.abs s <= maxTime.
Proof.
  unfold newDateJan1. intros H. apply TimeClip_Some in H.
  destruct H as [-> H]. split; [reflexivity | exact H].
Qed.

Lemma fullYearOfArgument_plain (y : Z) :
  plainYear y = true -> fullYearOfArgument y = y.
Proof.
  unfold plainYear, fullYearOfArgument. intros H.
  apply negb_true_iff in H. rewrite H. reflexivity.
Qed.

Lemma getFullYear_spec (tz : TimeZone) (now : Z) :
  TimeFromYear (getFullYear tz now) <= now + tz now true
    < TimeFromYear (getFullYear tz now + 1).
Proof. unfold getFullYear, LocalTime. apply YearFromTime_spec. Qed.

Lemma year_length (y : Z) :
  TimeFromYear (y + 1) - TimeFromYear y = msPerDay * totalDaysOf y.
Proof.
  unfold TimeFromYear. rewrite DayFromYear_succ, totalDaysOf_DaysInYear. lia.
Qed.

Lemma totalDaysOf_cases (y : Z) : totalDaysOf y = 365 \/ totalDaysOf y = 366.
Proof. unfold totalDaysOf. destruct (isLeap y); [right | left]; reflexivity. Qed.

Lemma totalMsInYear_cases (tz : TimeZone) (now : Z) :
  totalMsInYear tz now = 31536000000 \/ totalMsInYear tz now = 31622400000.
Proof.
  unfold totalMsInYear.
  destruct (totalDaysOf_cases (getFullYear tz now)) as [-> | ->];
    [left | right]; reflexivity.
Qed.

(** On a host with a constant offset, where neither year argument is in
    the two-digit window and both boundaries are valid dates, the instant
    lies within the computed year and the year has its nominal length. *)
Lemma fixedOffset_year (k now : Z) :
  plainYear (getFullYear (fixedOffset k) now) = true ->
  plainYear (getFullYear (fixedOffset k) now + 1) = true ->
  forall s e : Z,
    startOfYear (fixedOffset k) now = Some s ->
    endOfYear (fixedOffset k) now = Some e ->
    s <= now < e /\ e - s = totalMsInYear (fixedOffset k) now.
Proof.
  intros P0 P1 s e S E.
  apply newDateJan1_Some in S. apply newDateJan1_Some in E.
  destruct S as [-> _]. destruct E as [-> _].
  rewrite (fullYearOfArgument_plain _ P0), (fullYearOfArgument_plain _ P1).
  pose proof (getFullYear_spec (fixedOffset k) now) as G.
  pose proof (year_length (getFullYear (fixedOffset k) now)) as L.
  unfold UTC, fixedOffset, totalMsInYear, msPerDay in *. lia.
Qed.

(** *** The fields of the record *)

Lemma percentage_eq (tz : TimeZone) (now : Z) :
  percentage (getYearProgressPrecise tz now) =
  JS.Math_min (JS.ofZ 100)
    (JS.mul (JS.div (msPassed tz now) (JS.ofZ (totalMsInYear tz now)))
       (JS.ofZ 100)).
Proof.
  unfold getYearProgressPrecise, msPassed, msRemaining, startOfYear, endOfYear,
    totalMsInYear, totalDaysOf.
  cbv zeta.
  cbn [percentage daysPassed daysRemaining totalDaysInYear displayPercentage].
  reflexivity.
Qed.

Lemma daysPassed_eq (tz : TimeZone) (now : Z) :
  daysPassed (getYearProgressPrecise tz now) =
  JS.Math_floor (JS.div (msPassed tz now) (JS.ofZ msPerDay)).
Proof.
  unfold getYearProgressPrecise, msPassed, msRemaining, startOfYear, endOfYear,
    totalMsInYear, totalDaysOf.
  cbv zeta.
  cbn [percentage daysPassed daysRemaining totalDaysInYear displayPercentage].
  reflexivity.
Qed.

Lemma daysRemaining_eq (tz : TimeZone) (now : Z) :
  daysRemaining (getYearProgressPrecise tz now) =
  JS.Math_floor (JS.div (msRemaining tz now) (JS.ofZ msPerDay)).
Proof.
  unfold getYearProgressPrecise, msPassed, msRemaining, startOfYear, endOfYear,
    totalMsInYear, totalDaysOf.
  cbv zeta.
  cbn [percentage daysPassed daysRemaining totalDaysInYear displayPercentage].
  reflexivity.
Qed.

Lemma totalDaysInYear_eq (tz : TimeZone) (now : Z) :
  totalDaysInYear (getYearProgressPrecise tz now) =
  totalDaysOf (getFullYear tz now).
Proof.
  unfold getYearProgressPrecise, msPassed, msRemaining, startOfYear, endOfYear,
    totalMsInYear, totalDaysOf.
  cbv zeta.
  cbn [percentage daysPassed daysRemaining totalDaysInYear displayPercentage].
  reflexivity.
Qed.

Lemma displayPercentage_eq (tz : TimeZone) (now : Z) :
  displayPercentage (getYearProgressPrecise tz now) =
  JS.toFixed PERCENTAGE_PRECISION (percentage (getYearProgressPrecise tz now)).
Proof.
  unfold getYearProgressPrecise, msPassed, msRemaining, startOfYear, endOfYear,
    totalMsInYear, totalDaysOf.
  cbv zeta.
  cbn [percentage daysPassed daysRemaining totalDaysInYear displayPercentage].
  reflexivity.
Qed.

(** *** The elapsed and the remaining milliseconds *)

Lemma msPassed_Some (tz : TimeZone) (now s : Z) :
  startOfYear tz now = Some s ->
  msPassed tz now = JS.round (inject_Z (now - s)).
Proof.
  intros S. unfold msPassed. rewrite S. unfold JS.ofDate, JS.sub, JS.ofZ.
  apply round_comp. unfold Z.sub. rewrite inject_Z_plus, inject_Z_opp.
  reflexivity.
Qed.

Lemma msRemaining_Some (tz : TimeZone) (now e : Z) :
  endOfYear tz now = Some e ->
  msRemaining tz now = JS.round (inject_Z (e - now)).
Proof.
  intros E. unfold msRemaining. rewrite E. unfold JS.ofDate, JS.sub, JS.ofZ.
  apply round_comp. unfold Z.sub. rewrite inject_Z_plus, inject_Z_opp.
  reflexivity.
Qed.

Lemma msPassed_exact (tz : TimeZone) (now s : Z) :
  startOfYear tz now = Some s -> Z.abs (now - s) <= 2 ^ 53 ->
  msPassed tz now = JS.ofZ (now - s).
Proof. intros S B. rewrite (msPassed_Some _ _ _ S). apply round_Z, B. Qed.

Lemma msRemaining_exact (tz : TimeZone) (now e : Z) :
  endOfYear tz now = Some e -> Z.abs (e - now) <= 2 ^ 53 ->
  msRemaining tz now = JS.ofZ (e - now).
Proof. intros E B. rewrite (msRemaining_Some _ _ _ E). apply round_Z, B. Qed.

Lemma msPassed_None (tz : TimeZone) (now : Z) :
  startOfYear tz now = None -> msPassed tz now = JS.NaN.
Proof. intros S. unfold msPassed. rewrite S. reflexivity. Qed.

Lemma msRemaining_None (tz : TimeZone) (now : Z) :
  endOfYear tz now = None -> msRemaining tz now = JS.NaN.
Proof. intros E. unfold msRemaining. rewrite E. reflexivity. Qed.

(** The difference of two valid time values is finite and keeps its
    sign. *)
Lemma round_difference (a : Z) :
  Z.abs a <= 2 ^ 54 ->
  JS.round (inject_Z a) = JS.Finite (Binary64.roundToPrecision (inject_Z a)) /\
  (- inject_Z (2 ^ 54) <= Binary64.roundToPrecision (inject_Z a))%Q /\
  (Binary64.roundToPrecision (inject_Z a) <= inject_Z (2 ^ 54))%Q /\
  (1 <= a -> (1 <= Binary64.roundToPrecision (inject_Z a))%Q) /\
  (a <= -1 -> (Binary64.roundToPrecision (inject_Z a) <= - (1))%Q) /\
  (a = 0 -> (Binary64.roundToPrecision (inject_Z a) == 0)%Q).
Proof.
  intros B.
  assert (RL : Binary64.representable (inject_Z (-1 * 2 ^ 54)))
    by (apply representable_shift; [discriminate | lia]).
  assert (RH : Binary64.representable (inject_Z (1 * 2 ^ 54)))
    by (apply representable_shift; [discriminate | lia]).
  assert (L : (inject_Z (-1 * 2 ^ 54) <= inject_Z a)%Q)
    by (rewrite <- Zle_Qle; lia).
  assert (U : (inject_Z a <= inject_Z (1 * 2 ^ 54))%Q)
    by (rewrite <- Zle_Qle; lia).
  destruct (round_between _ _ _ RL RH L U) as (E & L' & U').
  split; [exact E |]. split; [exact L' |]. split; [exact U' |].
  split; [| split].
  - intros P.
    assert (R1 : (Binary64.roundToPrecision 1 == 1)%Q) by (vm_compute; reflexivity).
    rewrite <- R1. apply roundToPrecision_mono.
    change 1%Q with (inject_Z 1). rewrite <- Zle_Qle. exact P.
  - intros P.
    assert (R1 : (Binary64.roundToPrecision (- (1)) == - (1))%Q)
      by (vm_compute; reflexivity).
    rewrite <- R1. apply roundToPrecision_mono.
    change (- (1))%Q with (inject_Z (-1)). rewrite <- Zle_Qle. exact P.
  - intros ->. vm_compute. reflexivity.
Qed.

Lemma valid_difference (a b : Z) :
  Z.abs a <= maxTime -> Z.abs b <= maxTime -> Z.abs (a - b) <= 2 ^ 54.
Proof.
  unfold maxTime. change (2 ^ 54) with 18014398509481984. lia.
Qed.

(** *** The percentage *)

Lemma percentage_percentageOf (tz : TimeZone) (now : Z) :
  percentage (getYearProgressPrecise tz now) =
  percentageOf (msPassed tz now) (totalMsInYear tz now).
Proof. apply percentage_eq. Qed.

Lemma totalMsInYear_range (tz : TimeZone) (now : Z) :
  1 <= totalMsInYear tz now <= 2 ^ 35.
Proof.
  change (2 ^ 35) with 34359738368.
  destruct (totalMsInYear_cases tz now) as [-> | ->]; lia.
Qed.

Lemma Math_min_cap (x : JS.number) :
  JS.ltb (JS.ofZ 100) (JS.Math_min (JS.ofZ 100) x) = false.
Proof.
  destruct x as [| [|] | x]; try reflexivity.
  unfold JS.Math_min, JS.ofZ, JS.ltb.
  destruct (JS.Qltb x (inject_Z 100)) eqn:E; [| reflexivity].
  unfold JS.Qltb in *. apply negb_true_iff in E. apply negb_false_iff.
  apply Qle_bool_iff.
  destruct (Qlt_le_dec x (inject_Z 100)) as [L | L].
  - apply Qlt_le_weak, L.
  - apply Qle_bool_iff in L. rewrite L in E. discriminate E.
Qed.

Lemma Qltb_true (x y : Q) : JS.Qltb x y = true <-> (x < y)%Q.
Proof.
  unfold JS.Qltb. rewrite negb_true_iff. split.
  - intros E. apply Qnot_le_lt. intros L. apply Qle_bool_iff in L.
    rewrite L in E. discriminate E.
  - intros L. destruct (Qle_bool y x) eqn:E; [| reflexivity].
    apply Qle_bool_iff in E. exfalso. apply (Qlt_not_le _ _ L E).
Qed.

Lemma Qltb_false (x y : Q) : JS.Qltb x y = false <-> (y <= x)%Q.
Proof.
  unfold JS.Qltb. rewrite negb_false_iff. apply Qle_bool_iff.
Qed.

(** The percentage of an instant whose [startOfYear] is a valid date. *)
Lemma percentage_valid (tz : TimeZone) (now s : Z) :
  validTime now = true -> startOfYear tz now = Some s ->
  let T := totalMsInYear tz now in
  let m := Binary64.roundToPrecision (inject_Z (now - s)) in
  percentage (getYearProgressPrecise tz now) =
    JS.Finite (if JS.Qltb (rawPercentage m T) 100 then rawPercentage m T
               else 100%Q) /\
  (now - s <= -1 ->
   (rawPercentage m T <= inject_Z (-1) / inject_Z (2 ^ 35))%Q) /\
  (now - s = 0 -> rawPercentage m T = 0%Q) /\
  (1 <= now - s ->
   (inject_Z 1 / inject_Z (2 ^ 35) <= rawPercentage m T)%Q).
Proof.
  intros V S T m.
  pose proof (totalMsInYear_range tz now) as TR. fold T in TR.
  assert (B : Z.abs (now - s) <= 2 ^ 54).
  { apply valid_difference.
    - apply Z.leb_le. exact V.
    - apply newDateJan1_Some in S. apply S. }
  destruct (round_difference _ B) as (E & L & U & P & N & Z0). fold m in E, L, U, P, N, Z0.
  split; [| split; [| split]].
  - rewrite percentage_percentageOf, (msPassed_Some _ _ _ S), E. fold T.
    apply percentageOf_finite; [exact L | exact U | lia].
  - intros H. apply rawPercentage_neg; [exact TR | apply N, H].
  - intros H. rewrite (rawPercentage_comp _ _ T (Z0 H)).
    apply rawPercentage_zero.
  - intros H. apply rawPercentage_pos; [exact TR | apply P, H].
Qed.

Lemma percentage_invalid (tz : TimeZone) (now : Z) :
  startOfYear tz now = None ->
  percentage (getYearProgressPrecise tz now) = JS.NaN.
Proof.
  intros S. rewrite percentage_percentageOf, (msPassed_None _ _ S). reflexivity.
Qed.

(** C4, counterexample.  At local midnight of 1 January of the year 50 on
    a host on UTC the function takes the year 50 and builds
    [new Date(50, 0, 1)], which is 1 January 1950; the instant is before
    that date and the percentage is negative: the fraction is not in
    [0, 1]. *)
Lemma fraction_negative_in_year_50 :
  validTime jan1_year50 = true /\
  getFullYear utc jan1_year50 = 50 /\
  startOfYear utc jan1_year50 = Some (TimeFromYear 1950) /\
  percentage (getYearProgressPrecise utc jan1_year50) =
    JS.Finite (-6532680558317063 # 34359738368) /\
  ~ fractionInUnitInterval (getYearProgressPrecise utc jan1_year50).
Proof.
  split; [reflexivity |]. split; [reflexivity |]. split; [reflexivity |].
  assert (P : percentage (getYearProgressPrecise utc jan1_year50) =
              JS.Finite (-6532680558317063 # 34359738368))
    by (vm_compute; reflexivity).
  split; [exact P |].
  intros (f & E & L & _). unfold fractionElapsed in E. rewrite P in E.
  injection E as <-. vm_compute in L. apply L. reflexivity.
Qed.

(** C4, as amended.  For every instant the percentage never exceeds 100
    (the cap of [Math.min]), so the fraction never exceeds 1.  There is no
    lower clamp: where the computed start of the year is a valid date the
    percentage is a finite number that is negative exactly when the
    instant is before that date and zero exactly at it.  Where the start
    of the year is not a valid date the percentage is NaN. *)
Theorem fraction_capped_not_floored (tz : TimeZone) (now : Z) :
  let r := getYearProgressPrecise tz now in
  JS.ltb (JS.ofZ 100) (percentage r) = false /\
  (forall f : Q, fractionElapsed r = Some f -> (f <= 1)%Q) /\
  (forall s : Z,
     validTime now = true -> startOfYear tz now = Some s ->
     exists p : Q,
       percentage r = JS.Finite p /\ (p <= 100)%Q /\
       ((p < 0)%Q <-> now < s) /\ ((0 <= p)%Q <-> s <= now) /\
       ((p == 0)%Q <-> now = s)) /\
  (startOfYear tz now = None -> percentage r = JS.NaN).
Proof.
  intros r. subst r.
  assert (C : JS.ltb (JS.ofZ 100)
                (percentage (getYearProgressPrecise tz now)) = false)
    by (rewrite percentage_eq; apply Math_min_cap).
  split; [exact C |]. split; [| split; [| apply percentage_invalid]].
  - intros f E. unfold fractionElapsed in E.
    destruct (percentage (getYearProgressPrecise tz now)) as [| b | p];
      try discriminate E.
    injection E as <-. unfold JS.ltb, JS.ofZ in C. apply Qltb_false in C.
    apply Qle_shift_div_r; [reflexivity |].
    change (inject_Z 100) with 100%Q in C. lra.
  - intros s V S.
    destruct (percentage_valid tz now s V S) as (E & N & Z0 & P).
    set (raw := rawPercentage _ _) in *. clearbody raw.
    change (inject_Z (-1) / inject_Z (2 ^ 35))%Q with (-1 # 34359738368)%Q in N.
    change (inject_Z 1 / inject_Z (2 ^ 35))%Q with (1 # 34359738368)%Q in P.
    eexists. split; [exact E |].
    destruct (JS.Qltb raw 100) eqn:LT;
      [apply Qltb_true in LT | apply Qltb_false in LT].
    + destruct (Z_lt_le_dec now s) as [A | A].
      * assert (H : (raw <= -1 # 34359738368)%Q) by (apply N; lia).
        repeat split; intros; try lra; try lia.
      * destruct (Z.eq_dec now s) as [-> | D].
        -- rewrite Z0 by lia. repeat split; intros; try lra; try lia;
             try reflexivity.
        -- assert (H : (1 # 34359738368 <= raw)%Q) by (apply P; lia).
           repeat split; intros; try lra; try lia.
    + destruct (Z_lt_le_dec now s) as [A | A].
      * assert (H : (raw <= -1 # 34359738368)%Q) by (apply N; lia).
        exfalso. lra.
      * destruct (Z.eq_dec now s) as [-> | D].
        -- rewrite Z0 in LT by lia. exfalso. lra.
        -- repeat split; intros; try lra; try lia; try discriminate.
Qed.

Lemma fraction_capped_not_floored_witness :
  validTime (jan1_2024 + 183 * msPerDay) = true /\
  startOfYear utc (jan1_2024 + 183 * msPerDay) = Some jan1_2024 /\
  exists p : Q,
    percentage (getYearProgressPrecise utc (jan1_2024 + 183 * msPerDay)) =
      JS.Finite p /\ (0 <= p)%Q.
Proof.
  split; [reflexivity |]. split; [reflexivity |].
  destruct (proj1 (proj2 (proj2
              (fraction_capped_not_floored utc (jan1_2024 + 183 * msPerDay))))
              jan1_2024 eq_refl eq_refl) as (p & E & _ & _ & G & _).
  exists p. split; [exact E |]. apply G. vm_compute. discriminate.
Defined.

(** *** The day counters *)

Lemma daysPassed_exact (tz : TimeZone) (now s : Z) :
  startOfYear tz now = Some s -> Z.abs (now - s) <= 2 ^ 52 ->
  daysPassed (getYearProgressPrecise tz now) = JS.ofZ ((now - s) / msPerDay).
Proof.
  intros S B. rewrite daysPassed_eq, (msPassed_exact _ _ _ S).
  - apply daysOf_exact, B.
  - change (2 ^ 52) with 4503599627370496 in B.
    change (2 ^ 53) with 9007199254740992. lia.
Qed.

Lemma daysRemaining_exact (tz : TimeZone) (now e : Z) :
  endOfYear tz now = Some e -> Z.abs (e - now) <= 2 ^ 52 ->
  daysRemaining (getYearProgressPrecise tz now) = JS.ofZ ((e - now) / msPerDay).
Proof.
  intros E B. rewrite daysRemaining_eq, (msRemaining_exact _ _ _ E).
  - apply daysOf_exact, B.
  - change (2 ^ 52) with 4503599627370496 in B.
    change (2 ^ 53) with 9007199254740992. lia.
Qed.

Lemma daysPassed_invalid (tz : TimeZone) (now : Z) :
  startOfYear tz now = None ->
  daysPassed (getYearProgressPrecise tz now) = JS.NaN.
Proof. intros S. rewrite daysPassed_eq, (msPassed_None _ _ S). reflexivity. Qed.

Lemma daysRemaining_invalid (tz : TimeZone) (now : Z) :
  endOfYear tz now = None ->
  daysRemaining (getYearProgressPrecise tz now) = JS.NaN.
Proof.
  intros E. rewrite daysRemaining_eq, (msRemaining_None _ _ E). reflexivity.
Qed.


(** The two-digit rule moves a year by 1900 years, some 6e13 ms. *)
Lemma fullYearOfArgument_shift (y : Z) :
  0 <= TimeFromYear (fullYearOfArgument y) - TimeFromYear y <= 60000000000000.
Proof.
  unfold fullYearOfArgument.
  destruct ((0 <=? y) && (y <=? 99)) eqn:E; [| lia].
  apply andb_true_iff in E. destruct E as [A B].
  apply Z.leb_le in A, B.
  unfold TimeFromYear, DayFromYear, msPerDay. Z.div_mod_to_equations. lia.
Qed.

(** On a host with offsets of at most a day the instant and each boundary
    are within 2^52 ms of each other. *)
Lemma bounded_offsets_start (tz : TimeZone) (now s : Z) :
  boundedOffsets tz -> startOfYear tz now = Some s ->
  Z.abs (now - s) <= 2 ^ 52.
Proof.
  intros B S. apply newDateJan1_Some in S. destruct S as [-> _].
  pose proof (getFullYear_spec tz now) as G.
  pose proof (year_length (getFullYear tz now)) as L.
  pose proof (totalDaysOf_cases (getFullYear tz now)) as C.
  pose proof (fullYearOfArgument_shift (getFullYear tz now)) as F.
  pose proof (B now true) as B1.
  pose proof (B (TimeFromYear (fullYearOfArgument (getFullYear tz now))) false)
    as B2.
  unfold UTC, msPerDay in *. change (2 ^ 52) with 4503599627370496. lia.
Qed.

Lemma bounded_offsets_end (tz : TimeZone) (now e : Z) :
  boundedOffsets tz -> endOfYear tz now = Some e ->
  Z.abs (e - now) <= 2 ^ 52.
Proof.
  intros B E. apply newDateJan1_Some in E. destruct E as [-> _].
  pose proof (getFullYear_spec tz now) as G.
  pose proof (year_length (getFullYear tz now)) as L.
  pose proof (totalDaysOf_cases (getFullYear tz now)) as C.
  pose proof (fullYearOfArgument_shift (getFullYear tz now + 1)) as F.
  pose proof (B now true) as B1.
  pose proof (B (TimeFromYear (fullYearOfArgument (getFullYear tz now + 1)))
                false) as B2.
  unfold UTC, msPerDay in *. change (2 ^ 52) with 4503599627370496. lia.
Qed.

Lemma fixedOffset_bounded (k : Z) :
  Z.abs k <= msPerDay -> boundedOffsets (fixedOffset k).
Proof. intros H t b. exact H. Qed.

Lemma pyongyang_bounded : boundedOffsets pyongyang.
Proof.
  intros t b. unfold pyongyang.
  destruct ((_ <=? t) && (t <? _)); vm_compute; discriminate.
Qed.

(** The year of the instant at which a plain year begins on a host with a
    constant offset is that year, and the year of the millisecond before
    is the year before. *)
Lemma getFullYear_at_start (k y : Z) :
  getFullYear (fixedOffset k) (TimeFromYear y - k) = y.
Proof.
  unfold getFullYear, LocalTime, fixedOffset. apply YearFromTime_unique.
  pose proof (year_length y). pose proof (totalDaysOf_cases y).
  unfold msPerDay in *. lia.
Qed.

Lemma getFullYear_before_start (k y : Z) :
  getFullYear (fixedOffset k) (TimeFromYear (y + 1) - k - 1) = y.
Proof.
  unfold getFullYear, LocalTime, fixedOffset. apply YearFromTime_unique.
  pose proof (year_length y). pose proof (totalDaysOf_cases y).
  unfold msPerDay in *. lia.
Qed.

Lemma newDateJan1_fixed (k y : Z) :
  plainYear y = true -> validTime (TimeFromYear y - k) = true ->
  newDateJan1 (fixedOffset k) y = Some (TimeFromYear y - k).
Proof.
  intros P V. unfold newDateJan1. rewrite (fullYearOfArgument_plain _ P).
  unfold UTC, fixedOffset, TimeClip. rewrite V. reflexivity.
Qed.




(** C7.  [daysPassed] is the floor of the milliseconds since the start of
    the year over one day of 86,400,000 ms, so the current partial day is
    not counted, and [daysRemaining] is the floor of the milliseconds up to
    the end of the year over one day, wherever the boundary is a valid
    date within 2^52 ms of the instant, as it is on every host whose
    offsets are at most a day; at the instant a year starts [daysPassed]
    is 0 and one millisecond before the next year starts [daysRemaining]
    is 0, and on a host with a constant offset both instants exist for
    every year outside the two-digit window. *)
Theorem day_counts_are_floors :
  msPerDay = 86400000 /\
  (forall (tz : TimeZone) (now s : Z),
     startOfYear tz now = Some s -> Z.abs (now - s) <= 2 ^ 52 ->
     exists d : Z,
       daysPassed (getYearProgressPrecise tz now) = JS.ofZ d /\
       msPerDay * d <= now - s < msPerDay * (d + 1)) /\
  (forall (tz : TimeZone) (now e : Z),
     endOfYear tz now = Some e -> Z.abs (e - now) <= 2 ^ 52 ->
     exists d : Z,
       daysRemaining (getYearProgressPrecise tz now) = JS.ofZ d /\
       msPerDay * d <= e - now < msPerDay * (d + 1)) /\
  (forall (tz : TimeZone) (now s e : Z),
     boundedOffsets tz ->
     (startOfYear tz now = Some s -> Z.abs (now - s) <= 2 ^ 52) /\
     (endOfYear tz now = Some e -> Z.abs (e - now) <= 2 ^ 52)) /\
  (forall (tz : TimeZone) (now : Z),
     startOfYear tz now = Some now ->
     daysPassed (getYearProgressPrecise tz now) = JS.ofZ 0) /\
  (forall (tz : TimeZone) (now : Z),
     endOfYear tz now = Some (now + 1) ->
     daysRemaining (getYearProgressPrecise tz now) = JS.ofZ 0) /\
  (forall k y : Z,
     plainYear y = true -> validTime (TimeFromYear y - k) = true ->
     startOfYear (fixedOffset k) (TimeFromYear y - k) =
       Some (TimeFromYear y - k)) /\
  (forall k y : Z,
     plainYear (y + 1) = true ->
     validTime (TimeFromYear (y + 1) - k) = true ->
     endOfYear (fixedOffset k) (TimeFromYear (y + 1) - k - 1) =
       Some (TimeFromYear (y + 1) - k - 1 + 1)).
Proof.
  split; [reflexivity |].
  split; [| split; [| split; [| split; [| split; [| split]]]]].
  - intros tz now s S B. exists ((now - s) / msPerDay).
    split; [apply daysPassed_exact; assumption |].
    unfold msPerDay. Z.div_mod_to_equations. lia.
  - intros tz now e E B. exists ((e - now) / msPerDay).
    split; [apply daysRemaining_exact; assumption |].
    unfold msPerDay. Z.div_mod_to_equations. lia.
  - intros tz now s e B. split.
    + apply bounded_offsets_start, B.
    + apply bounded_offsets_end, B.
  - intros tz now S.
    rewrite (daysPassed_exact _ _ _ S); rewrite Z.sub_diag;
      [reflexivity | discriminate].
  - intros tz now E.
    rewrite (daysRemaining_exact _ _ _ E);
      replace (now + 1 - now) with 1 by lia; [reflexivity | discriminate].
  - intros k y P V. unfold startOfYear. rewrite getFullYear_at_start.
    apply newDateJan1_fixed; assumption.
  - intros k y P V. unfold endOfYear. rewrite getFullYear_before_start.
    replace (TimeFromYear (y + 1) - k - 1 + 1) with (TimeFromYear (y + 1) - k)
      by lia.
    apply newDateJan1_fixed; assumption.
Qed.

Lemma day_counts_are_floors_witness :
  startOfYear utc jan1_2024 = Some jan1_2024 /\
  daysPassed (getYearProgressPrecise utc jan1_2024) = JS.ofZ 0 /\
  endOfYear utc (TimeFromYear 2025 - 1) = Some (TimeFromYear 2025 - 1 + 1) /\
  daysRemaining (getYearProgressPrecise utc (TimeFromYear 2025 - 1)) = JS.ofZ 0.
Proof.
  destruct day_counts_are_floors as (_ & _ & _ & _ & S & E & _).
  split; [reflexivity |]. split; [apply (S utc jan1_2024); reflexivity |].
  split; [reflexivity |]. apply (E utc (TimeFromYear 2025 - 1)). reflexivity.
Defined.

(** * The clipboard text *)

Section ClipboardFacts.

Import Binary64.

Lemma concat_repeat_unit (c : N) (n : nat) :
  concat (repeat [c] n) = repeat c n.
Proof. induction n as [| n IH]; [reflexivity |]. cbn. rewrite IH. reflexivity. Qed.

Lemma String_repeat_unit (c : N) (k : Z) :
  0 <= k -> JS.String_repeat [c] (JS.ofZ k) = Some (repeat c (Z.to_nat k)).
Proof.
  intros H. unfold JS.String_repeat, JS.ofZ, inject_Z. cbn [Qnum Qden].
  rewrite Z.quot_1_r.
  destruct (k <? 0) eqn:E; [apply Z.ltb_lt in E; lia |].
  rewrite concat_repeat_unit. reflexivity.
Qed.

(** For a non-negative number [toFixed(0)] writes the digits of the
    nearest integer, the larger one on a tie. *)
Lemma toFixed_0_nonneg (p : Q) :
  (0 <= p)%Q -> JS.toFixed 0 (JS.Finite p) = JS.decimal (JS.roundHalfUp p).
Proof.
  intros H. unfold JS.toFixed, JS.toFixedFinite, JS.Qltb, JS.roundHalfUp.
  apply Qle_bool_iff in H. rewrite H. cbn [negb app].
  f_equal. apply Qfloor_comp.
  change (inject_Z (10 ^ Z.of_nat 0)) with 1%Q. rewrite Qmult_1_r. reflexivity.
Qed.

Lemma uintOfUnits_unitsOfUint (d : Decimal.uint) :
  uintOfUnits (JS.unitsOfUint d) = Some d.
Proof. induction d; cbn; rewrite ?IHd; reflexivity. Qed.

Lemma parseDigits_decimal (n : Z) : 0 <= n -> parseDigits (JS.decimal n) = Some n.
Proof.
  intros H. unfold parseDigits, JS.decimal.
  rewrite uintOfUnits_unitsOfUint, Unsigned.of_to, Z2N.id by exact H.
  reflexivity.
Qed.

(** The digits [JS.decimal] writes have no leading zero. *)
Lemma decimal_canonical (n : Z) :
  JS.decimal n = [48%N] \/
  exists c rest, JS.decimal n = c :: rest /\ c <> 48%N.
Proof.
  unfold JS.decimal. set (d := N.to_uint (Z.to_N n)).
  assert (E : d = Decimal.unorm d).
  { subst d. rewrite <- (Unsigned.to_of (N.to_uint (Z.to_N n))).
    rewrite Unsigned.of_to. reflexivity. }
  rewrite E. unfold Decimal.unorm.
  pose proof (DecimalFacts.nzhead_nonzero d) as NZ.
  destruct (Decimal.nzhead d) as [| u | u | u | u | u | u | u | u | u | u].
  - left. reflexivity.
  - exfalso. apply (NZ u). reflexivity.
  - right. eexists. eexists. split; [reflexivity | discriminate].
  - right. eexists. eexists. split; [reflexivity | discriminate].
  - right. eexists. eexists. split; [reflexivity | discriminate].
  - right. eexists. eexists. split; [reflexivity | discriminate].
  - right. eexists. eexists. split; [reflexivity | discriminate].
  - right. eexists. eexists. split; [reflexivity | discriminate].
  - right. eexists. eexists. split; [reflexivity | discriminate].
  - right. eexists. eexists. split; [reflexivity | discriminate].
  - right. eexists. eexists. split; [reflexivity | discriminate].
Qed.

Lemma decimal_numeralOf (n : Z) : 0 <= n -> numeralOf n (JS.decimal n).
Proof.
  intros H. split; [apply parseDigits_decimal, H | apply decimal_canonical].
Qed.

Lemma roundHalfUp_iff (x : Q) (k : Z) :
  JS.roundHalfUp x = k <->
  (inject_Z k - (1 # 2) <= x /\ x < inject_Z k + (1 # 2))%Q.
Proof.
  unfold JS.roundHalfUp. rewrite Qfloor_iff, inject_Z_plus.
  change (inject_Z 1) with 1%Q. split; intros [A B]; split; lra.
Qed.

Lemma roundHalfUp_mono (x y : Q) :
  (x <= y)%Q -> JS.roundHalfUp x <= JS.roundHalfUp y.
Proof.
  intros H. unfold JS.roundHalfUp. apply Qfloor_resp_le. lra.
Qed.

(** *** The number of filled blocks *)

Lemma blockWidth_value :
  blockWidth = JS.Finite (7505999378950827 # 1125899906842624).
Proof. vm_compute. reflexivity. Qed.

Lemma quotient_by_width (p : Q) :
  JS.div (JS.Finite p) blockWidth =
  JS.round (p * (1125899906842624 # 7505999378950827)).
Proof.
  rewrite blockWidth_value. unfold JS.div.
  change (Qeq_bool (7505999378950827 # 1125899906842624) 0) with false.
  apply round_comp. field.
Qed.

(** For a percentage from 0 to 100 the binary64 quotient is a number from
    0 to 15 within 2^-47 of 15 percentage / 100. *)
Lemma quotient_in_range (p : Q) :
  (0 <= p)%Q -> (p <= 100)%Q ->
  let q := roundToPrecision (p * (1125899906842624 # 7505999378950827)) in
  JS.div (JS.Finite p) blockWidth = JS.Finite q /\
  (0 <= q)%Q /\ (q <= 15)%Q /\
  (Qabs (q - p * (3 # 20)) <= 1 # 140737488355328)%Q.
Proof.
  intros L U q. rewrite quotient_by_width.
  assert (R0 : representable (inject_Z 0)) by (apply representable_Z; discriminate).
  assert (R15 : representable (inject_Z 15))
    by (apply representable_Z; discriminate).
  set (x := (p * (1125899906842624 # 7505999378950827))%Q) in *.
  assert (X0 : (inject_Z 0 <= x)%Q) by (subst x; change (inject_Z 0) with 0%Q; lra).
  assert (X1 : (x <= inject_Z 15)%Q)
    by (subst x; change (inject_Z 15) with 15%Q; lra).
  destruct (round_between x _ _ R0 R15 X0 X1) as (E & A & B).
  fold q in E, A, B. split; [exact E |].
  change (inject_Z 0) with 0%Q in A. change (inject_Z 15) with 15%Q in B.
  split; [exact A |]. split; [exact B |].
  pose proof (roundToPrecision_error_any x) as ER. fold q in ER.
  assert (AX : (Qabs x == x)%Q)
    by (apply Qabs_pos; change (inject_Z 0) with 0%Q in X0; exact X0).
  rewrite AX in ER.
  assert (T : ((1 # 2) / inject_Z scale <= 1 # 9007199254740992)%Q)
    by (vm_compute; discriminate).
  change (inject_Z (2 ^ 53)) with 9007199254740992%Q in ER.
  assert (D : (x / 9007199254740992 == x * (1 # 9007199254740992))%Q) by field.
  rewrite D in ER.
  set (t := ((1 # 2) / inject_Z scale)%Q) in *. clearbody t.
  apply Qabs_Qle_condition in ER. apply Qabs_Qle_condition.
  change (inject_Z 15) with 15%Q in X1. change (inject_Z 0) with 0%Q in X0.
  clearbody q. subst x. destruct ER as [E1 E2]. split; lra.
Qed.

Lemma numFilled_in_range (p : Q) :
  (0 <= p)%Q -> (p <= 100)%Q ->
  let n :=
    JS.roundHalfUp
      (roundToPrecision (p * (1125899906842624 # 7505999378950827))) in
  numFilledOf (JS.Finite p) = JS.ofZ n /\ 0 <= n <= 15 /\
  (p * (3 # 20) - (1 # 2) - (1 # 140737488355328) <= inject_Z n)%Q /\
  (inject_Z n <= p * (3 # 20) + (1 # 2) + (1 # 140737488355328))%Q.
Proof.
  intros L U n. destruct (quotient_in_range p L U) as (E & A & B & ER).
  set (q := roundToPrecision _) in *.
  unfold numFilledOf. rewrite E. cbn [JS.Math_round]. fold n.
  split; [reflexivity |].
  assert (N0 : 0 <= n).
  { subst n. change 0 with (JS.roundHalfUp 0). apply roundHalfUp_mono, A. }
  assert (N15 : n <= 15).
  { subst n. change 15 with (JS.roundHalfUp 15). apply roundHalfUp_mono, B. }
  split; [lia |].
  assert (K : JS.roundHalfUp q = n) by reflexivity.
  apply roundHalfUp_iff in K. apply Qabs_Qle_condition in ER.
  clearbody q n. destruct K, ER. split; lra.
Qed.

Lemma numFilled_mono (p1 p2 : Q) :
  (p1 <= p2)%Q ->
  JS.roundHalfUp
    (roundToPrecision (p1 * (1125899906842624 # 7505999378950827))) <=
  JS.roundHalfUp
    (roundToPrecision (p2 * (1125899906842624 # 7505999378950827))).
Proof.
  intros H. apply roundHalfUp_mono, roundToPrecision_mono. lra.
Qed.

Lemma clipboardTextOf_eq (p : JS.number) :
  clipboardTextOf p =
  match JS.String_repeat CLIPBOARD_BLOCK_FILLED (numFilledOf p),
        JS.String_repeat CLIPBOARD_BLOCK_EMPTY
          (JS.sub (JS.ofZ CLIPBOARD_BLOCKS_TOTAL) (numFilledOf p)) with
  | Some filled, Some empty =>
      Some (filled ++ empty ++ 32%N :: JS.toFixed 0 p ++ [37%N])
  | _, _ => None
  end.
Proof. reflexivity. Qed.

(** The text for a percentage from 0 to 100. *)
Lemma clipboardTextOf_bar (p : Q) :
  (0 <= p)%Q -> (p <= 100)%Q ->
  let n :=
    JS.roundHalfUp
      (roundToPrecision (p * (1125899906842624 # 7505999378950827))) in
  clipboardTextOf (JS.Finite p) =
    Some (repeat 9619%N (Z.to_nat n) ++ repeat 9617%N (Z.to_nat (15 - n)) ++
          32%N :: JS.decimal (JS.roundHalfUp p) ++ [37%N]).
Proof.
  intros L U n. destruct (numFilled_in_range p L U) as (E & B & _).
  fold n in E, B. rewrite clipboardTextOf_eq, E.
  unfold CLIPBOARD_BLOCK_FILLED, CLIPBOARD_BLOCK_EMPTY, CLIPBOARD_BLOCKS_TOTAL.
  rewrite (String_repeat_unit 9619 n) by lia.
  rewrite sub_exact by (change (2 ^ 53) with 9007199254740992; lia).
  rewrite (String_repeat_unit 9617 (15 - n)) by lia.
  rewrite (toFixed_0_nonneg p L). reflexivity.
Qed.

(** A percentage that is not a number gives the text " NaN%", without a
    bar. *)
Example clipboard_text_of_NaN :
  clipboardTextOf JS.NaN = Some [32; 78; 97; 78; 37]%N.
Proof. reflexivity. Qed.

(** The stored percentage 56.666666666666664, that is
    7975124340135253 / 2^47: fifteen hundredths of it is
    below 8.5, but the binary64 quotient by the binary64 value of 100/15
    is exactly 8.5, so the text has nine filled blocks. *)
Example clipboard_text_at_a_tie :
  let p := (7975124340135253 # 140737488355328)%Q in
  (p * (3 # 20) < 17 # 2)%Q /\
  JS.div (JS.Finite p) blockWidth = JS.Finite (17 # 2) /\
  clipboardTextOf (JS.Finite p) =
    Some (repeat 9619%N 9 ++ repeat 9617%N 6 ++ [32; 53; 55; 37]%N).
Proof.
  split; [reflexivity |]. split; vm_compute; reflexivity.
Qed.

(** C9.  For a stored percentage from 0 to 100 the text written to the
    clipboard is a bar of exactly 15 block glyphs, [Math.round(percentage
    / (100 / 15))] filled ones followed by the remaining empty ones, then
    a space, the numeral of the percentage rounded to no decimals, and a
    percent sign.  The number of filled glyphs is from 0 to 15 and is the
    integer nearest to 15 percentage / 100, up to the 2^-47 by which the
    binary64 quotient can differ from it. *)
Theorem clipboard_text_format
    (w : Script.World) (r : ProgressRecord) (p : Q) :
  Script.currentProgressData w = Some r ->
  percentage r = JS.Finite p -> (0 <= p)%Q -> (p <= 100)%Q ->
  exists (numFilled whole : Z) (digits : JS.str),
    JS.Math_round
      (JS.div (percentage r) (JS.div (JS.ofZ 100) (JS.ofZ 15))) =
      JS.ofZ numFilled /\
    0 <= numFilled <= 15 /\
    (p * (3 # 20) - (1 # 2) - (1 # 140737488355328) <= inject_Z numFilled /\
     inject_Z numFilled <= p * (3 # 20) + (1 # 2) + (1 # 140737488355328))%Q /\
    fst (Script.copyToClipboard w) =
      CopyWrote
        (repeat 9619%N (Z.to_nat numFilled) ++
         repeat 9617%N (Z.to_nat (15 - numFilled)) ++
         [32%N] ++ digits ++ [37%N]) /\
    length (repeat 9619%N (Z.to_nat numFilled) ++
            repeat 9617%N (Z.to_nat (15 - numFilled))) = 15%nat /\
    numeralOf whole digits /\
    (inject_Z whole - (1 # 2) <= p /\ p < inject_Z whole + (1 # 2))%Q.
Proof.
  intros S P L U.
  destruct (numFilled_in_range p L U) as (E & B & B1 & B2).
  set (n := JS.roundHalfUp _) in *.
  exists n, (JS.roundHalfUp p), (JS.decimal (JS.roundHalfUp p)).
  split; [rewrite P; exact E |]. split; [exact B |].
  split; [split; assumption |]. split; [| split; [| split]].
  - unfold Script.copyToClipboard. rewrite S, P.
    rewrite (clipboardTextOf_bar p L U). fold n. reflexivity.
  - rewrite length_app, !repeat_length. lia.
  - apply decimal_numeralOf.
    change 0 with (JS.roundHalfUp 0). apply roundHalfUp_mono, L.
  - apply roundHalfUp_iff. reflexivity.
Qed.

End ClipboardFacts.

(** * [script.js]: the scheduler *)

Section ScriptFacts.

Import Script.

(** ** What the passing of time changes *)

Lemma fold_updateUI_preserves {A : Type} (f : World -> A) :
  (forall w d, f (updateUI (set_clock d w)) = f w) ->
  forall (l : list (Z * Z)) (w : World),
    f (fold_left (fun w p => updateUI (set_clock (snd p) w)) l w) = f w.
Proof.
  intros H l. induction l as [| p l IH]; intros w; [reflexivity |].
  cbn [fold_left]. rewrite IH. apply H.
Qed.

Local Ltac advance_field :=
  intros; unfold advance; cbn;
  match goal with
  | |- ?f (fold_left _ _ _) = _ =>
      rewrite (fold_updateUI_preserves f) by reflexivity; reflexivity
  end.

Lemma advance_timeouts (t : Z) (w : World) :
  timeouts (advance t w) = filter (fun p => negb (snd p <=? t)) (timeouts w).
Proof. advance_field. Qed.

Lemma advance_intervals (t : Z) (w : World) :
  intervals (advance t w) = intervals w.
Proof. advance_field. Qed.

Lemma advance_updateTimer (t : Z) (w : World) :
  updateTimer (advance t w) = updateTimer w.
Proof. advance_field. Qed.

Lemma advance_debounceTimeout (t : Z) (w : World) :
  debounceTimeout (advance t w) = debounceTimeout w.
Proof. advance_field. Qed.

Lemma advance_clickListeners (t : Z) (w : World) :
  clickListeners (advance t w) = clickListeners w.
Proof. advance_field. Qed.

(** Nothing is due: only the clock moves. *)
Lemma advance_nothing_due (t : Z) (w : World) :
  forallb (fun p => negb (snd p <=? t)) (timeouts w) = true ->
  advance t w = set_clock t w.
Proof.
  intros H. unfold advance.
  assert (D : filter (fun p => snd p <=? t) (timeouts w) = []).
  { induction (timeouts w) as [| p l IH]; [reflexivity |].
    cbn in H |- *. apply andb_true_iff in H. destruct H as [Hp Hl].
    apply negb_true_iff in Hp. rewrite Hp. apply IH, Hl. }
  assert (R : filter (fun p => negb (snd p <=? t)) (timeouts w) = timeouts w).
  { induction (timeouts w) as [| p l IH]; [reflexivity |].
    cbn in H |- *. apply andb_true_iff in H. destruct H as [Hp Hl].
    rewrite Hp. f_equal. apply IH; [exact Hl |].
    cbn in D. apply negb_true_iff in Hp. rewrite Hp in D. exact D. }
  rewrite D, R. destruct w; reflexivity.
Qed.

(** Once a record is stored, one stays stored. *)
Lemma advance_keeps_record (t : Z) (w : World) :
  currentProgressData w <> None -> currentProgressData (advance t w) <> None.
Proof.
  intros H. unfold advance. cbn.
  set (w0 := set_timers _ _ _ w).
  assert (H0 : currentProgressData w0 <> None) by exact H.
  clearbody w0. clear H.
  induction (filter (fun p => snd p <=? t) (timeouts w)) as [| p l IH]
    in w0, H0 |- *; [exact H0 |].
  cbn [fold_left]. apply IH. discriminate.
Qed.

(** ** A record is stored before the copy listener exists *)

Local Opaque getYearProgressPrecise clipboardTextOf.

Local Ltac case_handlers :=
  repeat (cbn in *;
    match goal with
    | |- context [if ?b then _ else _] => is_var b; destruct b
    | |- context [negb ?b] => is_var b; destruct b
    | |- context [andb ?b _] => is_var b; destruct b
    | |- context [match ?x with _ => _ end] => is_var x; destruct x
    | |- context [?a =? ?b] => destruct (Z.eqb_spec a b)
    | |- context [clipboardTextOf ?q] => destruct (clipboardTextOf q)
    | |- context [existsb ?f ?l] => destruct (existsb f l)
    end);
  cbn in *.

Lemma dispatch_recordBeforeListeners (e : Event) (w : World) :
  recordBeforeListeners w -> recordBeforeListeners (dispatch e w).
Proof.
  unfold recordBeforeListeners. intros I.
  destruct e; destruct w; unfold dispatch, domContentLoaded, setLanguage,
    handleVisibilityChange, debouncedUpdateUI, copyToClipboard, exportClick,
    exportBegin, exportFinally, cleanup, updateUI, clearInterval,
    clearTimeout, clearTimer, setInterval, setTimeout;
    case_handlers; try discriminate; try congruence; auto.
Qed.

Lemma step_recordBeforeListeners (w : World) (te : Z * Event) :
  recordBeforeListeners w -> recordBeforeListeners (step w te).
Proof.
  intros I. unfold step. apply dispatch_recordBeforeListeners.
  unfold recordBeforeListeners in *. rewrite advance_clickListeners.
  intros L. apply advance_keeps_record, I, L.
Qed.

Lemma run_recordBeforeListeners (tes : list (Z * Event)) (w : World) :
  recordBeforeListeners w -> recordBeforeListeners (run w tes).
Proof.
  revert w. induction tes as [| te tes IH]; intros w I; [exact I |].
  cbn [run fold_left]. apply IH, step_recordBeforeListeners, I.
Qed.

Lemma copy_guard_iff (w : World) :
  fst (copyToClipboard w) = CopyGuardReturn <-> currentProgressData w = None.
Proof.
  unfold copyToClipboard. destruct (currentProgressData w) as [r |].
  - destruct (clipboardTextOf (percentage r)); cbn; split; discriminate.
  - cbn. split; reflexivity.
Qed.

(** C10.  Initialization stores a record (through [setLanguage] and
    [updateUI]) before it attaches the click listeners, and no event
    removes a stored record: in every state the page reaches in which the
    copy listener is attached a record is stored, so the guard of
    [copyToClipboard] does not return there. *)
Theorem copy_guard_unreachable_after_startup
    (tza : TimeZone) (t : Z) (isHidden : bool) (tes : list (Z * Event)) :
  clickListeners (loaded tza t isHidden) = false /\
  (forall lang w,
     currentProgressData (setLanguage lang w) <> None /\
     clickListeners (domContentLoaded lang w) = true /\
     currentProgressData (domContentLoaded lang w) <> None) /\
  (let w := run (loaded tza t isHidden) tes in
   clickListeners w = true ->
   currentProgressData w <> None /\
   forall t', fst (copyToClipboard (advance t' w)) <> CopyGuardReturn).
Proof.
  split; [reflexivity |]. split.
  - intros lang w. unfold domContentLoaded, setLanguage, updateUI, setInterval.
    destruct w as [? ? h ? ? ? ? ? ? ? ? ? ? ? ? ?]. destruct h; cbn;
      repeat split; discriminate.
  - intros w L.
    assert (I : recordBeforeListeners w)
      by (apply run_recordBeforeListeners; intros C; discriminate C).
    split; [exact (I L) |].
    intros t' G. apply copy_guard_iff in G.
    revert G. apply advance_keeps_record, I, L.
Qed.

Lemma copy_guard_unreachable_after_startup_witness :
  clickListeners
    (run (loaded utc jan1_2024 false) [(jan1_2024, DOMContentLoaded en)]) = true /\
  currentProgressData
    (run (loaded utc jan1_2024 false) [(jan1_2024, DOMContentLoaded en)]) <> None.
Proof.
  split; [reflexivity |].
  apply (copy_guard_unreachable_after_startup utc jan1_2024 false
           [(jan1_2024, DOMContentLoaded en)]).
  reflexivity.
Defined.

(** ** The debounced update *)

Lemma last_cons {A : Type} (l : list A) :
  forall a d : A, last (a :: l) d = last l a.
Proof.
  induction l as [| b l IH]; intros a d; [reflexivity |].
  change (last (a :: b :: l) d) with (last (b :: l) d).
  rewrite (IH b d), (IH b a). reflexivity.
Qed.

Lemma debouncedUpdateUI_cases (w : World) :
  onePending w ->
  timeouts (debouncedUpdateUI w) = [(nextTimer w, clock w + DEBOUNCE_DELAY)] /\
  debounceTimeout (debouncedUpdateUI w) = Some (nextTimer w) /\
  rendered (debouncedUpdateUI w) = rendered w /\
  currentProgressData (debouncedUpdateUI w) = currentProgressData w /\
  LocalTZA (debouncedUpdateUI w) = LocalTZA w.
Proof.
  unfold onePending, debouncedUpdateUI, clearTimeout, clearTimer, setTimeout.
  destruct w as [? ? ? ? ? tos ? ? ? ? ? ? ? ? ? db]. cbn.
  destruct tos as [| [h d] [| q tos]]; intros P; [| | contradiction].
  - destruct db; cbn; repeat split; reflexivity.
  - cbn in P. subst db. cbn. rewrite Z.eqb_refl. cbn. repeat split; reflexivity.
Qed.

Lemma advance_onePending (t : Z) (w : World) :
  onePending w -> onePending (advance t w).
Proof.
  unfold onePending. rewrite advance_timeouts, advance_debounceTimeout.
  destruct (timeouts w) as [| p [| q l]]; intros P; [exact I | | contradiction].
  cbn. destruct (negb (snd p <=? t)); [exact P | exact I].
Qed.

Lemma armedAt_onePending (w : World) (t h : Z) : armedAt w t h -> onePending w.
Proof. unfold armedAt, onePending. intros [-> ->]. reflexivity. Qed.

Lemma advance_before_due (w : World) (t h T : Z) :
  armedAt w t h -> T < t + DEBOUNCE_DELAY -> advance T w = set_clock T w.
Proof.
  intros [A _] H. apply advance_nothing_due. rewrite A. cbn.
  destruct (Z.leb_spec (t + DEBOUNCE_DELAY) T); [lia | reflexivity].
Qed.

Lemma advance_after_due (w : World) (t h T : Z) :
  armedAt w t h -> t + DEBOUNCE_DELAY <= T ->
  rendered (advance T w) =
    rendered w ++ [getYearProgressPrecise (LocalTZA w) (t + DEBOUNCE_DELAY)] /\
  currentProgressData (advance T w) =
    Some (getYearProgressPrecise (LocalTZA w) (t + DEBOUNCE_DELAY)) /\
  timeouts (advance T w) = [].
Proof.
  intros [A _] H. unfold advance. rewrite A. cbn.
  destruct (Z.leb_spec (t + DEBOUNCE_DELAY) T); [| lia].
  cbn. repeat split; reflexivity.
Qed.

Lemma trigger_arms (w : World) (t : Z) :
  onePending w ->
  forallb (fun p => negb (snd p <=? t)) (timeouts w) = true ->
  armedAt (trigger w t) t (nextTimer w) /\
  rendered (trigger w t) = rendered w /\
  currentProgressData (trigger w t) = currentProgressData w /\
  LocalTZA (trigger w t) = LocalTZA w.
Proof.
  intros P D. unfold trigger. rewrite (advance_nothing_due _ _ D).
  assert (P' : onePending (set_clock t w)) by exact P.
  destruct (debouncedUpdateUI_cases _ P') as (A & B & C & E & F).
  unfold armedAt. rewrite A, B, C, E, F. repeat split; reflexivity.
Qed.

Lemma burst_coalesces (ts : list Z) :
  forall (w : World) (t h : Z),
    armedAt w t h -> retriggeredInTime t ts = true ->
    (exists h', armedAt (burst w ts) (last ts t) h') /\
    rendered (burst w ts) = rendered w /\
    currentProgressData (burst w ts) = currentProgressData w /\
    LocalTZA (burst w ts) = LocalTZA w.
Proof.
  induction ts as [| t' ts IH]; intros w t h A R.
  - cbn. split; [exists h; exact A |]. repeat split; reflexivity.
  - cbn [retriggeredInTime] in R. apply andb_true_iff in R. destruct R as [R R2].
    apply andb_true_iff in R. destruct R as [R0 R1].
    apply Z.leb_le in R0. apply Z.ltb_lt in R1.
    assert (D : forallb (fun p => negb (snd p <=? t')) (timeouts w) = true).
    { destruct A as [A _]. rewrite A. cbn.
      destruct (Z.leb_spec (t + DEBOUNCE_DELAY) t'); [lia | reflexivity]. }
    destruct (trigger_arms w t' (armedAt_onePending _ _ _ A) D)
      as (A' & B' & C' & E').
    destruct (IH _ _ _ A' R2) as (X & Y & Z' & U).
    cbn [burst fold_left]. fold (burst (trigger w t') ts).
    rewrite last_cons.
    split; [exact X |]. rewrite Y, Z', U, B', C', E'. repeat split; reflexivity.
Qed.

Lemma nondecreasing_last (ts : list Z) :
  forall t, nondecreasing t ts = true -> t <= last ts t.
Proof.
  induction ts as [| t' ts IH]; intros t N; [cbn; lia |].
  cbn [nondecreasing] in N. apply andb_true_iff in N. destruct N as [N0 N1].
  apply Z.leb_le in N0. specialize (IH _ N1).
  rewrite last_cons.
  lia.
Qed.

Lemma withinOneWindow_retriggered (ts : list Z) :
  forall t, withinOneWindow t ts = true -> retriggeredInTime t ts = true.
Proof.
  unfold withinOneWindow.
  induction ts as [| t' ts IH]; intros t W; [reflexivity |].
  apply andb_true_iff in W. destruct W as [N L].
  cbn [nondecreasing] in N. apply andb_true_iff in N. destruct N as [N0 N1].
  rewrite last_cons in L. apply Z.ltb_lt in L.
  pose proof (nondecreasing_last _ _ N1) as M. apply Z.leb_le in N0.
  cbn [retriggeredInTime]. rewrite !andb_true_iff. repeat split.
  - apply Z.leb_le. exact N0.
  - apply Z.ltb_lt. lia.
  - apply IH. rewrite N1. apply Z.ltb_lt. lia.
Qed.

Lemma dispatch_onePending (e : Event) (w : World) :
  onePending w -> onePending (dispatch e w).
Proof.
  intros P.
  assert (K : forall h : Z, onePending (dispatch (IntervalTick h) w)).
  { intros h. cbn [dispatch].
    destruct (existsb (Z.eqb h) (intervals w)); [| exact P].
    destruct (debouncedUpdateUI_cases w P) as (A & B & _).
    unfold onePending. rewrite A, B. reflexivity. }
  destruct e as [l | b | h | | | s | f |]; [| | apply K | | | | |].
  all: revert P; clear K.
  all: destruct w as [? ? hid ? ? tos ? ? cl vl ed ea ? ut ? db];
    unfold onePending, dispatch, domContentLoaded, setLanguage,
      handleVisibilityChange, copyToClipboard, exportClick,
      exportBegin, exportFinally, cleanup, updateUI, clearInterval,
      clearTimeout, clearTimer, setInterval, setTimeout; cbn;
    intros P.
  all: destruct tos as [| [h d] [| q tos]]; cbn in P; try contradiction.
  all: case_handlers; try exact I; try congruence.
Qed.

Lemma run_onePending (tes : list (Z * Event)) (w : World) :
  onePending w -> onePending (run w tes).
Proof.
  revert w. induction tes as [| te tes IH]; intros w P; [exact P |].
  cbn [run fold_left]. apply IH. unfold step.
  apply dispatch_onePending, advance_onePending, P.
Qed.

Lemma burst_onePending (ts : list Z) (w : World) :
  onePending w -> onePending (burst w ts).
Proof.
  revert w. induction ts as [| t ts IH]; intros w P; [exact P |].
  cbn [burst fold_left]. apply IH. unfold trigger.
  pose proof (advance_onePending t w P) as Q.
  destruct (debouncedUpdateUI_cases _ Q) as (A & B & _).
  unfold onePending. rewrite A, B. reflexivity.
Qed.

Lemma onePending_length (w : World) :
  onePending w -> (length (timeouts w) <= 1)%nat.
Proof.
  unfold onePending. destruct (timeouts w) as [| p [| q l]]; cbn; intros P;
    [lia | lia | contradiction].
Qed.

(** The interval callback is a call of [debouncedUpdateUI]. *)
Lemma intervalTick_is_trigger (w : World) (t h : Z) :
  existsb (Z.eqb h) (intervals w) = true ->
  step w (t, IntervalTick h) = trigger w t.
Proof.
  intros A. unfold step, trigger. cbn [fst snd dispatch].
  rewrite advance_intervals, A. reflexivity.
Qed.

(** C8, counterexample.  Three calls 50 ms apart, the last one 1100 ms
    into the year 2024: one update runs, and the record it stores and
    paints is the one computed when the timer fires, 200 ms after the last
    call, not the record of the time of the last call. *)
Lemma debounced_update_computes_at_fire_time :
  let t := jan1_2024 + 1000 in
  let w := advance (t + 400) (burst (loaded utc jan1_2024 false) [t; t + 50; t + 100]) in
  rendered w = [getYearProgressPrecise utc (t + 300)] /\
  currentProgressData w = Some (getYearProgressPrecise utc (t + 300)) /\
  (exists p q : Q,
     percentage (getYearProgressPrecise utc (t + 300)) = JS.Finite p /\
     percentage (getYearProgressPrecise utc (t + 100)) = JS.Finite q /\
     ~ (p == q)%Q) /\
  currentProgressData w <> Some (getYearProgressPrecise utc (t + 100)).
Proof.
  cbv zeta. split; [reflexivity |]. split; [reflexivity |].
  assert (N : percentage (getYearProgressPrecise utc (jan1_2024 + 1000 + 300)) <>
              percentage (getYearProgressPrecise utc (jan1_2024 + 1000 + 100))).
  { intros E. vm_compute in E. discriminate E. }
  split.
  { eexists. eexists. split; [vm_compute; reflexivity |].
    split; [vm_compute; reflexivity |]. discriminate. }
  intros E. apply N.
  change (currentProgressData
            (advance (jan1_2024 + 1000 + 400)
               (burst (loaded utc jan1_2024 false)
                  [jan1_2024 + 1000; jan1_2024 + 1000 + 50;
                   jan1_2024 + 1000 + 100])))
    with (Some (getYearProgressPrecise utc (jan1_2024 + 1000 + 300))) in E.
  assert (R : getYearProgressPrecise utc (jan1_2024 + 1000 + 300) =
              getYearProgressPrecise utc (jan1_2024 + 1000 + 100))
    by congruence.
  rewrite R. reflexivity.
Qed.

(** C8, as amended.  Each call of [debouncedUpdateUI] cancels the pending
    deferred update before it arms a new one, so at most one is pending in
    every state the page reaches; calls that arrive within one debounce
    window of 200 ms leave one pending update, nothing is painted before
    the calls have been quiet for 200 ms, and then exactly one update runs:
    it computes its record at the time it fires, 200 ms after the last
    call. *)
Theorem debounce_coalesces_burst (w : World) (t T : Z) (ts : list Z) :
  timeouts w = [] ->
  withinOneWindow t ts = true ->
  let tn := last ts t in
  let w' := burst w (t :: ts) in
  (forall tza t0 isHidden tes ts',
     (length (timeouts (burst (run (loaded tza t0 isHidden) tes) ts')) <= 1)%nat) /\
  (exists h, armedAt w' tn h) /\
  rendered w' = rendered w /\
  (tn <= T < tn + DEBOUNCE_DELAY -> rendered (advance T w') = rendered w) /\
  (tn + DEBOUNCE_DELAY <= T ->
   rendered (advance T w') =
     rendered w ++ [getYearProgressPrecise (LocalTZA w) (tn + DEBOUNCE_DELAY)] /\
   currentProgressData (advance T w') =
     Some (getYearProgressPrecise (LocalTZA w) (tn + DEBOUNCE_DELAY)) /\
   timeouts (advance T w') = []).
Proof.
  intros E W tn w'. split.
  { intros tza t0 isHidden tes ts'.
    apply onePending_length, burst_onePending, run_onePending. exact I. }
  assert (P : onePending w) by (unfold onePending; rewrite E; exact I).
  assert (D : forallb (fun p => negb (snd p <=? t)) (timeouts w) = true)
    by (rewrite E; reflexivity).
  destruct (trigger_arms w t P D) as (A & B & C & F).
  destruct (burst_coalesces ts _ _ _ A (withinOneWindow_retriggered _ _ W))
    as ([h H] & R & S & L).
  change (burst (trigger w t) ts) with w' in *. fold tn in H.
  clearbody w' tn.
  split; [exists h; exact H |].
  split; [rewrite R; exact B |].
  split.
  - intros [_ Q]. rewrite (advance_before_due _ _ _ _ H Q). cbn.
    rewrite R. exact B.
  - intros Q. destruct (advance_after_due _ _ _ _ H Q) as (X & Y & Z').
    rewrite X, Y, Z', R, B, L, F. repeat split; reflexivity.
Qed.

Lemma debounce_coalesces_burst_witness :
  timeouts (loaded utc jan1_2024 false) = [] /\
  withinOneWindow (jan1_2024 + 1000) [jan1_2024 + 1050; jan1_2024 + 1100] = true /\
  rendered
    (advance (jan1_2024 + 1400)
       (burst (loaded utc jan1_2024 false)
          [jan1_2024 + 1000; jan1_2024 + 1050; jan1_2024 + 1100])) =
  [getYearProgressPrecise utc (jan1_2024 + 1300)].
Proof.
  split; [reflexivity |]. split; [reflexivity |].
  apply (debounce_coalesces_burst (loaded utc jan1_2024 false)
           (jan1_2024 + 1000) (jan1_2024 + 1400)
           [jan1_2024 + 1050; jan1_2024 + 1100] eq_refl eq_refl).
  vm_compute. discriminate.
Defined.

(** ** The export handler and the interval *)

(** C1, at the failing input.  The page is visible and the interval armed
    by the initialization is running; the export button is clicked and the
    export ends, in any of its ways.  The handler has cleared the interval
    but [updateTimer] still holds its handle, so the [finally] block arms
    nothing: the page is visible, the handler has finished, and no interval
    is armed. *)
Theorem export_leaves_interval_cleared
    (tza : TimeZone) (t0 t1 t2 : Z) (lang : Lang) (s : ExportStart) (fulfilled : bool) :
  let w0 := run (loaded tza t0 false) [(t0, DOMContentLoaded lang)] in
  let w := run w0 [(t1, ExportClick s); (t2, ExportSettles fulfilled)] in
  (intervals w0 = [1] /\ updateTimer w0 = Some 1) /\
  (hidden w = false /\ exportDisabled w = false /\ exportAwaiting w = false) /\
  intervals w = [] /\ updateTimer w = Some 1 /\ stalled w = true.
Proof.
  destruct s; cbv zeta; repeat split; reflexivity.
Qed.

(** The first version of the script has the same handler. *)
Lemma legacy_export_leaves_interval_cleared (tza : TimeZone) (t : Z) (lang : Lang) :
  let w0 := Legacy.domContentLoaded lang (loaded tza t false) in
  let w := Legacy.exportFinally (Legacy.exportBegin w0) in
  intervals w0 = [1] /\ hidden w = false /\
  intervals w = [] /\ updateTimer w = Some 1.
Proof. cbv zeta. repeat split; reflexivity. Qed.

(** The handler clears the interval only: a deferred update that is
    pending when the button is clicked still runs while the capture is
    awaited. *)
Example deferred_update_runs_during_capture :
  let t0 := jan1_2024 in
  let w :=
    run (loaded utc t0 false)
      [(t0, DOMContentLoaded zhCN); (t0 + 500, IntervalTick 1);
       (t0 + 600, ExportClick CaptureStarted)] in
  exportAwaiting w = true /\ intervals w = [] /\
  timeouts w = [(2, t0 + 700)] /\
  rendered (advance (t0 + 800) w) =
    rendered w ++ [getYearProgressPrecise utc (t0 + 700)].
Proof.
  cbv zeta. split; [vm_compute; reflexivity |].
  split; [vm_compute; reflexivity |].
  split; vm_compute; reflexivity.
Qed.

(** Once stalled, the page stays stalled until it is hidden (or unloaded):
    no click, no timer and no further export arms the interval again. *)
Lemma step_stalled (w : World) (te : Z * Event) :
  stalled w = true -> resetsUpdateTimer (snd te) = false ->
  stalled (step w te) = true.
Proof.
  destruct te as [t e]. unfold step. cbn [fst snd]. intros S R.
  assert (S' : stalled (advance t w) = true)
    by (unfold stalled; rewrite advance_intervals, advance_updateTimer; exact S).
  revert S' R. generalize (advance t w). clear. intros w.
  destruct e as [l | b | h | | | s | f |]; try discriminate;
    try (destruct b; try discriminate);
    destruct w as [? ? hid ? ivs tos ? ? cl vl ed ea ? ut ? db];
    unfold stalled, dispatch, setLanguage, handleVisibilityChange,
      debouncedUpdateUI, copyToClipboard, exportClick, exportBegin,
      exportFinally, updateUI, clearInterval, clearTimeout, clearTimer,
      setInterval, setTimeout; cbn;
    destruct ivs; try discriminate; destruct ut; try discriminate;
    intros _ _; case_handlers; reflexivity.
Qed.

Lemma run_stalled (tes : list (Z * Event)) (w : World) :
  stalled w = true ->
  forallb (fun te => negb (resetsUpdateTimer (snd te))) tes = true ->
  stalled (run w tes) = true.
Proof.
  revert w. induction tes as [| te tes IH]; intros w S R; [exact S |].
  cbn [forallb] in R. apply andb_true_iff in R. destruct R as [R0 R1].
  apply negb_true_iff in R0.
  cbn [run fold_left]. apply IH; [apply step_stalled; assumption | exact R1].
Qed.

(** Hiding the page and showing it again is what restarts the interval. *)
Example hide_and_show_restarts (tza : TimeZone) (t0 t1 t2 t3 t4 : Z) :
  let w :=
    run (loaded tza t0 false)
      [(t0, DOMContentLoaded zhCN); (t1, ExportClick CaptureStarted);
       (t2, ExportSettles true); (t3, VisibilityChange true);
       (t4, VisibilityChange false)] in
  intervals w = [2] /\ updateTimer w = Some 2.
Proof. cbv zeta. split; reflexivity. Qed.

(** ** The visibility handler of [script.js] is idempotent *)

Lemma filter_idempotent {A : Type} (f : A -> bool) (l : list A) :
  filter f (filter f l) = filter f l.
Proof.
  induction l as [| a l IH]; [reflexivity |].
  cbn. destruct (f a) eqn:E; [cbn; rewrite E, IH; reflexivity | exact IH].
Qed.

Lemma handleVisibilityChange_idempotent (w : World) :
  handleVisibilityChange (handleVisibilityChange w) = handleVisibilityChange w.
Proof.
  destruct w as [? ? hid ? ivs tos ? ? cl vl ed ea ? ut ? db].
  unfold handleVisibilityChange, updateUI, clearInterval, clearTimeout,
    clearTimer, setInterval.
  destruct hid, ut, db; reflexivity.
Qed.

(** Two "visible" notifications on a stopped page arm one interval, and two
    "hidden" ones leave no handle. *)
Lemma visible_twice_arms_one_interval (w : World) :
  hidden w = false -> updateTimer w = None -> intervals w = [] ->
  intervals (handleVisibilityChange (handleVisibilityChange w)) = [nextTimer w] /\
  updateTimer (handleVisibilityChange (handleVisibilityChange w)) =
    Some (nextTimer w).
Proof.
  destruct w as [? ? hid ? ivs tos ? ? cl vl ed ea ? ut ? db]. cbn.
  intros -> -> ->. split; reflexivity.
Qed.

Lemma hidden_clears_handles (w : World) :
  hidden w = true ->
  updateTimer (handleVisibilityChange w) = None /\
  debounceTimeout (handleVisibilityChange w) = None.
Proof.
  destruct w as [? ? hid ? ivs tos ? ? cl vl ed ea ? ut ? db]. cbn.
  intros ->. unfold handleVisibilityChange. cbn. destruct ut, db; split; reflexivity.
Qed.

(** ** The stored record is the displayed one *)

Lemma displayed_after_render (r : ProgressRecord) (l : list ProgressRecord) :
  last (map Some (l ++ [r])) None = Some r.
Proof. rewrite map_app. cbn. apply last_last. Qed.

Lemma advance_storedIsDisplayed (t : Z) (w : World) :
  storedIsDisplayed w -> storedIsDisplayed (advance t w).
Proof.
  intros H. unfold advance.
  set (w0 := set_timers _ _ _ w).
  assert (H0 : storedIsDisplayed w0) by exact H.
  clearbody w0. clear H.
  induction (filter (fun p => snd p <=? t) (timeouts w)) as [| p l IH]
    in w0, H0 |- *; [exact H0 |].
  cbn [fold_left]. apply IH.
  unfold storedIsDisplayed, displayed, updateUI. cbn.
  symmetry. apply displayed_after_render.
Qed.

Lemma dispatch_storedIsDisplayed (e : Event) (w : World) :
  storedIsDisplayed w -> storedIsDisplayed (dispatch e w).
Proof.
  destruct e as [l | b | h | | | s | f |];
    destruct w as [? ? hid ? ivs tos ? rd cl vl ed ea ? ut cpd db];
    unfold storedIsDisplayed, displayed, dispatch, domContentLoaded,
      setLanguage, handleVisibilityChange, debouncedUpdateUI,
      copyToClipboard, exportClick, exportBegin, exportFinally, cleanup,
      updateUI, clearInterval, clearTimeout, clearTimer, setInterval,
      setTimeout; cbn; intros H.
  all: case_handlers;
    rewrite ?app_assoc, ?displayed_after_render; try reflexivity;
    try exact H.
Qed.

Lemma run_storedIsDisplayed (tes : list (Z * Event)) (w : World) :
  storedIsDisplayed w -> storedIsDisplayed (run w tes).
Proof.
  revert w. induction tes as [| te tes IH]; intros w H; [exact H |].
  cbn [run fold_left]. apply IH. unfold step.
  apply dispatch_storedIsDisplayed, advance_storedIsDisplayed, H.
Qed.

(** ** [copyToClipboard] reads the stored record *)

Lemma copyToClipboard_reads_store (w : World) (r : ProgressRecord) :
  currentProgressData w = Some r ->
  fst (copyToClipboard w) =
    match clipboardTextOf (percentage r) with
    | Some text => CopyWrote text
    | None => CopyThrew
    end.
Proof.
  intros H. unfold copyToClipboard. rewrite H.
  destruct (clipboardTextOf (percentage r)); reflexivity.
Qed.

Lemma copyToClipboard_computes_nothing (w : World) :
  currentProgressData (snd (copyToClipboard w)) = currentProgressData w /\
  rendered (snd (copyToClipboard w)) = rendered w /\
  clock (snd (copyToClipboard w)) = clock w.
Proof.
  unfold copyToClipboard. destruct (currentProgressData w) as [r |] eqn:E.
  - destruct (clipboardTextOf (percentage r)); cbn; rewrite ?E;
      repeat split; reflexivity.
  - cbn. rewrite E. repeat split; reflexivity.
Qed.

End ScriptFacts.

(** * The frame-driven variant *)

Section FrameFacts.

Import FrameLoop.

Local Opaque getYearProgressPrecise clipboardTextOf.

(** C3, at the failing input.  The page loads hidden, so nothing is armed;
    a first "visible" notification arms one frame request and one interval;
    a second one arms a second frame request and a second interval and
    overwrites both handles.  The cadences are then armed twice, and two
    "hidden" notifications cancel only the pair the handles name: one frame
    request and one interval stay armed on a hidden page. *)
Theorem visible_twice_arms_two_loops
    (tza : TimeZone) (t0 t1 t2 t3 t4 : Z) (lang : Lang) :
  let w0 := run (loaded tza t0 true) [(t0, DOMContentLoaded lang)] in
  let w1 := run w0 [(t1, VisibilityChange false)] in
  let w2 := run w1 [(t2, VisibilityChange false)] in
  let w3 := run w2 [(t3, VisibilityChange true); (t4, VisibilityChange true)] in
  (frames w0 = [] /\ intervals w0 = []) /\
  (frames w1 = [1] /\ intervals w1 = [1]) /\
  (frames w2 = [1; 2] /\ intervals w2 = [1; 2] /\
   animationFrameId w2 = Some 2 /\ staticTimerId w2 = Some 2) /\
  (hidden w3 = true /\ frames w3 = [1] /\ intervals w3 = [1]).
Proof. cbv zeta. repeat split; reflexivity. Qed.

(** The same state is reached without a repeated notification: the page is
    hidden and shown again while an export is awaiting its capture. *)
Example export_then_show_arms_two_loops (tza : TimeZone) (t0 t1 t2 t3 t4 : Z) :
  let w :=
    run (loaded tza t0 false)
      [(t0, DOMContentLoaded zhCN); (t1, ExportClick CaptureStarted);
       (t2, VisibilityChange true); (t3, VisibilityChange false);
       (t4, ExportSettles true)] in
  frames w = [2; 3] /\ intervals w = [2; 3] /\
  animationFrameId w = Some 3 /\ staticTimerId w = Some 3.
Proof. cbv zeta. repeat split; reflexivity. Qed.

(** The "hidden" path is idempotent in this variant too. *)
Lemma hidden_path_idempotent (w : World) :
  hidden w = true ->
  handleVisibilityChange (handleVisibilityChange w) = handleVisibilityChange w.
Proof.
  destruct w as [? ? hid ? fs ? ivs ? ? ? ? ? ? ? af st]. cbn. intros ->.
  unfold handleVisibilityChange, cancelAnimationFrame, clearInterval. cbn.
  destruct af, st; cbn; rewrite ?filter_idempotent; reflexivity.
Qed.

(** The "visible" path arms a new pair of loops whatever is armed. *)
Lemma visible_path_always_arms (w : World) :
  hidden w = false ->
  frames (handleVisibilityChange w) = frames w ++ [nextFrame w] /\
  intervals (handleVisibilityChange w) = intervals w ++ [nextTimer w].
Proof.
  destruct w as [? ? hid ? fs ? ivs ? ? ? ? ? ? ? af st]. cbn. intros ->.
  split; reflexivity.
Qed.

(** In this variant the export handler does arm both loops again. *)
Example frame_variant_export_restarts (tza : TimeZone) (t0 t1 t2 : Z) (fulfilled : bool) :
  let w :=
    run (loaded tza t0 false)
      [(t0, DOMContentLoaded zhCN); (t1, ExportClick CaptureStarted);
       (t2, ExportSettles fulfilled)] in
  frames w = [2] /\ intervals w = [2] /\
  animationFrameId w = Some 2 /\ staticTimerId w = Some 2.
Proof. cbv zeta. repeat split; reflexivity. Qed.

(** ** [copyToClipboard] computes a fresh record *)

Lemma copyToClipboard_recomputes (w : World) :
  fst (copyToClipboard w) =
    match clipboardTextOf
            (percentage (getYearProgressPrecise (LocalTZA w) (clock w))) with
    | Some text => CopyWrote text
    | None => CopyThrew
    end.
Proof.
  unfold copyToClipboard.
  destruct (clipboardTextOf _); reflexivity.
Qed.

(** C2, counterexample.  In the frame-driven variant the page shows the
    record of the last frame, painted 10 ms before half a percent of 2023
    has passed, whose percentage rounds to 0; a copy 15 ms later computes
    a new record and writes "1%". *)
Lemma frame_variant_copy_is_newer_than_display :
  let t0 := TimeFromYear 2023 in
  let w :=
    run (loaded utc t0 false)
      [(t0, DOMContentLoaded zhCN);
       (t0 + 157679990, AnimationFrame 1);
       (t0 + 157680005, CopyClick)] in
  exists shown : ProgressRecord,
    displayed w = Some shown /\
    JS.Math_round (percentage shown) = JS.ofZ 0 /\
    clipboardTextOf (percentage shown) =
      Some (repeat 9617%N 15 ++ [32; 48; 37]%N) /\
    clipboard w = [repeat 9617%N 15 ++ [32; 49; 37]%N].
Proof.
  cbv zeta.
  exists (getYearProgressPrecise utc (TimeFromYear 2023 + 157679990)).
  split; [reflexivity |]. split; [vm_compute; reflexivity |].
  split; vm_compute; reflexivity.
Qed.

End FrameFacts.

(** * Where the clipboard text comes from *)

Lemma clipboardText_shape (p : Q) (text : JS.str) :
  (0 <= p)%Q -> clipboardTextOf (JS.Finite p) = Some text ->
  exists (bar digits : JS.str) (whole : Z),
    text = bar ++ 32%N :: digits ++ [37%N] /\
    digits = JS.decimal (JS.roundHalfUp p) /\ numeralOf whole digits /\
    (inject_Z whole - (1 # 2) <= p /\ p < inject_Z whole + (1 # 2))%Q.
Proof.
  intros L. rewrite clipboardTextOf_eq, (toFixed_0_nonneg _ L).
  destruct (JS.String_repeat CLIPBOARD_BLOCK_FILLED _) as [a |]; [| discriminate].
  destruct (JS.String_repeat CLIPBOARD_BLOCK_EMPTY _) as [b |]; [| discriminate].
  intros E. injection E as <-.
  exists (a ++ b), (JS.decimal (JS.roundHalfUp p)), (JS.roundHalfUp p).
  split; [rewrite <- app_assoc; reflexivity |].
  split; [reflexivity |]. split.
  - apply decimal_numeralOf.
    change 0 with (JS.roundHalfUp 0). apply roundHalfUp_mono, L.
  - apply roundHalfUp_iff. reflexivity.
Qed.

(** C2, as amended.  In [script.js], [copyToClipboard] reads the stored
    record and computes no new one: what it writes is determined by the
    stored record, whatever the clock says, the record and the display are
    left as they were, the stored record is the displayed one in every
    state the page reaches, and the whole number in the text is the
    rounding of the stored percentage.  In the frame-driven variant, which
    stores no record, [copyToClipboard] computes a record from the clock at
    the moment of the call. *)
Theorem copy_reads_store_or_recomputes :
  (forall (w : Script.World) (r : ProgressRecord),
     Script.currentProgressData w = Some r ->
     forall t : Z,
       fst (Script.copyToClipboard (Script.set_clock t w)) =
         match clipboardTextOf (percentage r) with
         | Some text => CopyWrote text
         | None => CopyThrew
         end) /\
  (forall w : Script.World,
     Script.currentProgressData (snd (Script.copyToClipboard w)) =
       Script.currentProgressData w /\
     Script.rendered (snd (Script.copyToClipboard w)) = Script.rendered w) /\
  (forall tza t isHidden tes,
     Script.storedIsDisplayed (Script.run (Script.loaded tza t isHidden) tes)) /\
  (forall (p : Q) (text : JS.str),
     (0 <= p)%Q -> clipboardTextOf (JS.Finite p) = Some text ->
     exists (bar digits : JS.str) (whole : Z),
       text = bar ++ 32%N :: digits ++ [37%N] /\
       digits = JS.decimal (JS.roundHalfUp p) /\ numeralOf whole digits /\
       (inject_Z whole - (1 # 2) <= p /\ p < inject_Z whole + (1 # 2))%Q) /\
  (forall w : FrameLoop.World,
     fst (FrameLoop.copyToClipboard w) =
       match clipboardTextOf
               (percentage
                  (getYearProgressPrecise (FrameLoop.LocalTZA w)
                     (FrameLoop.clock w))) with
       | Some text => CopyWrote text
       | None => CopyThrew
       end).
Proof.
  split; [| split; [| split; [| split]]].
  - intros w r H t. apply copyToClipboard_reads_store. exact H.
  - intros w. destruct (copyToClipboard_computes_nothing w) as (A & B & _).
    split; assumption.
  - intros tza t isHidden tes. apply run_storedIsDisplayed. reflexivity.
  - exact clipboardText_shape.
  - exact copyToClipboard_recomputes.
Qed.

Lemma copy_reads_store_or_recomputes_witness :
  Script.currentProgressData
    (Script.run (Script.loaded utc jan1_2024 false)
       [(jan1_2024 + 183 * msPerDay, Script.DOMContentLoaded en)]) =
    Some (getYearProgressPrecise utc (jan1_2024 + 183 * msPerDay)) /\
  fst (Script.copyToClipboard
         (Script.set_clock (jan1_2024 + 200 * msPerDay)
            (Script.run (Script.loaded utc jan1_2024 false)
               [(jan1_2024 + 183 * msPerDay, Script.DOMContentLoaded en)]))) =
    match
      clipboardTextOf
        (percentage (getYearProgressPrecise utc (jan1_2024 + 183 * msPerDay)))
    with
    | Some text => CopyWrote text
    | None => CopyThrew
    end.
Proof.
  split; [reflexivity |].
  apply (proj1 copy_reads_store_or_recomputes). reflexivity.
Defined.

(** The text copied in the middle of 2024: eight filled blocks, seven empty
    ones, " 50%". *)
Lemma clipboard_text_format_witness :
  let w :=
    Script.run (Script.loaded utc jan1_2024 false)
      [(jan1_2024 + 183 * msPerDay, Script.DOMContentLoaded en)] in
  let r := getYearProgressPrecise utc (jan1_2024 + 183 * msPerDay) in
  Script.currentProgressData w = Some r /\
  percentage r = JS.Finite 50 /\ (0 <= 50)%Q /\ (50 <= 100)%Q /\
  exists (numFilled whole : Z) (digits : JS.str),
    0 <= numFilled <= 15 /\
    fst (Script.copyToClipboard w) =
      CopyWrote
        (repeat 9619%N (Z.to_nat numFilled) ++
         repeat 9617%N (Z.to_nat (15 - numFilled)) ++
         [32%N] ++ digits ++ [37%N]) /\
    numeralOf whole digits.
Proof.
  cbv zeta.
  assert (S : Script.currentProgressData
                (Script.run (Script.loaded utc jan1_2024 false)
                   [(jan1_2024 + 183 * msPerDay, Script.DOMContentLoaded en)]) =
              Some (getYearProgressPrecise utc (jan1_2024 + 183 * msPerDay)))
    by reflexivity.
  assert (P : percentage (getYearProgressPrecise utc (jan1_2024 + 183 * msPerDay)) =
              JS.Finite 50) by (vm_compute; reflexivity).
  assert (L : (0 <= 50)%Q) by discriminate.
  assert (U : (50 <= 100)%Q) by discriminate.
  split; [exact S |]. split; [exact P |]. split; [exact L |]. split; [exact U |].
  destruct (clipboard_text_format _ _ 50 S P L U)
    as (n & k & d & _ & B & _ & T & _ & N & _).
  exists n, k, d. split; [exact B |]. split; [exact T | exact N].
Defined.

Example clipboard_text_mid_2024 :
  fst (Script.copyToClipboard
         (Script.run (Script.loaded utc jan1_2024 false)
            [(jan1_2024 + 183 * msPerDay, Script.DOMContentLoaded en)])) =
  CopyWrote (repeat 9619%N 8 ++ repeat 9617%N 7 ++ [32; 53; 48; 37]%N).
Proof. vm_compute. reflexivity. Qed.

(** Outside the range the text may not exist: for the record of the year
    50 the first [repeat] raises its RangeError. *)
Example clipboard_text_year_50 :
  clipboardTextOf (percentage (getYearProgressPrecise utc jan1_year50)) = None.
Proof. vm_compute. reflexivity. Qed.

(** * Further properties of the progress calculator *)

Section MoreCalcFacts.

Import Binary64.

(** The percentage where the elapsed milliseconds are exact. *)
Lemma percentage_exact_ms (tz : TimeZone) (now s : Z) :
  startOfYear tz now = Some s -> Z.abs (now - s) <= 2 ^ 53 ->
  let raw := rawPercentage (inject_Z (now - s)) (totalMsInYear tz now) in
  percentage (getYearProgressPrecise tz now) =
  JS.Finite (if JS.Qltb raw 100 then raw else 100%Q).
Proof.
  intros S B raw.
  pose proof (totalMsInYear_range tz now) as TR.
  rewrite percentage_percentageOf, (msPassed_exact _ _ _ S B).
  unfold JS.ofZ at 1. apply percentageOf_finite; [| | lia].
  - change (- inject_Z (2 ^ 54))%Q with (inject_Z (- 2 ^ 54)).
    rewrite <- Zle_Qle. change (2 ^ 53) with 9007199254740992 in B.
    change (2 ^ 54) with 18014398509481984. lia.
  - rewrite <- Zle_Qle. change (2 ^ 53) with 9007199254740992 in B.
    change (2 ^ 54) with 18014398509481984. lia.
Qed.

(** What the two hypotheses on the year give. *)
Lemma within_nominal_year (tz : TimeZone) (now : Z) :
  withinYear tz now = true -> nominalYear tz now = true ->
  exists s e : Z,
    startOfYear tz now = Some s /\ endOfYear tz now = Some e /\
    s <= now < e /\ e - s = totalMsInYear tz now.
Proof.
  unfold withinYear, nominalYear. intros W N.
  destruct (startOfYear tz now) as [s |]; [| discriminate W].
  destruct (endOfYear tz now) as [e |]; [| discriminate W].
  apply andb_true_iff in W. destruct W as [W1 W2].
  apply Z.leb_le in W1. apply Z.ltb_lt in W2. apply Z.eqb_eq in N.
  exists s, e. repeat split; try reflexivity; assumption.
Qed.

(** X1.  For an instant within a year of nominal length the cap of
    [Math.min] is never reached: the percentage is a finite number from 0
    up to, but not including, 100, it is zero exactly at the start of the
    year, and it is within 2^-45 of the exact ratio of the elapsed
    milliseconds to the milliseconds of the year, times 100, which the
    two binary64 roundings do not let it equal in general. *)
Theorem percentage_close_to_ratio_within_year (tz : TimeZone) (now : Z) :
  withinYear tz now = true -> nominalYear tz now = true ->
  exists (s : Z) (p : Q),
    startOfYear tz now = Some s /\
    percentage (getYearProgressPrecise tz now) = JS.Finite p /\
    (0 <= p)%Q /\ (p < 100)%Q /\ ((p == 0)%Q <-> now = s) /\
    (Qabs (p - inject_Z (now - s) / inject_Z (totalMsInYear tz now) * 100) <=
     inject_Z 1 / inject_Z (2 ^ 45))%Q.
Proof.
  intros W N. destruct (within_nominal_year tz now W N) as (s & e & S & E & I & L).
  pose proof (totalMsInYear_range tz now) as TR.
  set (T := totalMsInYear tz now) in *.
  assert (B : Z.abs (now - s) <= 2 ^ 53).
  { change (2 ^ 35) with 34359738368 in TR.
    change (2 ^ 53) with 9007199254740992. lia. }
  pose proof (percentage_exact_ms tz now s S B) as P. cbv zeta in P. fold T in P.
  assert (U : (rawPercentage (inject_Z (now - s)) T <=
               inject_Z (100 * 2 ^ 29 - 1) / inject_Z (2 ^ 29))%Q)
    by (apply rawPercentage_below; [exact TR | lia]).
  change (inject_Z (100 * 2 ^ 29 - 1) / inject_Z (2 ^ 29))%Q
    with (53687091199 # 536870912)%Q in U.
  set (raw := rawPercentage (inject_Z (now - s)) T) in *.
  assert (LT : JS.Qltb raw 100 = true) by (apply Qltb_true; lra).
  rewrite LT in P. exists s, raw.
  split; [exact S |]. split; [exact P |].
  destruct (Z.eq_dec now s) as [-> | D].
  - assert (Z0 : raw = 0%Q).
    { subst raw. rewrite Z.sub_diag. apply rawPercentage_zero. }
    rewrite Z0. split; [discriminate |]. split; [reflexivity |].
    split; [split; reflexivity |].
    rewrite Z.sub_diag. vm_compute. discriminate.
  - assert (G : (inject_Z 1 / inject_Z (2 ^ 35) <= raw)%Q).
    { apply rawPercentage_pos; [exact TR |].
      change 1%Q with (inject_Z 1). rewrite <- Zle_Qle. lia. }
    change (inject_Z 1 / inject_Z (2 ^ 35))%Q with (1 # 34359738368)%Q in G.
    split; [lra |]. split; [lra |]. split.
    + split; [intros Z0; exfalso; lra | intros A; contradiction].
    + apply rawPercentage_error; [exact TR | lia].
Qed.

Lemma percentage_close_to_ratio_within_year_witness :
  withinYear utc (TimeFromYear 2023 + 10512000000) = true /\
  nominalYear utc (TimeFromYear 2023 + 10512000000) = true /\
  exists p : Q,
    percentage (getYearProgressPrecise utc (TimeFromYear 2023 + 10512000000)) =
      JS.Finite p /\ (p < 100)%Q.
Proof.
  split; [reflexivity |]. split; [reflexivity |].
  destruct (percentage_close_to_ratio_within_year utc
              (TimeFromYear 2023 + 10512000000) eq_refl eq_refl)
    as (s & p & _ & P & _ & U & _).
  exists p. split; [exact P | exact U].
Defined.

(** X2.  Within a year of nominal length the two counters are integers in
    range: [daysPassed] is from 0 to [totalDaysInYear - 1],
    [daysRemaining] from 0 to [totalDaysInYear], and [daysRemaining] is
    the whole [totalDaysInYear] only at the very instant the year
    starts. *)
Theorem day_counters_in_range (tz : TimeZone) (now : Z) :
  withinYear tz now = true -> nominalYear tz now = true ->
  let r := getYearProgressPrecise tz now in
  exists s dp dr : Z,
    startOfYear tz now = Some s /\
    daysPassed r = JS.ofZ dp /\ daysRemaining r = JS.ofZ dr /\
    0 <= dp <= totalDaysInYear r - 1 /\
    0 <= dr <= totalDaysInYear r /\
    (dr = totalDaysInYear r <-> now = s).
Proof.
  intros W N r. subst r.
  destruct (within_nominal_year tz now W N) as (s & e & S & E & I & L).
  pose proof (totalMsInYear_range tz now) as TR.
  change (2 ^ 35) with 34359738368 in TR.
  assert (BS : Z.abs (now - s) <= 2 ^ 52)
    by (change (2 ^ 52) with 4503599627370496; lia).
  assert (BE : Z.abs (e - now) <= 2 ^ 52)
    by (change (2 ^ 52) with 4503599627370496; lia).
  exists s, ((now - s) / msPerDay), ((e - now) / msPerDay).
  split; [exact S |].
  split; [apply daysPassed_exact; assumption |].
  split; [apply daysRemaining_exact; assumption |].
  rewrite totalDaysInYear_eq. unfold totalMsInYear, msPerDay in *.
  set (D := totalDaysOf (getFullYear tz now)) in *. clearbody D.
  split; [| split]; try split; Z.div_mod_to_equations; lia.
Qed.

Lemma day_counters_in_range_witness :
  withinYear utc (jan1_2024 + 1) = true /\
  nominalYear utc (jan1_2024 + 1) = true /\
  exists dp : Z,
    daysPassed (getYearProgressPrecise utc (jan1_2024 + 1)) = JS.ofZ dp /\
    0 <= dp <= totalDaysInYear (getYearProgressPrecise utc (jan1_2024 + 1)) - 1.
Proof.
  split; [reflexivity |]. split; [reflexivity |].
  destruct (day_counters_in_range utc (jan1_2024 + 1) eq_refl eq_refl)
    as (s & dp & dr & _ & P & _ & B & _).
  exists dp. split; [exact P | exact B].
Defined.

(** In a year that is longer than its nominal length both bounds fail: on
    a host on Pyongyang time the local year 2015 starts at UTC+09:00 and
    ends at UTC+08:30, so in its last half hour the percentage is capped
    at 100 and [daysPassed] is the whole [totalDaysInYear]. *)
Example last_minute_of_a_long_year :
  let now := TimeFromYear 2016 - 8 * msPerHour - msPerHour / 2 - 60000 in
  let r := getYearProgressPrecise pyongyang now in
  getFullYear pyongyang now = 2015 /\ withinYear pyongyang now = true /\
  nominalYear pyongyang now = false /\
  percentage r = JS.ofZ 100 /\ daysPassed r = JS.ofZ 365 /\
  totalDaysInYear r = 365.
Proof. vm_compute. repeat split; reflexivity. Qed.

(** The percentage of a valid instant that is not before the start of
    its year is a finite number from 0 to 100. *)
Lemma fraction_capped_bounds (tz : TimeZone) (now s : Z) :
  validTime now = true -> startOfYear tz now = Some s -> s <= now ->
  exists p : Q,
    percentage (getYearProgressPrecise tz now) = JS.Finite p /\
    (0 <= p)%Q /\ (p <= 100)%Q.
Proof.
  intros V S L. destruct (percentage_valid tz now s V S) as (E & _ & Z0 & P).
  set (raw := rawPercentage _ _) in *.
  eexists. split; [exact E |].
  assert (G : (0 <= raw)%Q).
  { destruct (Z.eq_dec now s) as [-> | D].
    - rewrite Z0 by lia. discriminate.
    - apply Qle_trans with (2 := P ltac:(lia)). discriminate. }
  clearbody raw.
  destruct (JS.Qltb raw 100) eqn:LT;
    [apply Qltb_true in LT | apply Qltb_false in LT]; split; lra.
Qed.

(** *** Monotonicity *)

Lemma cap_mono (x y : Q) :
  (x <= y)%Q ->
  ((if JS.Qltb x 100 then x else 100) <=
   (if JS.Qltb y 100 then y else 100))%Q.
Proof.
  intros H.
  destruct (JS.Qltb x 100) eqn:EX; destruct (JS.Qltb y 100) eqn:EY;
    rewrite ?Qltb_true, ?Qltb_false in *; lra.
Qed.

(** The day count of a difference of two valid time values. *)
Lemma daysOf_round (a : Z) :
  Z.abs a <= 2 ^ 54 ->
  daysOf (JS.round (inject_Z a)) =
  JS.ofZ (Qfloor (roundToPrecision
                    (roundToPrecision (inject_Z a) / inject_Z msPerDay))).
Proof.
  intros B. destruct (round_difference a B) as (E & L & U & _).
  rewrite E. unfold daysOf. rewrite div_by_integer by discriminate.
  assert (RL : representable (inject_Z (-1 * 2 ^ 54)))
    by (apply representable_shift; [discriminate | lia]).
  assert (RH : representable (inject_Z (1 * 2 ^ 54)))
    by (apply representable_shift; [discriminate | lia]).
  destruct (quotient_bounded (roundToPrecision (inject_Z a)) msPerDay
              (inject_Z (2 ^ 54)) ltac:(discriminate) ltac:(discriminate) L U)
    as [QL QU].
  destruct (round_between _ _ _ RL RH QL QU) as (-> & _ & _).
  reflexivity.
Qed.

Lemma days_mono (a b : Z) :
  a <= b ->
  Qfloor (roundToPrecision (roundToPrecision (inject_Z a) / inject_Z msPerDay)) <=
  Qfloor (roundToPrecision (roundToPrecision (inject_Z b) / inject_Z msPerDay)).
Proof.
  intros H. apply Qfloor_resp_le, roundToPrecision_mono.
  apply Qmult_le_compat_r; [| discriminate].
  apply roundToPrecision_mono. rewrite <- Zle_Qle. exact H.
Qed.

(** X3.  Within one year the record moves one way: for two valid instants
    of the same local year whose boundaries are valid dates, the later
    one has a percentage and a [daysPassed] that are not smaller and a
    [daysRemaining] that is not larger. *)
Theorem progress_is_monotone_within_year
    (tz : TimeZone) (now1 now2 s e : Z) :
  validTime now1 = true -> validTime now2 = true ->
  getFullYear tz now1 = getFullYear tz now2 -> now1 <= now2 ->
  startOfYear tz now1 = Some s -> endOfYear tz now1 = Some e ->
  let r1 := getYearProgressPrecise tz now1 in
  let r2 := getYearProgressPrecise tz now2 in
  exists (p1 p2 : Q) (d1 d2 m1 m2 : Z),
    (percentage r1 = JS.Finite p1 /\ percentage r2 = JS.Finite p2 /\
     (p1 <= p2)%Q) /\
    (daysPassed r1 = JS.ofZ d1 /\ daysPassed r2 = JS.ofZ d2 /\ d1 <= d2) /\
    (daysRemaining r1 = JS.ofZ m1 /\ daysRemaining r2 = JS.ofZ m2 /\
     m2 <= m1) /\
    totalDaysInYear r1 = totalDaysInYear r2.
Proof.
  intros V1 V2 Y L S1 E1 r1 r2. subst r1 r2.
  assert (S2 : startOfYear tz now2 = Some s)
    by (unfold startOfYear in *; rewrite <- Y; exact S1).
  assert (E2 : endOfYear tz now2 = Some e)
    by (unfold endOfYear in *; rewrite <- Y; exact E1).
  assert (T : totalMsInYear tz now2 = totalMsInYear tz now1)
    by (unfold totalMsInYear; rewrite Y; reflexivity).
  pose proof (totalMsInYear_range tz now1) as TR.
  destruct (percentage_valid tz now1 s V1 S1) as (P1 & _).
  destruct (percentage_valid tz now2 s V2 S2) as (P2 & _).
  rewrite T in P2.
  assert (VS : Z.abs s <= maxTime) by (apply newDateJan1_Some in S1; apply S1).
  assert (VE : Z.abs e <= maxTime) by (apply newDateJan1_Some in E1; apply E1).
  apply Z.leb_le in V1, V2.
  eexists. eexists. eexists. eexists. eexists. eexists.
  split; [split; [exact P1 | split; [exact P2 |]] |].
  { apply cap_mono, rawPercentage_mono; [lia |].
    apply roundToPrecision_mono. rewrite <- Zle_Qle. lia. }
  split; [split; [| split] |].
  { rewrite daysPassed_eq, (msPassed_Some _ _ _ S1).
    apply daysOf_round, valid_difference; assumption. }
  { rewrite daysPassed_eq, (msPassed_Some _ _ _ S2).
    apply daysOf_round, valid_difference; assumption. }
  { apply days_mono. lia. }
  split; [split; [| split] |].
  { rewrite daysRemaining_eq, (msRemaining_Some _ _ _ E1).
    apply daysOf_round, valid_difference; assumption. }
  { rewrite daysRemaining_eq, (msRemaining_Some _ _ _ E2).
    apply daysOf_round, valid_difference; assumption. }
  { apply days_mono. lia. }
  rewrite !totalDaysInYear_eq, Y. reflexivity.
Qed.

Lemma progress_is_monotone_within_year_witness :
  validTime jan1_2024 = true /\
  validTime (jan1_2024 + 183 * msPerDay) = true /\
  getFullYear utc jan1_2024 = getFullYear utc (jan1_2024 + 183 * msPerDay) /\
  jan1_2024 <= jan1_2024 + 183 * msPerDay /\
  startOfYear utc jan1_2024 = Some jan1_2024 /\
  endOfYear utc jan1_2024 = Some (TimeFromYear 2025) /\
  totalDaysInYear (getYearProgressPrecise utc jan1_2024) =
  totalDaysInYear (getYearProgressPrecise utc (jan1_2024 + 183 * msPerDay)).
Proof.
  assert (L : jan1_2024 <= jan1_2024 + 183 * msPerDay)
    by (vm_compute; discriminate).
  split; [reflexivity |]. split; [reflexivity |]. split; [reflexivity |].
  split; [exact L |]. split; [reflexivity |]. split; [reflexivity |].
  destruct (progress_is_monotone_within_year utc jan1_2024
              (jan1_2024 + 183 * msPerDay) jan1_2024 (TimeFromYear 2025)
              eq_refl eq_refl eq_refl L eq_refl eq_refl)
    as (p1 & p2 & d1 & d2 & m1 & m2 & _ & _ & _ & T).
  exact T.
Defined.

(** X4.  On a host with a constant offset the function follows the
    calendar across New Year.  One millisecond before a year [y + 1]
    starts the record is the last one of the year [y]: all its days but
    one have passed, none remains and the percentage is below 100.  At
    the instant the year [y + 1] starts the record is the first one of
    that year: nothing has passed, the percentage is 0 and all its days
    remain. *)
Theorem record_rolls_over_at_new_year (k y : Z) :
  plainYear y = true -> plainYear (y + 1) = true ->
  plainYear (y + 2) = true ->
  validTime (TimeFromYear y - k) = true ->
  validTime (TimeFromYear (y + 2) - k) = true ->
  let before :=
    getYearProgressPrecise (fixedOffset k) (TimeFromYear (y + 1) - k - 1) in
  let after :=
    getYearProgressPrecise (fixedOffset k) (TimeFromYear (y + 1) - k) in
  (totalDaysInYear before = totalDaysOf y /\
   daysPassed before = JS.ofZ (totalDaysOf y - 1) /\
   daysRemaining before = JS.ofZ 0 /\
   exists p : Q, percentage before = JS.Finite p /\ (0 < p)%Q /\ (p < 100)%Q) /\
  (totalDaysInYear after = totalDaysOf (y + 1) /\
   daysPassed after = JS.ofZ 0 /\
   daysRemaining after = JS.ofZ (totalDaysOf (y + 1)) /\
   percentage after = JS.ofZ 0).
Proof.
  intros P0 P1 P2 V0 V2 before after. subst before after.
  pose proof (year_length y) as L0. pose proof (year_length (y + 1)) as L1.
  pose proof (totalDaysOf_cases y) as C0.
  pose proof (totalDaysOf_cases (y + 1)) as C1.
  replace (y + 1 + 1) with (y + 2) in L1 by lia.
  assert (V1 : validTime (TimeFromYear (y + 1) - k) = true).
  { unfold validTime in *. apply Z.leb_le in V0, V2. apply Z.leb_le.
    unfold msPerDay in *. lia. }
  assert (SB : startOfYear (fixedOffset k) (TimeFromYear (y + 1) - k - 1) =
               Some (TimeFromYear y - k)).
  { unfold startOfYear. rewrite getFullYear_before_start.
    apply newDateJan1_fixed; assumption. }
  assert (EB : endOfYear (fixedOffset k) (TimeFromYear (y + 1) - k - 1) =
               Some (TimeFromYear (y + 1) - k)).
  { unfold endOfYear. rewrite getFullYear_before_start.
    apply newDateJan1_fixed; assumption. }
  assert (SA : startOfYear (fixedOffset k) (TimeFromYear (y + 1) - k) =
               Some (TimeFromYear (y + 1) - k)).
  { unfold startOfYear. rewrite getFullYear_at_start.
    apply newDateJan1_fixed; assumption. }
  assert (EA : endOfYear (fixedOffset k) (TimeFromYear (y + 1) - k) =
               Some (TimeFromYear (y + 2) - k)).
  { unfold endOfYear. rewrite getFullYear_at_start.
    replace (y + 1 + 1) with (y + 2) by lia.
    apply newDateJan1_fixed; assumption. }
  assert (TB : totalMsInYear (fixedOffset k) (TimeFromYear (y + 1) - k - 1) =
               msPerDay * totalDaysOf y).
  { unfold totalMsInYear. rewrite getFullYear_before_start.
    unfold msPerDay. lia. }
  assert (TA : totalMsInYear (fixedOffset k) (TimeFromYear (y + 1) - k) =
               msPerDay * totalDaysOf (y + 1)).
  { unfold totalMsInYear. rewrite getFullYear_at_start.
    unfold msPerDay. lia. }
  split.
  - split; [rewrite totalDaysInYear_eq, getFullYear_before_start; reflexivity |].
    split.
    { rewrite (daysPassed_exact _ _ _ SB).
      - f_equal. unfold msPerDay in *. Z.div_mod_to_equations. lia.
      - unfold msPerDay in *. change (2 ^ 52) with 4503599627370496. lia. }
    split.
    { rewrite (daysRemaining_exact _ _ _ EB).
      - f_equal. unfold msPerDay in *. Z.div_mod_to_equations. lia.
      - unfold msPerDay in *. change (2 ^ 52) with 4503599627370496. lia. }
    assert (B : Z.abs (TimeFromYear (y + 1) - k - 1 - (TimeFromYear y - k)) <=
                2 ^ 53)
      by (unfold msPerDay in *; change (2 ^ 53) with 9007199254740992; lia).
    pose proof (percentage_exact_ms _ _ _ SB B) as P. cbv zeta in P.
    pose proof (totalMsInYear_range (fixedOffset k)
                  (TimeFromYear (y + 1) - k - 1)) as TR.
    assert (U : (rawPercentage
                   (inject_Z (TimeFromYear (y + 1) - k - 1 - (TimeFromYear y - k)))
                   (totalMsInYear (fixedOffset k) (TimeFromYear (y + 1) - k - 1)) <=
                 inject_Z (100 * 2 ^ 29 - 1) / inject_Z (2 ^ 29))%Q)
      by (apply rawPercentage_below; [exact TR | rewrite TB; lia]).
    assert (G : (inject_Z 1 / inject_Z (2 ^ 35) <=
                 rawPercentage
                   (inject_Z (TimeFromYear (y + 1) - k - 1 - (TimeFromYear y - k)))
                   (totalMsInYear (fixedOffset k) (TimeFromYear (y + 1) - k - 1)))%Q).
    { apply rawPercentage_pos; [exact TR |].
      change 1%Q with (inject_Z 1). rewrite <- Zle_Qle.
      unfold msPerDay in *. lia. }
    set (raw := rawPercentage _ _) in *. clearbody raw.
    change (inject_Z (100 * 2 ^ 29 - 1) / inject_Z (2 ^ 29))%Q
      with (53687091199 # 536870912)%Q in U.
    change (inject_Z 1 / inject_Z (2 ^ 35))%Q with (1 # 34359738368)%Q in G.
    assert (LT : JS.Qltb raw 100 = true) by (apply Qltb_true; lra).
    rewrite LT in P. exists raw. split; [exact P |]. split; lra.
  - split; [rewrite totalDaysInYear_eq, getFullYear_at_start; reflexivity |].
    split.
    { rewrite (daysPassed_exact _ _ _ SA); rewrite Z.sub_diag;
        [reflexivity | discriminate]. }
    split.
    { rewrite (daysRemaining_exact _ _ _ EA).
      - f_equal. unfold msPerDay in *. Z.div_mod_to_equations. lia.
      - unfold msPerDay in *. change (2 ^ 52) with 4503599627370496. lia. }
    assert (B : Z.abs (TimeFromYear (y + 1) - k - (TimeFromYear (y + 1) - k)) <=
                2 ^ 53) by (rewrite Z.sub_diag; discriminate).
    pose proof (percentage_exact_ms _ _ _ SA B) as P. cbv zeta in P.
    rewrite Z.sub_diag, rawPercentage_zero in P. exact P.
Qed.

Lemma record_rolls_over_at_new_year_witness :
  plainYear 2023 = true /\ plainYear (2023 + 1) = true /\
  plainYear (2023 + 2) = true /\
  validTime (TimeFromYear 2023 - 0) = true /\
  validTime (TimeFromYear (2023 + 2) - 0) = true /\
  daysPassed (getYearProgressPrecise (fixedOffset 0) (TimeFromYear (2023 + 1) - 0)) =
    JS.ofZ 0.
Proof.
  split; [reflexivity |]. split; [reflexivity |]. split; [reflexivity |].
  split; [reflexivity |]. split; [reflexivity |].
  exact (proj1 (proj2 (proj2 (record_rolls_over_at_new_year 0 2023
                                eq_refl eq_refl eq_refl eq_refl eq_refl)))).
Defined.

(** X5.  The sum of the two counters follows the real distance of the
    boundaries, not [totalDaysInYear]: for an instant within its year,
    with the boundaries at most 2^52 ms apart, the sum is the number of
    whole days between the boundaries, or one less.  So in a year that an
    offset change makes shorter by part of a day the sum is
    [totalDaysInYear - 2] or [totalDaysInYear - 1], and in a year it
    makes longer by part of a day it is [totalDaysInYear - 1] or
    [totalDaysInYear]. *)
Theorem days_sum_follows_year_span (tz : TimeZone) (now s e : Z) :
  startOfYear tz now = Some s -> endOfYear tz now = Some e ->
  s <= now < e -> e - s <= 2 ^ 52 ->
  let r := getYearProgressPrecise tz now in
  exists dp dr : Z,
    daysPassed r = JS.ofZ dp /\ daysRemaining r = JS.ofZ dr /\
    (dp + dr = (e - s) / msPerDay - 1 \/ dp + dr = (e - s) / msPerDay) /\
    (totalMsInYear tz now - msPerDay <= e - s < totalMsInYear tz now ->
     dp + dr = totalDaysInYear r - 2 \/ dp + dr = totalDaysInYear r - 1) /\
    (totalMsInYear tz now <= e - s < totalMsInYear tz now + msPerDay ->
     dp + dr = totalDaysInYear r - 1 \/ dp + dr = totalDaysInYear r).
Proof.
  intros S E I B r. subst r.
  change (2 ^ 52) with 4503599627370496 in B.
  assert (BS : Z.abs (now - s) <= 2 ^ 52)
    by (change (2 ^ 52) with 4503599627370496; lia).
  assert (BE : Z.abs (e - now) <= 2 ^ 52)
    by (change (2 ^ 52) with 4503599627370496; lia).
  exists ((now - s) / msPerDay), ((e - now) / msPerDay).
  split; [apply daysPassed_exact; assumption |].
  split; [apply daysRemaining_exact; assumption |].
  rewrite totalDaysInYear_eq. unfold totalMsInYear, msPerDay in *.
  set (D := totalDaysOf (getFullYear tz now)) in *. clearbody D.
  split; [| split]; intros; Z.div_mod_to_equations; lia.
Qed.

Lemma days_sum_follows_year_span_witness :
  let now := TimeFromYear 2018 + 15 * msPerHour + msPerHour / 4 in
  let s := TimeFromYear 2018 - 8 * msPerHour - msPerHour / 2 in
  let e := TimeFromYear 2019 - 9 * msPerHour in
  startOfYear pyongyang now = Some s /\ endOfYear pyongyang now = Some e /\
  s <= now < e /\ e - s <= 2 ^ 52 /\
  exists dp dr : Z,
    daysPassed (getYearProgressPrecise pyongyang now) = JS.ofZ dp /\
    daysRemaining (getYearProgressPrecise pyongyang now) = JS.ofZ dr /\
    (dp + dr = (e - s) / msPerDay - 1 \/ dp + dr = (e - s) / msPerDay).
Proof.
  cbv zeta.
  assert (I : TimeFromYear 2018 - 8 * msPerHour - msPerHour / 2 <=
              TimeFromYear 2018 + 15 * msPerHour + msPerHour / 4 <
              TimeFromYear 2019 - 9 * msPerHour)
    by (vm_compute; split; [discriminate | reflexivity]).
  assert (B : TimeFromYear 2019 - 9 * msPerHour -
              (TimeFromYear 2018 - 8 * msPerHour - msPerHour / 2) <= 2 ^ 52)
    by (vm_compute; discriminate).
  split; [vm_compute; reflexivity |]. split; [vm_compute; reflexivity |].
  split; [exact I |]. split; [exact B |].
  destruct (days_sum_follows_year_span pyongyang _ _ _
              (eq_refl : startOfYear pyongyang
                           (TimeFromYear 2018 + 15 * msPerHour + msPerHour / 4) =
                         Some (TimeFromYear 2018 - 8 * msPerHour - msPerHour / 2))
              (eq_refl : endOfYear pyongyang
                           (TimeFromYear 2018 + 15 * msPerHour + msPerHour / 4) =
                         Some (TimeFromYear 2019 - 9 * msPerHour))
              I B) as (dp & dr & P & R & H & _).
  exists dp, dr. split; [exact P |]. split; [exact R | exact H].
Defined.

(** X6.  On a host with a constant offset every instant whose local year
    and the next one are outside the two-digit window of the [Date]
    constructor, and whose boundaries are valid dates, lies within its
    computed year, and that year has its nominal length. *)
Theorem fixed_offset_year_is_nominal (k now : Z) :
  plainYear (getFullYear (fixedOffset k) now) = true ->
  plainYear (getFullYear (fixedOffset k) now + 1) = true ->
  startOfYear (fixedOffset k) now <> None ->
  endOfYear (fixedOffset k) now <> None ->
  withinYear (fixedOffset k) now = true /\
  nominalYear (fixedOffset k) now = true.
Proof.
  intros P0 P1 S E. unfold withinYear, nominalYear.
  destruct (startOfYear (fixedOffset k) now) as [s |] eqn:ES; [| contradiction].
  destruct (endOfYear (fixedOffset k) now) as [e |] eqn:EE; [| contradiction].
  destruct (fixedOffset_year k now P0 P1 s e ES EE) as (I & L).
  split.
  - apply andb_true_iff. split; [apply Z.leb_le | apply Z.ltb_lt]; lia.
  - apply Z.eqb_eq. exact L.
Qed.

Lemma fixed_offset_year_is_nominal_witness :
  plainYear (getFullYear (fixedOffset 28800000) jan1_2024) = true /\
  plainYear (getFullYear (fixedOffset 28800000) jan1_2024 + 1) = true /\
  withinYear (fixedOffset 28800000) jan1_2024 = true.
Proof.
  split; [reflexivity |]. split; [reflexivity |].
  apply (fixed_offset_year_is_nominal 28800000 jan1_2024);
    [reflexivity | reflexivity | discriminate | discriminate].
Defined.

End MoreCalcFacts.

(** * Further properties of the texts *)

Section MoreTextFacts.

Import Binary64.

Lemma filledBlocks_bar (n m : nat) (rest : JS.str) :
  filledBlocks (repeat 9619%N n ++ repeat 9617%N m ++ 32%N :: rest) = n.
Proof.
  induction n as [| n IH]; cbn.
  - destruct m; reflexivity.
  - rewrite IH. reflexivity.
Qed.

(** X7.  The bar of the clipboard text shows the percentage in bands of
    one fifteenth centred on the multiples of 100/15: for a stored
    percentage from 0 to 100 the text starts with exactly [k] filled
    glyphs whenever (20k - 10)/3 <= percentage <= (20k + 10)/3 with a
    margin of 2^-40 / 3 on either side, and only if the percentage is in
    that band widened by the same margin; within the margin the binary64
    quotient decides.  So the bar is full from 96.67 percent on and empty
    up to 3.33 percent. *)
Theorem clipboard_bar_bands (p : Q) :
  (0 <= p)%Q -> (p <= 100)%Q ->
  exists text : JS.str,
    clipboardTextOf (JS.Finite p) = Some text /\
    (filledBlocks text <= 15)%nat /\
    (forall k : Z,
       (inject_Z (20 * k - 10) + (1 # 1099511627776) <= 3 * p /\
        3 * p <= inject_Z (20 * k + 10) - (1 # 1099511627776))%Q ->
       Z.of_nat (filledBlocks text) = k) /\
    (forall k : Z,
       Z.of_nat (filledBlocks text) = k ->
       (inject_Z (20 * k - 10) - (1 # 1099511627776) <= 3 * p /\
        3 * p <= inject_Z (20 * k + 10) + (1 # 1099511627776))%Q) /\
    ((967 # 10 <= p)%Q -> filledBlocks text = 15%nat) /\
    ((p <= 33 # 10)%Q -> filledBlocks text = 0%nat).
Proof.
  intros L U. destruct (numFilled_in_range p L U) as (_ & B & B1 & B2).
  pose proof (clipboardTextOf_bar p L U) as T. cbv zeta in T.
  set (n := JS.roundHalfUp _) in *. clearbody n.
  eexists. split; [exact T |]. rewrite filledBlocks_bar.
  assert (K : forall k : Z,
             (inject_Z (20 * k - 10) + (1 # 1099511627776) <= 3 * p /\
              3 * p <= inject_Z (20 * k + 10) - (1 # 1099511627776))%Q ->
             Z.of_nat (Z.to_nat n) = k).
  { intros k [A1 A2]. rewrite Z2Nat.id by lia.
    replace (20 * k - 10) with (20 * k + -10) in A1 by lia.
    rewrite !inject_Z_plus, !inject_Z_mult in A1, A2.
    change (inject_Z 20) with 20%Q in *. change (inject_Z 10) with 10%Q in *.
    change (inject_Z (-10)) with (-10)%Q in *.
    assert (X1 : (inject_Z n < inject_Z k + 1)%Q) by lra.
    assert (X2 : (inject_Z k - 1 < inject_Z n)%Q) by lra.
    change 1%Q with (inject_Z 1) in X1, X2.
    rewrite <- inject_Z_plus, <- Zlt_Qlt in X1.
    assert (X3 : (inject_Z (k + -1) < inject_Z n)%Q)
      by (rewrite inject_Z_plus; change (inject_Z (-1)) with (-1)%Q;
          change (inject_Z 1) with 1%Q in X2; lra).
    rewrite <- Zlt_Qlt in X3. lia. }
  split; [lia |]. split; [exact K |]. split.
  - intros k E. rewrite Z2Nat.id in E by lia. subst k.
    replace (20 * n - 10) with (20 * n + -10) by lia.
    rewrite !inject_Z_plus, !inject_Z_mult.
    change (inject_Z 20) with 20%Q. change (inject_Z 10) with 10%Q.
    change (inject_Z (-10)) with (-10)%Q. split; lra.
  - split.
    + intros H. apply Nat2Z.inj. change (Z.of_nat (Z.to_nat n) = 15). apply K.
      change (inject_Z (20 * 15 - 10)) with 290%Q.
      change (inject_Z (20 * 15 + 10)) with 310%Q. split; lra.
    + intros H. apply Nat2Z.inj. change (Z.of_nat (Z.to_nat n) = 0). apply K.
      change (inject_Z (20 * 0 - 10)) with (-10)%Q.
      change (inject_Z (20 * 0 + 10)) with 10%Q. split; lra.
Qed.

Lemma clipboard_bar_bands_witness :
  (0 <= 40)%Q /\ (40 <= 100)%Q /\
  exists text : JS.str,
    clipboardTextOf (JS.Finite 40) = Some text /\
    Z.of_nat (filledBlocks text) = 6.
Proof.
  split; [discriminate |]. split; [discriminate |].
  destruct (clipboard_bar_bands 40) as (text & T & _ & F & _);
    [discriminate | discriminate |].
  exists text. split; [exact T |].
  apply F. split; discriminate.
Defined.

(** X8.  The bar never loses a block while a year goes on: for two valid
    instants of the same local year, neither before the start of the
    year, both texts exist and the later one starts with at least as many
    filled glyphs as the earlier one. *)
Theorem clipboard_bar_grows_within_year
    (tz : TimeZone) (now1 now2 s : Z) :
  validTime now1 = true -> validTime now2 = true ->
  getFullYear tz now1 = getFullYear tz now2 ->
  startOfYear tz now1 = Some s -> s <= now1 -> now1 <= now2 ->
  exists text1 text2 : JS.str,
    clipboardTextOf (percentage (getYearProgressPrecise tz now1)) = Some text1 /\
    clipboardTextOf (percentage (getYearProgressPrecise tz now2)) = Some text2 /\
    (filledBlocks text1 <= filledBlocks text2 <= 15)%nat.
Proof.
  intros V1 V2 Y S1 L1 L.
  assert (S2 : startOfYear tz now2 = Some s)
    by (unfold startOfYear in *; rewrite <- Y; exact S1).
  assert (T : totalMsInYear tz now2 = totalMsInYear tz now1)
    by (unfold totalMsInYear; rewrite Y; reflexivity).
  pose proof (totalMsInYear_range tz now1) as TR.
  destruct (fraction_capped_bounds tz now1 s V1 S1 L1) as (p1 & P1 & A1 & B1).
  destruct (fraction_capped_bounds tz now2 s V2 S2 ltac:(lia)) as (p2 & P2 & A2 & B2).
  assert (M : (p1 <= p2)%Q).
  { destruct (percentage_valid tz now1 s V1 S1) as (Q1 & _).
    destruct (percentage_valid tz now2 s V2 S2) as (Q2 & _).
    rewrite T in Q2. rewrite P1 in Q1. rewrite P2 in Q2.
    injection Q1 as ->. injection Q2 as ->.
    apply cap_mono, rawPercentage_mono; [lia |].
    apply roundToPrecision_mono. rewrite <- Zle_Qle. lia. }
  rewrite P1, P2.
  pose proof (clipboardTextOf_bar p1 A1 B1) as T1.
  pose proof (clipboardTextOf_bar p2 A2 B2) as T2. cbv zeta in T1, T2.
  destruct (numFilled_in_range p1 A1 B1) as (_ & N1 & _).
  destruct (numFilled_in_range p2 A2 B2) as (_ & N2 & _).
  pose proof (numFilled_mono p1 p2 M) as NM.
  eexists. eexists. split; [exact T1 |]. split; [exact T2 |].
  rewrite !filledBlocks_bar. lia.
Qed.

Lemma clipboard_bar_grows_within_year_witness :
  validTime jan1_2024 = true /\
  validTime (jan1_2024 + 183 * msPerDay) = true /\
  getFullYear utc jan1_2024 = getFullYear utc (jan1_2024 + 183 * msPerDay) /\
  startOfYear utc jan1_2024 = Some jan1_2024 /\
  jan1_2024 <= jan1_2024 /\ jan1_2024 <= jan1_2024 + 183 * msPerDay /\
  exists text1 text2 : JS.str,
    clipboardTextOf (percentage (getYearProgressPrecise utc jan1_2024)) =
      Some text1 /\
    clipboardTextOf
      (percentage (getYearProgressPrecise utc (jan1_2024 + 183 * msPerDay))) =
      Some text2 /\
    (filledBlocks text1 <= filledBlocks text2 <= 15)%nat.
Proof.
  assert (L : jan1_2024 <= jan1_2024 + 183 * msPerDay)
    by (vm_compute; discriminate).
  split; [reflexivity |]. split; [reflexivity |]. split; [reflexivity |].
  split; [reflexivity |]. split; [apply Z.le_refl |]. split; [exact L |].
  exact (clipboard_bar_grows_within_year utc jan1_2024
           (jan1_2024 + 183 * msPerDay) jan1_2024
           eq_refl eq_refl eq_refl eq_refl (Z.le_refl _) L).
Defined.

(** ** The display string of the percentage *)

Lemma parseDigits_leading_zeros (j : nat) (s : JS.str) :
  parseDigits (repeat 48%N j ++ s) = parseDigits s.
Proof.
  induction j as [| j IH]; [reflexivity |].
  rewrite <- IH. unfold parseDigits. cbn [repeat app uintOfUnits].
  destruct (uintOfUnits (repeat 48%N j ++ s)) as [d |]; reflexivity.
Qed.

Lemma decimal_nonempty (n : Z) : JS.decimal n <> [].
Proof.
  destruct (decimal_canonical n) as [E | (c & rest & E & _)]; rewrite E;
    discriminate.
Qed.

(** The part before the point has no leading zero, "0" apart. *)
Lemma integer_part_canonical (f : nat) (m : JS.str) :
  (m = [48%N] \/ exists c rest, m = c :: rest /\ c <> 48%N) ->
  let z := repeat 48%N (S (S f) - length m) ++ m in
  let intPart := firstn (length z - S f) z in
  intPart = [48%N] \/ exists c rest, intPart = c :: rest /\ c <> 48%N.
Proof.
  intros C z intPart.
  destruct (Nat.le_gt_cases (S (S f)) (length m)) as [G | G].
  - (* enough digits: no padding *)
    assert (Z0 : z = m).
    { subst z. replace (S (S f) - length m)%nat with O by lia. reflexivity. }
    subst intPart. rewrite Z0.
    destruct C as [-> | (c & rest & -> & N)]; [cbn in G; lia |].
    right. cbn [length] in *.
    replace (S (length rest) - S f)%nat with (S (length rest - S f)) by lia.
    cbn [firstn]. eexists. eexists. split; [reflexivity | exact N].
  - (* padded to f + 2 characters: the part before the point is "0" *)
    left. subst intPart.
    assert (LZ : length z = S (S f)).
    { subst z. rewrite length_app, repeat_length. lia. }
    rewrite LZ. replace (S (S f) - S f)%nat with 1%nat by lia.
    subst z. destruct (S (S f) - length m)%nat as [| j] eqn:E; [lia |].
    reflexivity.
Qed.

Lemma toFixed_shape (f : nat) (x : Q) :
  (0 <= x)%Q ->
  let n := Qfloor (x * inject_Z (10 ^ Z.of_nat (S f)) + (1 # 2)) in
  exists intPart fracPart : JS.str,
    JS.toFixed (S f) (JS.Finite x) = intPart ++ 46%N :: fracPart /\
    (intPart = [48%N] \/ exists c rest, intPart = c :: rest /\ c <> 48%N) /\
    length fracPart = S f /\
    parseDigits (intPart ++ fracPart) = Some n /\
    (inject_Z n - (1 # 2) <= x * inject_Z (10 ^ Z.of_nat (S f)) /\
     x * inject_Z (10 ^ Z.of_nat (S f)) < inject_Z n + (1 # 2))%Q.
Proof.
  intros H n. unfold JS.toFixed, JS.toFixedFinite, JS.Qltb.
  apply Qle_bool_iff in H. rewrite H. cbn [negb app]. fold n.
  apply Qle_bool_iff in H.
  assert (P : (0 <= x * inject_Z (10 ^ Z.of_nat (S f)))%Q).
  { apply Qmult_le_0_compat; [exact H |].
    change 0%Q with (inject_Z 0). rewrite <- Zle_Qle. apply Z.pow_nonneg. lia. }
  pose proof (Qfloor_le (x * inject_Z (10 ^ Z.of_nat (S f)) + (1 # 2))) as A.
  pose proof (Qlt_floor (x * inject_Z (10 ^ Z.of_nat (S f)) + (1 # 2))) as B.
  fold n in A, B. rewrite inject_Z_plus in B. change (inject_Z 1) with 1%Q in B.
  assert (N0 : 0 <= n).
  { subst n. change 0 with (Qfloor 0). apply Qfloor_resp_le.
    set (y := (x * inject_Z (10 ^ Z.of_nat (S f)))%Q) in *. lra. }
  set (y := (x * inject_Z (10 ^ Z.of_nat (S f)))%Q) in *.
  set (m := JS.decimal n).
  pose proof (integer_part_canonical f m (decimal_canonical n)) as IC.
  cbv zeta in IC.
  set (z := repeat 48%N (S (S f) - length m) ++ m) in *.
  assert (K : (S f < length z)%nat)
    by (subst z; rewrite length_app, repeat_length; lia).
  exists (firstn (length z - S f) z), (skipn (length z - S f) z).
  split; [reflexivity |]. split; [exact IC |].
  split; [rewrite length_skipn; lia |]. split.
  - rewrite firstn_skipn. subst z. rewrite parseDigits_leading_zeros.
    apply parseDigits_decimal, N0.
  - split; lra.
Qed.

(** X9.  The percentage shown on the page is the stored percentage
    rounded to six decimals: for a valid instant that is not before the
    start of its year, [displayPercentage] is a numeral without a leading
    zero, a point and exactly six digits, and read without the point it
    is the integer nearest to a million times the stored percentage, the
    larger one on a tie. *)
Theorem displayPercentage_is_rounding (tz : TimeZone) (now s : Z) :
  validTime now = true -> startOfYear tz now = Some s -> s <= now ->
  let r := getYearProgressPrecise tz now in
  exists (p : Q) (intPart fracPart : JS.str) (n : Z),
    percentage r = JS.Finite p /\
    displayPercentage r = intPart ++ 46%N :: fracPart /\
    (intPart = [48%N] \/ exists c rest, intPart = c :: rest /\ c <> 48%N) /\
    length fracPart = 6%nat /\
    parseDigits (intPart ++ fracPart) = Some n /\
    (inject_Z n - (1 # 2) <= p * 1000000 /\
     p * 1000000 < inject_Z n + (1 # 2))%Q.
Proof.
  intros V S L r. subst r.
  destruct (fraction_capped_bounds tz now s V S L) as (p & P & A & _).
  destruct (toFixed_shape 5 p A) as (a & b & E & C & B & D & F).
  exists p, a, b. eexists. split; [exact P |].
  split; [rewrite displayPercentage_eq, P; exact E |].
  split; [exact C |]. split; [exact B |]. split; [exact D |]. exact F.
Qed.

Lemma displayPercentage_is_rounding_witness :
  validTime (jan1_2024 + 183 * msPerDay) = true /\
  startOfYear utc (jan1_2024 + 183 * msPerDay) = Some jan1_2024 /\
  jan1_2024 <= jan1_2024 + 183 * msPerDay /\
  exists (intPart fracPart : JS.str),
    displayPercentage (getYearProgressPrecise utc (jan1_2024 + 183 * msPerDay)) =
      intPart ++ 46%N :: fracPart /\ length fracPart = 6%nat.
Proof.
  assert (L : jan1_2024 <= jan1_2024 + 183 * msPerDay)
    by (vm_compute; discriminate).
  split; [reflexivity |]. split; [reflexivity |]. split; [exact L |].
  destruct (displayPercentage_is_rounding utc (jan1_2024 + 183 * msPerDay)
              jan1_2024 eq_refl eq_refl L)
    as (p & a & b & n & _ & E & _ & B & _).
  exists a, b. split; [exact E | exact B].
Defined.

End MoreTextFacts.

(** * Further properties of the scheduler of [script.js] *)

Section MoreScriptFacts.

Import Script.

Local Opaque getYearProgressPrecise clipboardTextOf.

Local Ltac split_handlers :=
  repeat (cbn in *;
    match goal with
    | |- context [if ?b then _ else _] => is_var b; destruct b
    | |- context [negb ?b] => is_var b; destruct b
    | |- context [andb ?b _] => is_var b; destruct b
    | |- context [match ?x with _ => _ end] => is_var x; destruct x
    | |- context [?a =? ?b] => destruct (Z.eqb_spec a b)
    | |- context [clipboardTextOf ?q] => destruct (clipboardTextOf q)
    | |- context [existsb ?f ?l] => destruct (existsb f l)
    end);
  cbn in *.

Lemma legacy_handleVisibilityChange_idempotent (w : World) :
  Legacy.handleVisibilityChange (Legacy.handleVisibilityChange w) =
  Legacy.handleVisibilityChange w.
Proof.
  destruct w as [? ? hid ? ivs tos ? ? cl vl ed ea ? ut ? db].
  unfold Legacy.handleVisibilityChange, updateUI, clearInterval, clearTimer,
    setInterval.
  destruct hid, ut; reflexivity.
Qed.

(** X10.  The visibility handler of [script.js], and that of the first
    version of the script, is idempotent in every state: a notification
    that repeats the current visibility arms nothing, clears nothing and
    paints nothing beyond what the first one did. *)
Theorem visibility_handler_is_idempotent :
  (forall w : World,
     handleVisibilityChange (handleVisibilityChange w) =
     handleVisibilityChange w) /\
  (forall w : World,
     Legacy.handleVisibilityChange (Legacy.handleVisibilityChange w) =
     Legacy.handleVisibilityChange w).
Proof.
  split; [exact handleVisibilityChange_idempotent
         | exact legacy_handleVisibilityChange_idempotent].
Qed.

(** ** One interval at most, none on a hidden page *)

Lemma advance_singleInterval (t : Z) (w : World) :
  singleInterval w -> singleInterval (advance t w).
Proof.
  unfold singleInterval. rewrite advance_intervals, advance_updateTimer.
  exact (fun H => H).
Qed.

Lemma dispatch_singleInterval (e : Event) (w : World) :
  isDOMContentLoaded e = false ->
  singleInterval w -> singleInterval (dispatch e w).
Proof.
  intros D P.
  destruct e as [l | b | h | | | s | f |]; [discriminate D | | | | | | |].
  all: revert P; clear D.
  all: destruct w as [? ? hid ? ivs tos ? ? cl vl ed ea ? ut ? db];
    unfold singleInterval, dispatch, setLanguage, handleVisibilityChange,
      debouncedUpdateUI, copyToClipboard, exportClick, exportBegin,
      exportFinally, cleanup, updateUI, clearInterval, clearTimeout,
      clearTimer, setInterval, setTimeout; cbn;
    intros P.
  all: destruct ivs as [| i [| j ivs]]; cbn in P; try contradiction.
  all: split_handlers; try exact I; try congruence.
Qed.

Lemma run_singleInterval (tes : list (Z * Event)) (w : World) :
  afterStartup tes = true -> singleInterval w -> singleInterval (run w tes).
Proof.
  revert w. induction tes as [| te tes IH]; intros w A P; [exact P |].
  cbn [afterStartup forallb] in A. apply andb_true_iff in A.
  destruct A as [A0 A1]. apply negb_true_iff in A0.
  cbn [run fold_left]. apply IH; [exact A1 |]. unfold step.
  apply dispatch_singleInterval; [exact A0 |].
  apply advance_singleInterval, P.
Qed.

Lemma startup_singleInterval (tza : TimeZone) (t t0 : Z) (isHidden : bool) (lang : Lang) :
  singleInterval (step (loaded tza t isHidden) (t0, DOMContentLoaded lang)) /\
  onePending (step (loaded tza t isHidden) (t0, DOMContentLoaded lang)).
Proof. destruct isHidden; split; cbn; reflexivity. Qed.

Lemma hidden_notification_clears (w : World) (t : Z) :
  singleInterval w -> onePending w -> visibilityListener w = true ->
  intervals (step w (t, VisibilityChange true)) = [] /\
  timeouts (step w (t, VisibilityChange true)) = [] /\
  updateTimer (step w (t, VisibilityChange true)) = None /\
  debounceTimeout (step w (t, VisibilityChange true)) = None.
Proof.
  intros S P V.
  apply (advance_singleInterval t) in S. apply (advance_onePending t) in P.
  assert (V' : visibilityListener (advance t w) = true).
  { unfold advance. cbn.
    rewrite (fold_updateUI_preserves visibilityListener) by reflexivity.
    exact V. }
  unfold step. cbn [fst snd]. revert S P V'. generalize (advance t w).
  clear. intros w.
  destruct w as [? ? hid ? ivs tos ? ? cl vl ed ea ? ut ? db].
  unfold singleInterval, onePending, dispatch, handleVisibilityChange,
    clearInterval, clearTimeout, clearTimer. cbn.
  intros S P ->.
  destruct ivs as [| i [| j ivs]]; cbn in S; try contradiction;
    destruct tos as [| [h d] [| q tos]]; cbn in P; try contradiction;
    subst; split_handlers; repeat split; try reflexivity; try congruence.
Qed.

(** X11.  When [DOMContentLoaded] is the first event and does not occur
    again, the page never has more than one interval armed and never more
    than one deferred update pending, and while the visibility listener is
    attached every "hidden" notification leaves no timer at all: no
    interval, no pending timeout, both handles null. *)
Theorem orderly_page_has_no_timer_when_hidden
    (tza : TimeZone) (t t0 : Z) (isHidden : bool) (lang : Lang)
    (tes : list (Z * Event)) :
  afterStartup tes = true ->
  let w := run (loaded tza t isHidden) ((t0, DOMContentLoaded lang) :: tes) in
  (length (intervals w) <= 1)%nat /\ (length (timeouts w) <= 1)%nat /\
  (forall t', visibilityListener w = true ->
     intervals (step w (t', VisibilityChange true)) = [] /\
     timeouts (step w (t', VisibilityChange true)) = [] /\
     updateTimer (step w (t', VisibilityChange true)) = None /\
     debounceTimeout (step w (t', VisibilityChange true)) = None).
Proof.
  intros A w.
  destruct (startup_singleInterval tza t t0 isHidden lang) as [S0 P0].
  assert (S : singleInterval w)
    by (apply (run_singleInterval tes _ A), S0).
  assert (P : onePending w) by (apply (run_onePending tes), P0).
  split; [| split].
  - unfold singleInterval in S.
    destruct (intervals w) as [| i [| j l]]; cbn; [lia | lia | contradiction].
  - apply onePending_length, P.
  - intros t' V. apply hidden_notification_clears; assumption.
Qed.

Lemma orderly_page_has_no_timer_when_hidden_witness :
  afterStartup [(jan1_2024 + 500, IntervalTick 1)] = true /\
  intervals
    (step
       (run (loaded utc jan1_2024 false)
          [(jan1_2024, DOMContentLoaded en); (jan1_2024 + 500, IntervalTick 1)])
       (jan1_2024 + 600, VisibilityChange true)) = [].
Proof.
  split; [reflexivity |].
  apply (orderly_page_has_no_timer_when_hidden utc jan1_2024 jan1_2024 false en
           [(jan1_2024 + 500, IntervalTick 1)] eq_refl).
  vm_compute. reflexivity.
Defined.

(** ** Calls that are far enough apart are all painted *)

Lemma trigger_after_due (w : World) (t h t' : Z) :
  armedAt w t h -> t + DEBOUNCE_DELAY <= t' ->
  armedAt (trigger w t') t' (nextTimer w) /\
  rendered (trigger w t') =
    rendered w ++ [getYearProgressPrecise (LocalTZA w) (t + DEBOUNCE_DELAY)] /\
  LocalTZA (trigger w t') = LocalTZA w.
Proof.
  intros A D.
  destruct (advance_after_due w t h t' A D) as (R & _ & T).
  assert (P : onePending (advance t' w))
    by (unfold onePending; rewrite T; exact I).
  destruct (debouncedUpdateUI_cases _ P) as (X & Y & Z' & _ & U).
  assert (N : nextTimer (advance t' w) = nextTimer w)
    by (unfold advance; cbn;
        rewrite (fold_updateUI_preserves nextTimer) by reflexivity;
        reflexivity).
  assert (L : LocalTZA (advance t' w) = LocalTZA w)
    by (unfold advance; cbn;
        rewrite (fold_updateUI_preserves LocalTZA) by reflexivity;
        reflexivity).
  unfold trigger, armedAt. rewrite X, Y, Z', U, N, R, L.
  repeat split; reflexivity.
Qed.

Lemma burst_spaced (ts : list Z) :
  forall (w : World) (t h : Z),
    armedAt w t h -> spacedApart t ts = true ->
    (exists h', armedAt (burst w ts) (last ts t) h') /\
    rendered (burst w ts) ++
      [getYearProgressPrecise (LocalTZA w) (last ts t + DEBOUNCE_DELAY)] =
    rendered w ++
      map (fun x => getYearProgressPrecise (LocalTZA w) (x + DEBOUNCE_DELAY))
        (t :: ts) /\
    LocalTZA (burst w ts) = LocalTZA w.
Proof.
  induction ts as [| t' ts IH]; intros w t h A S.
  - cbn. split; [exists h; exact A |]. split; reflexivity.
  - cbn [spacedApart] in S. apply andb_true_iff in S. destruct S as [S0 S1].
    apply Z.leb_le in S0.
    destruct (trigger_after_due w t h t' A S0) as (A' & R' & L').
    destruct (IH _ _ _ A' S1) as (X & Y & Z').
    cbn [burst fold_left]. fold (burst (trigger w t') ts).
    rewrite last_cons. split; [exact X |].
    rewrite L' in Y, Z'. rewrite Y, R', Z'. cbn [map].
    rewrite <- app_assoc. split; reflexivity.
Qed.

Lemma intervalTicks_spaced (n : nat) :
  forall t, spacedApart t (intervalTicks t n) = true.
Proof.
  induction n as [| n IH]; intros t; [reflexivity |].
  cbn [intervalTicks spacedApart]. rewrite IH, andb_true_r.
  apply Z.leb_le. unfold DEBOUNCE_DELAY, UPDATE_INTERVAL. lia.
Qed.

(** X12.  The debounce drops nothing when the calls are at least one
    debounce delay apart: once the last call has been quiet for 200 ms,
    every call has been painted exactly once, in order, each with the
    record of the instant 200 ms after it, and nothing is left pending.
    The ticks of the 500 ms interval are such calls, so the debounce only
    delays each periodic refresh by 200 ms. *)
Theorem spaced_calls_are_all_painted (w : World) (t T : Z) (ts : list Z) :
  timeouts w = [] ->
  spacedApart t ts = true ->
  last ts t + DEBOUNCE_DELAY <= T ->
  rendered (advance T (burst w (t :: ts))) =
    rendered w ++
    map (fun x => getYearProgressPrecise (LocalTZA w) (x + DEBOUNCE_DELAY))
      (t :: ts) /\
  timeouts (advance T (burst w (t :: ts))) = [] /\
  (forall (n : nat) (t0 : Z), spacedApart t0 (intervalTicks t0 n) = true).
Proof.
  intros E S Q.
  assert (P : onePending w) by (unfold onePending; rewrite E; exact I).
  assert (D : forallb (fun p => negb (snd p <=? t)) (timeouts w) = true)
    by (rewrite E; reflexivity).
  destruct (trigger_arms w t P D) as (A & B & _ & F).
  destruct (burst_spaced ts _ _ _ A S) as ([h H] & R & L).
  change (burst (trigger w t) ts) with (burst w (t :: ts)) in *.
  destruct (advance_after_due _ _ _ T H Q) as (X & _ & Z').
  rewrite X, L, R, B, F. split; [reflexivity |].
  split; [exact Z' | exact (fun n t0 => intervalTicks_spaced n t0)].
Qed.

Lemma spaced_calls_are_all_painted_witness :
  timeouts (loaded utc jan1_2024 false) = [] /\
  spacedApart (jan1_2024 + 500) [jan1_2024 + 1000; jan1_2024 + 1500] = true /\
  last [jan1_2024 + 1000; jan1_2024 + 1500] (jan1_2024 + 500) + DEBOUNCE_DELAY
    <= jan1_2024 + 1700 /\
  timeouts
    (advance (jan1_2024 + 1700)
       (burst (loaded utc jan1_2024 false)
          [jan1_2024 + 500; jan1_2024 + 1000; jan1_2024 + 1500])) = [].
Proof.
  split; [reflexivity |]. split; [reflexivity |].
  assert (Q : last [jan1_2024 + 1000; jan1_2024 + 1500] (jan1_2024 + 500) +
              DEBOUNCE_DELAY <= jan1_2024 + 1700)
    by (vm_compute; discriminate).
  split; [exact Q |].
  exact (proj1 (proj2 (spaced_calls_are_all_painted
                         (loaded utc jan1_2024 false) (jan1_2024 + 500)
                         (jan1_2024 + 1700)
                         [jan1_2024 + 1000; jan1_2024 + 1500]
                         eq_refl eq_refl Q))).
Defined.

(** ** After [cleanup] *)

(** X13.  On a page with at most one interval and one deferred update,
    both named by their handles, [cleanup] leaves no timer armed and no
    handle set, and from then on no click, no visibility notification and
    no second unload runs any handler: each leaves the page as [cleanup]
    left it (a visibility notification only changes [document.hidden]). *)
Theorem cleanup_leaves_nothing_running (w : World) (e : Event) :
  singleInterval w -> onePending w -> needsListener e = true ->
  intervals (cleanup w) = [] /\ timeouts (cleanup w) = [] /\
  updateTimer (cleanup w) = None /\ debounceTimeout (cleanup w) = None /\
  dispatch e (cleanup w) =
    match e with
    | VisibilityChange b => set_hidden b (cleanup w)
    | _ => cleanup w
    end.
Proof.
  destruct w as [? ? hid ? ivs tos ? ? cl vl ed ea ? ut ? db].
  unfold singleInterval, onePending. cbn. intros S P N.
  destruct ivs as [| i [| j ivs]]; cbn in S; try contradiction;
    destruct tos as [| [h d] [| q tos]]; cbn in P; try contradiction;
    subst; destruct e as [l | b | h' | | | s | f |]; try discriminate N;
    unfold cleanup, dispatch, clearInterval, clearTimeout, clearTimer;
    split_handlers; repeat split; try reflexivity; try congruence.
Qed.

Lemma cleanup_leaves_nothing_running_witness :
  singleInterval
    (run (loaded utc jan1_2024 false) [(jan1_2024, DOMContentLoaded en)]) /\
  onePending
    (run (loaded utc jan1_2024 false) [(jan1_2024, DOMContentLoaded en)]) /\
  needsListener CopyClick = true /\
  intervals
    (cleanup
       (run (loaded utc jan1_2024 false) [(jan1_2024, DOMContentLoaded en)])) = [].
Proof.
  assert (S : singleInterval
                (run (loaded utc jan1_2024 false)
                   [(jan1_2024, DOMContentLoaded en)]))
    by (vm_compute; reflexivity).
  assert (P : onePending
                (run (loaded utc jan1_2024 false)
                   [(jan1_2024, DOMContentLoaded en)]))
    by (vm_compute; exact I).
  split; [exact S |]. split; [exact P |]. split; [reflexivity |].
  exact (proj1 (cleanup_leaves_nothing_running _ CopyClick S P eq_refl)).
Defined.

End MoreScriptFacts.

(** * Further properties of the frame-driven variant *)

Section MoreFrameFacts.

Import FrameLoop.

Local Opaque getYearProgressPrecise clipboardTextOf.

Local Ltac split_cases :=
  repeat (cbn in *;
    match goal with
    | |- context [if ?b then _ else _] => is_var b; destruct b
    | |- context [negb ?b] => is_var b; destruct b
    | |- context [andb ?b _] => is_var b; destruct b
    | |- context [orb ?b _] => is_var b; destruct b
    | |- context [match ?x with _ => _ end] => is_var x; destruct x
    | |- context [?a =? ?b] => destruct (Z.eqb_spec a b)
    | |- context [clipboardTextOf ?q] => destruct (clipboardTextOf q)
    end);
  cbn in *.

Lemma runFrame_armed (w : World) (t : Z) :
  loopsArmed w ->
  loopsArmed (runFrame w t) /\
  liveRendered (runFrame w t) =
    liveRendered w ++ [getYearProgressPrecise (LocalTZA w) t] /\
  staticRendered (runFrame w t) = staticRendered w /\
  LocalTZA (runFrame w t) = LocalTZA w.
Proof.
  destruct w as [? ? hid ? fs ? ivs ? ? ? ? ? ? ? af st].
  unfold loopsArmed, runFrame. cbn.
  destruct fs as [| f [| f' fs]]; try contradiction.
  destruct ivs as [| i [| i' ivs]]; try contradiction.
  intros [-> ->]. unfold step, dispatch. cbn. rewrite Z.eqb_refl. cbn.
  repeat split; reflexivity.
Qed.

(** X14.  While the loops are armed the animation loop paints once per
    frame, with the record of the instant of that frame, and asks for
    exactly one next frame: after any number of frames one request and one
    interval are armed, the live display has received one record per
    frame, in order, and the day counters have not been touched. *)
Theorem animation_loop_paints_once_per_frame (w : World) (ts : list Z) :
  loopsArmed w ->
  loopsArmed (runFrames w ts) /\
  liveRendered (runFrames w ts) =
    liveRendered w ++ map (getYearProgressPrecise (LocalTZA w)) ts /\
  staticRendered (runFrames w ts) = staticRendered w.
Proof.
  revert w. induction ts as [| t ts IH]; intros w A.
  - cbn. rewrite app_nil_r. repeat split; [exact A | reflexivity..].
  - destruct (runFrame_armed w t A) as (A' & L & S & Z').
    destruct (IH _ A') as (X & Y & U).
    cbn [runFrames fold_left]. fold (runFrames (runFrame w t) ts).
    split; [exact X |]. rewrite Y, U, L, S, Z'. cbn [map].
    rewrite <- app_assoc. split; reflexivity.
Qed.

Lemma animation_loop_paints_once_per_frame_witness :
  loopsArmed
    (run (loaded utc jan1_2024 false) [(jan1_2024, DOMContentLoaded en)]) /\
  loopsArmed
    (runFrames
       (run (loaded utc jan1_2024 false) [(jan1_2024, DOMContentLoaded en)])
       [jan1_2024 + 16; jan1_2024 + 33]).
Proof.
  assert (A : loopsArmed
                (run (loaded utc jan1_2024 false)
                   [(jan1_2024, DOMContentLoaded en)]))
    by (vm_compute; split; reflexivity).
  split; [exact A |].
  exact (proj1 (animation_loop_paints_once_per_frame _
                  [jan1_2024 + 16; jan1_2024 + 33] A)).
Defined.

(** ** Orderly runs *)

Lemma dispatch_armedIffVisible (e : Event) (w : World) :
  orderly w e = true -> armedIffVisible w -> armedIffVisible (dispatch e w).
Proof.
  intros O P. revert O P.
  destruct w as [? ? hid ? fs ? ivs ? ? ? ls ed ea ? af st].
  unfold armedIffVisible, loopsArmed, loopsIdle, orderly. cbn.
  destruct e as [l | b | h | h | | | s | f]; cbn; intros O (L & D & P);
    try discriminate O; subst ls ed;
    destruct hid, ea; cbn in P;
    try (destruct P as [-> ->]);
    try (destruct fs as [| f0 [| f1 fs]]; try contradiction;
         destruct ivs as [| i0 [| i1 ivs]]; try contradiction;
         destruct P as [-> ->]);
    unfold dispatch, handleVisibilityChange, exportClick, exportBegin,
      exportFinally, setLanguage, copyToClipboard, animationLoop,
      updateLiveElements, updateStaticElements, requestAnimationFrame,
      cancelAnimationFrame, setInterval, clearInterval;
    split_cases; try discriminate O;
    repeat split; try reflexivity; try congruence; try contradiction.
Qed.

Lemma set_clock_armedIffVisible (t : Z) (w : World) :
  armedIffVisible w -> armedIffVisible (set_clock t w).
Proof. destruct w; exact (fun H => H). Qed.

Lemma run_armedIffVisible (tes : list (Z * Event)) :
  forall w, orderlyRun w tes = true -> armedIffVisible w ->
            armedIffVisible (run w tes).
Proof.
  induction tes as [| te tes IH]; intros w O P; [exact P |].
  cbn [orderlyRun] in O. apply andb_true_iff in O. destruct O as [O0 O1].
  cbn [run fold_left]. apply IH; [exact O1 |]. unfold step.
  apply dispatch_armedIffVisible.
  - destruct te as [t e]. destruct w. destruct e; exact O0.
  - apply set_clock_armedIffVisible, P.
Qed.

Lemma startup_armedIffVisible (tza : TimeZone) (t t0 : Z) (isHidden : bool) (lang : Lang) :
  armedIffVisible (step (loaded tza t isHidden) (t0, DOMContentLoaded lang)).
Proof.
  unfold armedIffVisible, loopsArmed, loopsIdle.
  destruct isHidden; vm_compute; repeat split; reflexivity.
Qed.

(** X15.  As long as the host delivers the events in order (each
    visibility notification reports a change, none arrives while an export
    awaits its capture), the frame-driven page has one frame request and
    one interval armed, named by its two handles, exactly while it is
    visible and no export awaits its capture, and nothing armed
    otherwise. *)
Theorem orderly_frame_page_is_armed_iff_visible
    (tza : TimeZone) (t t0 : Z) (isHidden : bool) (lang : Lang)
    (tes : list (Z * Event)) :
  orderlyRun (step (loaded tza t isHidden) (t0, DOMContentLoaded lang)) tes
    = true ->
  let w := run (loaded tza t isHidden) ((t0, DOMContentLoaded lang) :: tes) in
  (hidden w || exportAwaiting w = true -> frames w = [] /\ intervals w = []) /\
  (hidden w || exportAwaiting w = false ->
   exists f i : Z,
     frames w = [f] /\ intervals w = [i] /\
     animationFrameId w = Some f /\ staticTimerId w = Some i).
Proof.
  intros O w.
  assert (P : armedIffVisible w)
    by (apply (run_armedIffVisible tes _ O), startup_armedIffVisible).
  destruct P as (_ & _ & P). split; intros E; rewrite E in P.
  - exact P.
  - unfold loopsArmed in P.
    destruct (frames w) as [| f [| f' fs]]; try contradiction.
    destruct (intervals w) as [| i [| i' ivs]]; try contradiction.
    exists f, i. destruct P as [A B]. repeat split; assumption.
Qed.

Lemma orderly_frame_page_is_armed_iff_visible_witness :
  orderlyRun
    (step (loaded utc jan1_2024 false) (jan1_2024, DOMContentLoaded en))
    [(jan1_2024 + 16, AnimationFrame 1);
     (jan1_2024 + 50, VisibilityChange true)] = true /\
  frames
    (run (loaded utc jan1_2024 false)
       [(jan1_2024, DOMContentLoaded en); (jan1_2024 + 16, AnimationFrame 1);
        (jan1_2024 + 50, VisibilityChange true)]) = [].
Proof.
  assert (O : orderlyRun
                (step (loaded utc jan1_2024 false)
                   (jan1_2024, DOMContentLoaded en))
                [(jan1_2024 + 16, AnimationFrame 1);
                 (jan1_2024 + 50, VisibilityChange true)] = true)
    by (vm_compute; reflexivity).
  split; [exact O |].
  apply (orderly_frame_page_is_armed_iff_visible utc jan1_2024 jan1_2024 false en
           [(jan1_2024 + 16, AnimationFrame 1);
            (jan1_2024 + 50, VisibilityChange true)] O).
  vm_compute. reflexivity.
Defined.

(** X16.  In the frame-driven variant an export never leaves the page
    frozen: on a visible page with both loops armed, a click on the export
    button followed by the end of the export, in any of its ways, leaves
    one fresh frame request and one fresh interval armed under the two
    handles and the button enabled. *)
Theorem frame_export_always_resumes
    (w : World) (t1 t2 : Z) (s : ExportStart) (fulfilled : bool) :
  armedIffVisible w -> hidden w = false -> exportAwaiting w = false ->
  let w' := run w [(t1, ExportClick s); (t2, ExportSettles fulfilled)] in
  frames w' = [nextFrame w] /\ intervals w' = [nextTimer w] /\
  animationFrameId w' = Some (nextFrame w) /\
  staticTimerId w' = Some (nextTimer w) /\
  exportDisabled w' = false /\ exportAwaiting w' = false.
Proof.
  destruct w as [? ? hid ? fs ? ivs ? ? ? ls ed ea ? af st].
  unfold armedIffVisible, loopsArmed. cbn. intros (-> & -> & P) -> ->.
  cbn in P.
  destruct fs as [| f0 [| f1 fs]]; try contradiction.
  destruct ivs as [| i0 [| i1 ivs]]; try contradiction.
  destruct P as [-> ->].
  destruct s; cbn; rewrite ?Z.eqb_refl; cbn; repeat split; reflexivity.
Qed.

Lemma frame_export_always_resumes_witness :
  armedIffVisible
    (run (loaded utc jan1_2024 false) [(jan1_2024, DOMContentLoaded en)]) /\
  frames
    (run
       (run (loaded utc jan1_2024 false) [(jan1_2024, DOMContentLoaded en)])
       [(jan1_2024 + 100, ExportClick CaptureStarted);
        (jan1_2024 + 900, ExportSettles false)]) = [2].
Proof.
  assert (A : armedIffVisible
                (run (loaded utc jan1_2024 false)
                   [(jan1_2024, DOMContentLoaded en)]))
    by (vm_compute; repeat split; reflexivity).
  split; [exact A |].
  exact (proj1 (frame_export_always_resumes _ (jan1_2024 + 100)
                  (jan1_2024 + 900) CaptureStarted false A eq_refl eq_refl)).
Defined.

End MoreFrameFacts.

(** * Theme and colour *)

Section LookFacts.

Import Look.

Import String.

Lemma removeThemeClasses_dark (l : ClassList.t) :
  Theme.removeThemeClasses l = ClassList.remove "dark"%string l.
Proof. reflexivity. Qed.

Lemma contains_remove_same (c : String.string) (l : ClassList.t) :
  ClassList.contains c (ClassList.remove c l) = false.
Proof.
  unfold ClassList.contains, ClassList.remove.
  induction l as [| x l IH]; [reflexivity |].
  cbn. destruct (String.eqb c x) eqn:E; cbn; [exact IH |].
  rewrite E. exact IH.
Qed.

Lemma contains_remove_other (c d : String.string) (l : ClassList.t) :
  c <> d ->
  ClassList.contains c (ClassList.remove d l) = ClassList.contains c l.
Proof.
  intros N. unfold ClassList.contains, ClassList.remove.
  induction l as [| x l IH]; [reflexivity |].
  cbn. destruct (String.eqb d x) eqn:E; cbn.
  - apply String.eqb_eq in E. subst x.
    destruct (String.eqb c d) eqn:F; [apply String.eqb_eq in F; contradiction |].
    exact IH.
  - rewrite IH. reflexivity.
Qed.

Lemma contains_app (c : String.string) (l m : ClassList.t) :
  ClassList.contains c (l ++ m) =
  ClassList.contains c l || ClassList.contains c m.
Proof. unfold ClassList.contains. apply existsb_app. Qed.

Lemma contains_add_same (c : String.string) (l : ClassList.t) :
  ClassList.contains c (ClassList.add c l) = true.
Proof.
  unfold ClassList.add. destruct (ClassList.contains c l) eqn:E; [exact E |].
  rewrite contains_app, E. cbn. rewrite String.eqb_refl. reflexivity.
Qed.

Lemma contains_add_other (c d : String.string) (l : ClassList.t) :
  c <> d -> ClassList.contains c (ClassList.add d l) = ClassList.contains c l.
Proof.
  intros N. unfold ClassList.add. destruct (ClassList.contains d l); [reflexivity |].
  rewrite contains_app. cbn.
  destruct (String.eqb c d) eqn:F; [apply String.eqb_eq in F; contradiction |].
  rewrite !orb_false_r. reflexivity.
Qed.

Lemma applyTheme_dark_eq (p : Theme.Page) :
  Theme.applyTheme "dark"%string p =
  Theme.mkPage
    (ClassList.add "dark"%string
       (ClassList.remove "dark"%string (Theme.htmlClasses p)))
    true false (Theme.savedTheme p) (Theme.prefersDark p).
Proof. reflexivity. Qed.

Lemma applyTheme_light_eq (p : Theme.Page) :
  Theme.applyTheme "light"%string p =
  Theme.mkPage (ClassList.remove "dark"%string (Theme.htmlClasses p))
    false true (Theme.savedTheme p) (Theme.prefersDark p).
Proof. reflexivity. Qed.

Lemma applyTheme_dark (p : Theme.Page) :
  Theme.isDark (Theme.applyTheme "dark"%string p) = true /\
  Theme.lightIconHidden (Theme.applyTheme "dark"%string p) = true /\
  Theme.darkIconHidden (Theme.applyTheme "dark"%string p) = false /\
  Theme.savedTheme (Theme.applyTheme "dark"%string p) = Theme.savedTheme p /\
  Theme.prefersDark (Theme.applyTheme "dark"%string p) = Theme.prefersDark p.
Proof.
  rewrite applyTheme_dark_eq. unfold Theme.isDark.
  cbn [Theme.htmlClasses Theme.lightIconHidden Theme.darkIconHidden
       Theme.savedTheme Theme.prefersDark].
  split; [apply contains_add_same |]. repeat split; reflexivity.
Qed.

Lemma applyTheme_light (p : Theme.Page) :
  Theme.isDark (Theme.applyTheme "light"%string p) = false /\
  Theme.lightIconHidden (Theme.applyTheme "light"%string p) = false /\
  Theme.darkIconHidden (Theme.applyTheme "light"%string p) = true /\
  Theme.savedTheme (Theme.applyTheme "light"%string p) = Theme.savedTheme p /\
  Theme.prefersDark (Theme.applyTheme "light"%string p) = Theme.prefersDark p.
Proof.
  rewrite applyTheme_light_eq. unfold Theme.isDark.
  cbn [Theme.htmlClasses Theme.lightIconHidden Theme.darkIconHidden
       Theme.savedTheme Theme.prefersDark].
  split; [apply contains_remove_same |]. repeat split; reflexivity.
Qed.

Lemma themeClick_eq (p : Theme.Page) :
  Theme.themeClick p =
  if Theme.isDark p then
    Theme.mkPage (ClassList.remove "dark"%string (Theme.htmlClasses p))
      false true (Some "light"%string) (Theme.prefersDark p)
  else
    Theme.mkPage
      (ClassList.add "dark"%string
         (ClassList.remove "dark"%string (Theme.htmlClasses p)))
      true false (Some "dark"%string) (Theme.prefersDark p).
Proof.
  unfold Theme.themeClick, Theme.toggleTheme, Theme.isDark.
  destruct (ClassList.contains "dark"%string (Theme.htmlClasses p));
    reflexivity.
Qed.

Lemma themeClick_facts (p : Theme.Page) :
  Theme.isDark (Theme.themeClick p) = negb (Theme.isDark p) /\
  Theme.savedTheme (Theme.themeClick p) =
    Some (if Theme.isDark p then "light"%string else "dark"%string) /\
  Theme.lightIconHidden (Theme.themeClick p) = negb (Theme.isDark p) /\
  Theme.darkIconHidden (Theme.themeClick p) = Theme.isDark p.
Proof.
  rewrite themeClick_eq. destruct (Theme.isDark p); unfold Theme.isDark;
    cbn [Theme.htmlClasses Theme.lightIconHidden Theme.darkIconHidden
         Theme.savedTheme negb].
  - split; [apply contains_remove_same |]. repeat split; reflexivity.
  - split; [apply contains_add_same |]. repeat split; reflexivity.
Qed.

Lemma loadTheme_saved (theme : string) (p : Theme.Page) :
  Theme.savedTheme p = Some theme -> truthy theme = true ->
  Theme.loadTheme p = Theme.applyTheme theme p.
Proof.
  intros S T. unfold Theme.loadTheme. rewrite S. cbn [orElse]. rewrite T.
  reflexivity.
Qed.

(** X17.  The theme button toggles the theme and the choice survives a
    reload: a click turns a dark page light and a light page dark, shows
    the icon of the new theme only and saves its name; the page fetched
    again, whatever its markup and the host's colour-scheme preference,
    comes up in the saved theme with the same icon; a second click undoes
    the first; and with nothing saved the host's preference decides. *)
Theorem theme_choice_survives_reload (p markup : Theme.Page) :
  let p' := Theme.themeClick p in
  let q := Theme.loadTheme (Theme.reloaded markup p') in
  Theme.isDark p' = negb (Theme.isDark p) /\
  Theme.savedTheme p' = Some (if Theme.isDark p' then "dark"%string else "light"%string) /\
  Theme.lightIconHidden p' = Theme.isDark p' /\
  Theme.darkIconHidden p' = negb (Theme.isDark p') /\
  (Theme.isDark q = Theme.isDark p' /\
   Theme.lightIconHidden q = Theme.lightIconHidden p' /\
   Theme.darkIconHidden q = Theme.darkIconHidden p') /\
  Theme.isDark (Theme.themeClick p') = Theme.isDark p /\
  (Theme.savedTheme p = None ->
   Theme.isDark (Theme.loadTheme p) = Theme.prefersDark p).
Proof.
  cbv zeta.
  destruct (themeClick_facts p) as (F1 & F2 & F3 & F4).
  destruct (themeClick_facts (Theme.themeClick p)) as (G1 & _ & _ & _).
  rewrite F1, F3, F4, G1, F1, negb_involutive.
  split; [reflexivity |]. split.
  { rewrite F2. destruct (Theme.isDark p); reflexivity. }
  split; [reflexivity |]. split; [reflexivity |]. split; [| split].
  - destruct (Theme.isDark p).
    + rewrite (loadTheme_saved "light"%string) by (exact F2 || reflexivity).
      destruct (applyTheme_light (Theme.reloaded markup (Theme.themeClick p)))
        as (B1 & B2 & B3 & _ & _).
      rewrite B1, B2, B3. repeat split; reflexivity.
    + rewrite (loadTheme_saved "dark"%string) by (exact F2 || reflexivity).
      destruct (applyTheme_dark (Theme.reloaded markup (Theme.themeClick p)))
        as (B1 & B2 & B3 & _ & _).
      rewrite B1, B2, B3. repeat split; reflexivity.
  - reflexivity.
  - intros S. unfold Theme.loadTheme. rewrite S. cbn [orElse].
    destruct (Theme.prefersDark p);
      [apply applyTheme_dark | apply applyTheme_light].
Qed.

(** X18.  For the two themes the three versions of [applyTheme] agree:
    the [html] element carries the class [dark] exactly for the dark
    theme, every other class is left as it was, and exactly the icon of
    the theme is shown.  The version of [script.js] and that of the
    frame-driven variant yield the same page; the first version differs at
    most in the position of [dark] in the class list. *)
Theorem applyTheme_versions_agree (theme : string) (p : Theme.Page) :
  theme = "light"%string \/ theme = "dark"%string ->
  let q := Theme.applyTheme theme p in
  Theme.isDark q = String.eqb theme "dark"%string /\
  Theme.lightIconHidden q = Theme.isDark q /\
  Theme.darkIconHidden q = negb (Theme.isDark q) /\
  (forall c : string,
     c <> "dark"%string ->
     ClassList.contains c (Theme.htmlClasses q) =
     ClassList.contains c (Theme.htmlClasses p)) /\
  Theme.applyTheme_frame theme p = Some q /\
  (forall c : string,
     ClassList.contains c (Theme.htmlClasses (Theme.applyTheme_v1 theme p)) =
     ClassList.contains c (Theme.htmlClasses q)) /\
  Theme.lightIconHidden (Theme.applyTheme_v1 theme p) = Theme.lightIconHidden q /\
  Theme.darkIconHidden (Theme.applyTheme_v1 theme p) = Theme.darkIconHidden q.
Proof.
  intros [-> | ->] q; subst q.
  - destruct (applyTheme_light p) as (A1 & A2 & A3 & _ & _).
    rewrite A1, A2, A3. rewrite applyTheme_light_eq.
    cbn [Theme.htmlClasses].
    repeat split; try reflexivity.
    intros c N. apply contains_remove_other, N.
  - destruct (applyTheme_dark p) as (A1 & A2 & A3 & _ & _).
    rewrite A1, A2, A3. rewrite applyTheme_dark_eq.
    cbn [Theme.htmlClasses].
    split; [reflexivity |]. split; [reflexivity |]. split; [reflexivity |].
    split; [| split; [reflexivity | split; [| split; reflexivity]]].
    + intros c N.
      rewrite contains_add_other, contains_remove_other by exact N.
      reflexivity.
    + intros c. change (Theme.htmlClasses (Theme.applyTheme_v1 "dark"%string p))
        with (ClassList.add "dark"%string (Theme.htmlClasses p)).
      destruct (String.eqb_spec c "dark"%string) as [-> | N].
      * rewrite !contains_add_same. reflexivity.
      * rewrite !contains_add_other, contains_remove_other by exact N.
        reflexivity.
Qed.

Lemma applyTheme_versions_agree_witness :
  ("dark"%string = "light"%string \/ "dark"%string = "dark"%string) /\
  Theme.isDark
    (Theme.applyTheme "dark"%string
       (Theme.mkPage ["no-js"%string] false true None false)) = true.
Proof.
  split; [right; reflexivity |].
  exact (proj1 (applyTheme_versions_agree "dark"%string
                  (Theme.mkPage ["no-js"%string] false true None false)
                  (or_intror eq_refl))).
Defined.

(** X19.  A theme name other than the two of the table, which only a
    tampered ["theme"] item of [localStorage] can supply, is treated
    differently by the three versions.  [script.js] leaves the page light
    and hides the light icon; the dark icon it shows for a name every
    object inherits (such as [constructor]) and otherwise, its second
    [toggle] receiving [undefined], flips.  The frame-driven variant hides
    both icons for an inherited name and otherwise throws on
    [config.icon].  The first version shows the light theme. *)
Theorem applyTheme_unknown_name (theme : string) (p : Theme.Page) :
  theme <> "light"%string -> theme <> "dark"%string ->
  let inherited := existsb (String.eqb theme) objectPrototypeNames in
  Theme.isDark (Theme.applyTheme theme p) = false /\
  Theme.lightIconHidden (Theme.applyTheme theme p) = true /\
  Theme.darkIconHidden (Theme.applyTheme theme p) =
    (if inherited then false else negb (Theme.darkIconHidden p)) /\
  Theme.applyTheme_frame theme p =
    (if inherited
     then Some (Theme.mkPage
                  (ClassList.remove "dark"%string (Theme.htmlClasses p))
                  true true (Theme.savedTheme p) (Theme.prefersDark p))
     else None) /\
  Theme.isDark (Theme.applyTheme_v1 theme p) = false /\
  Theme.lightIconHidden (Theme.applyTheme_v1 theme p) = false /\
  Theme.darkIconHidden (Theme.applyTheme_v1 theme p) = true.
Proof.
  intros NL ND inherited.
  assert (EL : String.eqb theme "light"%string = false)
    by (apply String.eqb_neq; exact NL).
  assert (ED : String.eqb theme "dark"%string = false)
    by (apply String.eqb_neq; exact ND).
  assert (L : Theme.lookup theme Theme.themes =
              if inherited then Theme.Inherited else Theme.Undefined).
  { unfold Theme.lookup, Theme.themes.
    cbn [Theme.ownProperty]. rewrite EL, ED. reflexivity. }
  unfold Theme.applyTheme, Theme.applyTheme_frame, Theme.applyTheme_v1,
    Theme.isDark.
  rewrite L, ED, removeThemeClasses_dark. clearbody inherited.
  destruct inherited;
    cbn [Theme.htmlClasses Theme.lightIconHidden Theme.darkIconHidden
         toggleHidden negb];
    rewrite contains_remove_same; repeat split; reflexivity.
Qed.

Lemma applyTheme_unknown_name_witness :
  ("sepia"%string <> "light"%string /\ "sepia"%string <> "dark"%string) /\
  Theme.darkIconHidden
    (Theme.applyTheme "sepia"%string
       (Theme.mkPage [] false true None false)) = false.
Proof.
  assert (NL : "sepia"%string <> "light"%string) by discriminate.
  assert (ND : "sepia"%string <> "dark"%string) by discriminate.
  split; [split; [exact NL | exact ND] |].
  exact (proj1 (proj2 (proj2 (applyTheme_unknown_name "sepia"%string
                                (Theme.mkPage [] false true None false)
                                NL ND)))).
Defined.

(** ** The colour of the bar *)

Lemma isSimpleColor_truthy (c : string) :
  Colour.isSimpleColor c = true -> truthy c = true.
Proof. destruct c; [discriminate | reflexivity]. Qed.

Lemma savedColor_lastChoice (es : list Colour.Event) :
  forall p : Colour.Page,
    Colour.savedColor (Colour.run p es) =
    Colour.lastChoice es (Colour.savedColor p).
Proof.
  induction es as [| e es IH]; intros p; [reflexivity |].
  cbn [Colour.run fold_left]. fold (Colour.run (Colour.dispatch p e) es).
  rewrite IH. destruct e; reflexivity.
Qed.

Lemma storedIsColour_run (es : list Colour.Event) :
  forall p : Colour.Page,
    Colour.picksAreColours es = true ->
    Colour.storedIsColour p = true ->
    Colour.storedIsColour (Colour.run p es) = true.
Proof.
  induction es as [| e es IH]; intros p N I; [exact I |].
  cbn [Colour.picksAreColours forallb] in N. apply andb_true_iff in N.
  destruct N as [N0 N1].
  cbn [Colour.run fold_left]. apply IH; [exact N1 |].
  destruct e as [c | | | b]; [exact N0 | reflexivity | exact I | exact I].
Qed.

Lemma barColor_is_saved (es : list Colour.Event) :
  forall p : Colour.Page,
    Colour.picksAreColours es = true ->
    Colour.barColor p = orElse (Colour.savedColor p) Colour.DEFAULT_COLOR ->
    Colour.barColor (Colour.run p es) =
    orElse (Colour.savedColor (Colour.run p es)) Colour.DEFAULT_COLOR.
Proof.
  induction es as [| e es IH]; intros p N I; [exact I |].
  cbn [Colour.picksAreColours forallb] in N. apply andb_true_iff in N.
  destruct N as [N0 N1].
  cbn [Colour.run fold_left]. apply IH; [exact N1 |].
  destruct e as [c | | | b].
  - cbn. rewrite (isSimpleColor_truthy c N0). reflexivity.
  - reflexivity.
  - reflexivity.
  - exact I.
Qed.

(** X20.  Once [updateUI] has run, the bar always has the colour the user
    chose last, the default after a reset or if nothing was ever chosen,
    and that colour is what is saved: whatever the user picks, resets or
    focuses and however often [updateUI] runs in between, the bar has a
    valid colour, a further [updateUI] never changes it, and a page
    fetched again paints the bar in the same colour. *)
Theorem bar_keeps_chosen_colour
    (p fresh : Colour.Page) (es : list Colour.Event) :
  Colour.storedIsColour p = true ->
  Colour.picksAreColours es = true ->
  let q := Colour.run (Colour.updateUI p) es in
  Colour.savedColor q = Colour.lastChoice es (Colour.savedColor p) /\
  Colour.barColor q =
    match Colour.lastChoice es (Colour.savedColor p) with
    | Some c => c
    | None => Colour.DEFAULT_COLOR
    end /\
  Colour.isSimpleColor (Colour.barColor q) = true /\
  Colour.barColor (Colour.updateUI q) = Colour.barColor q /\
  Colour.barColor
    (Colour.updateUI
       (Colour.mkPage (Colour.barColor fresh) (Colour.pickerValue fresh)
          (Colour.pickerFocused fresh) (Colour.savedColor q))) =
  Colour.barColor q.
Proof.
  intros V N q.
  assert (S : Colour.savedColor q = Colour.lastChoice es (Colour.savedColor p))
    by (subst q; rewrite savedColor_lastChoice; reflexivity).
  assert (B : Colour.barColor q =
              orElse (Colour.savedColor q) Colour.DEFAULT_COLOR).
  { subst q. apply barColor_is_saved; [exact N | reflexivity]. }
  assert (W : Colour.storedIsColour q = true).
  { subst q. apply storedIsColour_run; [exact N | exact V]. }
  clearbody q. unfold Colour.storedIsColour in W. rewrite <- S.
  split; [reflexivity |].
  split; [| split];
    [| | split; cbn [Colour.updateUI Colour.barColor Colour.savedColor];
         rewrite B; reflexivity].
  - rewrite B. destruct (Colour.savedColor q) as [c |]; [| reflexivity].
    cbn [orElse]. rewrite (isSimpleColor_truthy c W). reflexivity.
  - rewrite B. destruct (Colour.savedColor q) as [c |]; [| reflexivity].
    cbn [orElse]. rewrite (isSimpleColor_truthy c W). exact W.
Qed.

Lemma bar_keeps_chosen_colour_witness :
  (Colour.storedIsColour (Colour.mkPage ""%string ""%string false None) = true /\
   Colour.picksAreColours
     [Colour.Pick "#ff0000"%string; Colour.Update; Colour.Focus true;
      Colour.Update] = true) /\
  Colour.barColor
    (Colour.run
       (Colour.updateUI (Colour.mkPage ""%string ""%string false None))
       [Colour.Pick "#ff0000"%string; Colour.Update; Colour.Focus true;
        Colour.Update]) = "#ff0000"%string.
Proof.
  split; [split; reflexivity |].
  exact (proj1 (proj2 (bar_keeps_chosen_colour
                         (Colour.mkPage ""%string ""%string false None)
                         (Colour.mkPage ""%string ""%string false None)
                         [Colour.Pick "#ff0000"%string; Colour.Update;
                          Colour.Focus true; Colour.Update]
                         eq_refl eq_refl))).
Defined.

(** ** The language *)

Lemma setLanguage_known (lang : string) (p : Language.Page) :
  Language.hasTranslations lang = true ->
  Language.setLanguage lang p =
  Language.mkPage lang (Some lang) (Language.browserLang p).
Proof. intros H. unfold Language.setLanguage. rewrite H. reflexivity. Qed.

Lemma languageClick_eq (p : Language.Page) :
  Language.languageClick p =
  let newLang :=
    if String.eqb (Language.currentLang p) "zh-CN"%string then "en"%string
    else "zh-CN"%string in
  Language.mkPage newLang (Some newLang) (Language.browserLang p).
Proof.
  unfold Language.languageClick.
  destruct (String.eqb (Language.currentLang p) "zh-CN"%string);
    reflexivity.
Qed.

Lemma loadLanguage_saved (s browser : string) (p : Language.Page) :
  Language.savedLang p = Some s ->
  truthy s = true -> Language.hasTranslations s = true ->
  Language.currentLang (Language.loadLanguage (Language.reloaded browser p)) = s /\
  Language.savedLang (Language.loadLanguage (Language.reloaded browser p)) = Some s.
Proof.
  intros S T H.
  unfold Language.loadLanguage, Language.initialLang, Language.reloaded.
  cbn [Language.savedLang Language.browserLang]. rewrite S, T, H.
  cbn [andb]. rewrite (setLanguage_known s _ H). split; reflexivity.
Qed.

(** X21.  The language button switches between [zh-CN] and [en] and the
    choice survives a reload: after a click the current language is [en]
    if it was [zh-CN] and [zh-CN] otherwise, and it is what is saved; the
    page fetched again comes up in that language whatever the browser's
    language; with nothing saved the page comes up in [en] exactly if the
    browser's language starts with [en], and in [zh-CN] otherwise.  A
    saved item that is a name every object inherits is taken for a
    language as it stands. *)
Theorem language_choice_survives_reload
    (p : Language.Page) (browser : string) :
  let p' := Language.languageClick p in
  let q := Language.loadLanguage (Language.reloaded browser p') in
  Language.currentLang p' =
    (if String.eqb (Language.currentLang p) "zh-CN"%string then "en"%string
     else "zh-CN"%string) /\
  Language.savedLang p' = Some (Language.currentLang p') /\
  Language.currentLang q = Language.currentLang p' /\
  Language.savedLang q = Language.savedLang p' /\
  (Language.savedLang p = None ->
   Language.currentLang (Language.loadLanguage p) =
     if String.prefix "en"%string (Language.browserLang p) then "en"%string
     else "zh-CN"%string) /\
  (forall s : string,
     Language.savedLang p = Some s ->
     existsb (String.eqb s) objectPrototypeNames = true ->
     Language.currentLang (Language.loadLanguage p) = s).
Proof.
  intros p' q. subst q p'. rewrite languageClick_eq.
  cbn zeta. cbn [Language.currentLang Language.savedLang].
  split; [reflexivity |]. split; [reflexivity |].
  split; [| split; [| split]].
  - destruct (String.eqb (Language.currentLang p) "zh-CN"%string);
      apply (loadLanguage_saved _ browser); reflexivity.
  - destruct (String.eqb (Language.currentLang p) "zh-CN"%string);
      apply (loadLanguage_saved _ browser); reflexivity.
  - intros S. unfold Language.loadLanguage, Language.initialLang.
    rewrite S. unfold Language.browserChoice.
    change (Language.hasTranslations "en"%string) with true.
    rewrite andb_true_r.
    destruct (String.prefix "en"%string (Language.browserLang p));
      [reflexivity |].
    destruct (String.prefix "zh"%string (Language.browserLang p) &&
              Language.hasTranslations "zh-CN"%string); reflexivity.
  - intros s S I.
    assert (H : Language.hasTranslations s = true)
      by (unfold Language.hasTranslations; rewrite I; apply orb_true_r).
    assert (T : truthy s = true).
    { destruct s; [discriminate I | reflexivity]. }
    unfold Language.loadLanguage, Language.initialLang.
    rewrite S, T, H. cbn [andb]. rewrite (setLanguage_known s _ H).
    reflexivity.
Qed.

End LookFacts.
